(** * GSAP-GPT playground: the chat-to-timeline pipeline

    A shallow embedding of the playground's state containers and of the
    functions that update them, in their latest form:

    - [sendMessageToAI] of services/geminiService.ts, the client of the
      hosted model (src/unnamed/part_000, the four-argument version that
      the application below calls);
    - [formatGSAPCode], [ElementManager.handleSort],
      [ChatInterface.handleSend], [App.handleSendMessage],
      [App.handleIdChange] and the other handlers of App.tsx
      (src/unnamed/part_002, lines 1-677).

    Beside these, the service and the handler of the earlier snapshots
    ([generateAnimationSteps] of src/services/geminiService.ts, the
    two-argument [sendMessageToAI] of src/unnamed/part_001 and
    [handleSendMessage] of src/App.tsx) are embedded and compared with the
    current ones, and so are the Draggable effect of [Stage] and what
    [PresetsPanel] and [ExportPanel] render.

    JavaScript strings are modelled by [string] (code units below 256),
    JavaScript numbers by [Q]; no property below computes with numbers.
    An [async] function is split at its [await]: the part that runs before
    the promise settles and the part that runs after.  Of GSAP only what
    it does to the state is modelled: [tl.to] writes into the [vars] object
    it is given, and the steps in the state are such objects.  What it
    leaves in them is a parameter, of which only the [parent] it stores is
    assumed.  In the transition system the timeline effect is an event of
    its own, which comes with that parameter.  The container [isPlaying],
    which only the play button reads, is left out. *)

From Stdlib Require Import ZArith QArith Strings.String Strings.Ascii List
Permutation Bool Lia.
From stdpp Require Import gmap strings list fin_maps.

Local Open Scope string_scope.

(** ** Platform strings *)

Module JS.

(** The double quote, the line feed and the back tick. *)
Definition DQUOTE : string := String "034"%char EmptyString.
Definition LF : string := String "010"%char EmptyString.
Definition BACKTICK : string := String "096"%char EmptyString.

(** [WhiteSpace] and [LineTerminator] code points below 256:
    TAB, LF, VT, FF, CR, SP and NBSP. *)
Definition isWhiteSpace (c : ascii) : bool :=
  existsb (Ascii.eqb c)
    [ "009"; "010"; "011"; "012"; "013"; "032"; "160" ]%char.

Fixpoint trimStart (s : string) : string :=
  match s with
  | EmptyString => EmptyString
  | String c s' => if isWhiteSpace c then trimStart s' else s
  end.

Fixpoint trimEnd (s : string) : string :=
  match s with
  | EmptyString => EmptyString
  | String c s' =>
      match trimEnd s' with
      | EmptyString => if isWhiteSpace c then EmptyString else String c EmptyString
      | t => String c t
      end
  end.

(** [String.prototype.trim] *)
Definition trim (s : string) : string := trimEnd (trimStart s).

(** [String.prototype.startsWith] *)
Definition startsWith (s searchString : string) : bool :=
  String.prefix searchString s.

(** [String.prototype.endsWith] *)
Definition endsWith (s searchString : string) : bool :=
  let n := String.length s in
  let m := String.length searchString in
  (m <=? n)%nat && String.eqb (String.substring (n - m) m s) searchString.

(** A string used as a condition: only the empty string is falsy. *)
Definition truthy (s : string) : bool := negb (String.eqb s EmptyString).

Fixpoint dropChars (n : nat) (s : string) : string :=
  match n, s with
  | O, _ => s
  | S n', String _ s' => dropChars n' s'
  | S _, EmptyString => EmptyString
  end.

(** The text that follows the first occurrence of [pat] in [s]. *)
Fixpoint afterFirst (pat s : string) : option string :=
  if String.prefix pat s then Some (dropChars (String.length pat) s)
  else match s with
       | EmptyString => None
       | String _ s' => afterFirst pat s'
       end.

(** The text that precedes the first occurrence of [pat] in [s]. *)
Fixpoint beforeFirst (pat s : string) : option string :=
  if String.prefix pat s then Some EmptyString
  else match s with
       | EmptyString => None
       | String c s' => String c <$> beforeFirst pat s'
       end.

(** [Array.prototype.join] on strings. *)
Fixpoint join (sep : string) (parts : list string) : string :=
  match parts with
  | [] => EmptyString
  | [p] => p
  | p :: rest => p ++ sep ++ join sep rest
  end.

(** What a [catch] clause can receive: an [Error] with its message, or
    any other thrown value. *)
Inductive Thrown : Type :=
| ErrorObject (message : string)
| NonError.

(** How a call ends. *)
Inductive Completion (A : Type) : Type :=
| Returns (value : A)
| Throws (reason : Thrown).
Arguments Returns {A} value.
Arguments Throws {A} reason.

(** [Array.prototype.map] with a callback that can throw: the first throw
    ends the call. *)
Fixpoint mapThrowing {A B : Type} (f : A -> B + Thrown) (l : list A)
    : list B + Thrown :=
  match l with
  | [] => inl []
  | a :: l' =>
      match f a with
      | inl b =>
          match mapThrowing f l' with
          | inl bs => inl (b :: bs)
          | inr thrown => inr thrown
          end
      | inr thrown => inr thrown
      end
  end.

End JS.

(** ** JSON values

  An object keeps its members in insertion order, as [JSON.parse] builds
  it and [JSON.stringify] prints it; its keys are pairwise distinct.
  Beside the values that [JSON.parse] returns there is [JCyclic], an
  object of a library that refers back to itself, such as the Timeline
  that GSAP stores under [vars.parent]. *)

Module Json.

#[local] Unset Elimination Schemes.
Inductive JSON : Type :=
| JNull
| JBool (b : bool)
| JNumber (n : Q)
| JString (s : string)
| JArray (items : list JSON)
| JObject (members : list (string * JSON))
| JCyclic.
#[local] Set Elimination Schemes.

(** Property read [o.key]; [None] is [undefined]. *)
Fixpoint member (key : string) (members : list (string * JSON)) : option JSON :=
  match members with
  | [] => None
  | (k, v) :: rest => if String.eqb k key then Some v else member key rest
  end.

Definition get (key : string) (v : JSON) : option JSON :=
  match v with
  | JObject members => member key members
  | _ => None
  end.

(** A value used as a condition. *)
Definition isTruthy (v : JSON) : bool :=
  match v with
  | JNull => false
  | JBool b => b
  | JNumber n => negb (Qeq_bool n 0)
  | JString s => JS.truthy s
  | JArray _ | JObject _ | JCyclic => true
  end.

(** The same for a property that may be [undefined]. *)
Definition isTruthyOpt (v : option JSON) : bool :=
  match v with
  | Some x => isTruthy x
  | None => false
  end.

(** [JSON.stringify] returns a text for [v]: nothing in it is cyclic. *)
Fixpoint serializable (v : JSON) : bool :=
  match v with
  | JArray items => forallb serializable items
  | JObject members => forallb (fun m => serializable (snd m)) members
  | JCyclic => false
  | _ => true
  end.

(** The [TypeError] that [JSON.stringify] throws on a cyclic value.  Its
    message is the engine's; no code below reads it. *)
Definition circularStructureError : JS.Thrown :=
  JS.ErrorObject "Converting circular structure to JSON".

End Json.

(** ** types.ts (src/unnamed/part_004) *)

Module Types.
Import Json.

Definition number : Type := Q.

(** ['box' | 'circle' | 'text' | 'image' | 'video'] *)
Inductive ElementType : Type := Box | Circle | Text | Image | Video.

Record StageElement : Type := mkStageElement {
  id : string;
  type : ElementType;
  x : number;
  y : number;
  width : string;
  height : string;
  rotation : number;
  opacity : number;
  backgroundColor : option string;
  color : option string;
  text : option string;
  fontSize : option number;
  fontWeight : option string;
  src : option string;
  autoplay : option bool;
  loop : option bool;
  muted : option bool
}.

(** [Partial<StageElement>]: every property may be absent. *)
Record PartialStageElement : Type := mkPartial {
  p_id : option string;
  p_type : option ElementType;
  p_x : option number;
  p_y : option number;
  p_width : option string;
  p_height : option string;
  p_rotation : option number;
  p_opacity : option number;
  p_backgroundColor : option string;
  p_color : option string;
  p_text : option string;
  p_fontSize : option number;
  p_fontWeight : option string;
  p_src : option string;
  p_autoplay : option bool;
  p_loop : option bool;
  p_muted : option bool
}.

(** [newer ?? older] for a required property. *)
Definition over {A : Type} (newer : option A) (older : A) : A :=
  match newer with
  | Some v => v
  | None => older
  end.

(** The same for an optional property. *)
Definition overOpt {A : Type} (newer older : option A) : option A :=
  match newer with
  | Some v => Some v
  | None => older
  end.

(** The object spread [{ ...el, ...newProps }]. *)
Definition spread (el : StageElement) (newProps : PartialStageElement) : StageElement :=
  {| id := over (p_id newProps) (id el);
     type := over (p_type newProps) (type el);
     x := over (p_x newProps) (x el);
     y := over (p_y newProps) (y el);
     width := over (p_width newProps) (width el);
     height := over (p_height newProps) (height el);
     rotation := over (p_rotation newProps) (rotation el);
     opacity := over (p_opacity newProps) (opacity el);
     backgroundColor := overOpt (p_backgroundColor newProps) (backgroundColor el);
     color := overOpt (p_color newProps) (color el);
     text := overOpt (p_text newProps) (text el);
     fontSize := overOpt (p_fontSize newProps) (fontSize el);
     fontWeight := overOpt (p_fontWeight newProps) (fontWeight el);
     src := overOpt (p_src newProps) (src el);
     autoplay := overOpt (p_autoplay newProps) (autoplay el);
     loop := overOpt (p_loop newProps) (loop el);
     muted := overOpt (p_muted newProps) (muted el) |}.

(** The properties of an element by name, to speak about all of them at
    once: what an element has under a name, and what a partial element
    lists under it. *)
Inductive PropertyName : Type :=
| Id | Type_ | X | Y | Width | Height | Rotation | Opacity | BackgroundColor
| Color | TextContent | FontSize | FontWeight | Src | Autoplay | Loop | Muted.

Inductive PropertyValue : Type :=
| VString (s : string)
| VNumber (n : number)
| VBool (b : bool)
| VType (t : ElementType).

Definition property (name : PropertyName) (el : StageElement) : option PropertyValue :=
  match name with
  | Id => Some (VString (id el))
  | Type_ => Some (VType (type el))
  | X => Some (VNumber (x el))
  | Y => Some (VNumber (y el))
  | Width => Some (VString (width el))
  | Height => Some (VString (height el))
  | Rotation => Some (VNumber (rotation el))
  | Opacity => Some (VNumber (opacity el))
  | BackgroundColor => VString <$> backgroundColor el
  | Color => VString <$> color el
  | TextContent => VString <$> text el
  | FontSize => VNumber <$> fontSize el
  | FontWeight => VString <$> fontWeight el
  | Src => VString <$> src el
  | Autoplay => VBool <$> autoplay el
  | Loop => VBool <$> loop el
  | Muted => VBool <$> muted el
  end.

Definition listed (name : PropertyName) (newProps : PartialStageElement)
    : option PropertyValue :=
  match name with
  | Id => VString <$> p_id newProps
  | Type_ => VType <$> p_type newProps
  | X => VNumber <$> p_x newProps
  | Y => VNumber <$> p_y newProps
  | Width => VString <$> p_width newProps
  | Height => VString <$> p_height newProps
  | Rotation => VNumber <$> p_rotation newProps
  | Opacity => VNumber <$> p_opacity newProps
  | BackgroundColor => VString <$> p_backgroundColor newProps
  | Color => VString <$> p_color newProps
  | TextContent => VString <$> p_text newProps
  | FontSize => VNumber <$> p_fontSize newProps
  | FontWeight => VString <$> p_fontWeight newProps
  | Src => VString <$> p_src newProps
  | Autoplay => VBool <$> p_autoplay newProps
  | Loop => VBool <$> p_loop newProps
  | Muted => VBool <$> p_muted newProps
  end.

(** [vars: { [key: string]: any }] *)
Definition Vars : Type := list (string * JSON).

Record AnimationStep : Type := mkStep {
  target : string;
  vars : Vars;
  position : option string
}.

(** [JSON.stringify] returns a text for the step: [target] and [position]
    are strings, so this is about [vars]. *)
Definition serializableStep (step : AnimationStep) : bool :=
  serializable (JObject (vars step)).

(** [role: 'user' | 'model'] *)
Inductive Role : Type := User | Model.

Record ChatMessage : Type := mkMessage {
  role : Role;
  msg_text : string
}.

End Types.

(** ** services/geminiService.ts (src/unnamed/part_000) *)

Module GeminiService.
Import JS Json Types.

(** How the promise of [chat.sendMessage] settles: with a response whose
    [text] is given, or with a rejection. *)
Inductive ChatReply : Type :=
| Resolved (text : string)
| Rejected (reason : Thrown).

(** The chat session of the SDK, seen from this module: it answers a prompt. *)
Record Chat : Type := mkChat {
  sendMessage : string -> ChatReply
}.

Definition emptyMessageError : Thrown := ErrorObject "Message cannot be empty.".
Definition invalidJsonError : Thrown := ErrorObject "AI did not return valid JSON.".

Definition errorExplanation : string :=
  "Sorry, I encountered an error trying to process that. The AI's response might have been malformed. Please try phrasing your request differently.".

Definition unknownErrorMessage : string := "An unknown error occurred.".

(** [error instanceof Error ? error.message : "An unknown error occurred."] *)
Definition messageOf (error : Thrown) : string :=
  match error with
  | ErrorObject message => message
  | NonError => unknownErrorMessage
  end.

(** The object literal returned by the [catch] clause. *)
Definition errorResponse (error : Thrown) : JSON :=
  JObject [ ("response_type", JString "error");
            ("explanation", JString errorExplanation);
            ("error_message", JString (messageOf error)) ].

(** Elements whose [src] is a data URL are sent with the URL elided. *)
Definition sanitize (el : StageElement) : StageElement :=
  match src el with
  | Some s =>
      if truthy s && startsWith s "data:" then
        spread el {| p_id := None; p_type := None; p_x := None; p_y := None;
                     p_width := None; p_height := None; p_rotation := None;
                     p_opacity := None; p_backgroundColor := None;
                     p_color := None; p_text := None; p_fontSize := None;
                     p_fontWeight := None; p_src := Some "data:...";
                     p_autoplay := None; p_loop := None; p_muted := None |}
      else el
  | None => el
  end.

(** [/```json\n([\s\S]*?)\n```/]: the first fence opening, then the
    shortest text up to a closing fence; the result is group 1. *)
Definition fenceOpen : string := BACKTICK ++ BACKTICK ++ BACKTICK ++ "json" ++ LF.
Definition fenceClose : string := LF ++ BACKTICK ++ BACKTICK ++ BACKTICK.

Definition matchJsonFence (jsonText : string) : option string :=
  match afterFirst fenceOpen jsonText with
  | Some rest => beforeFirst fenceClose rest
  | None => None
  end.

Section Service.

(** [JSON.parse]: the parsed value, or the message of the [SyntaxError]. *)
Variable JSON_parse : string -> JSON + string.

(** The text that [JSON.stringify(_, null, 2)] returns, at the two types
    it is used at.  An element holds strings, numbers and booleans, so it
    always has one; a step has one unless something in its [vars] is
    cyclic. *)
Variable stringifyElements : list StageElement -> string.
Variable stringifySteps : list AnimationStep -> string.

(** [JSON.stringify(animationSteps, null, 2)] *)
Definition stringifyAnimationSteps (animationSteps : list AnimationStep)
    : string + Thrown :=
  if forallb serializableStep animationSteps then inl (stringifySteps animationSteps)
  else inr circularStructureError.

(** The session that [initializeChat] creates with the system instruction
    and the response schema. *)
Variable newChat : Chat.

Definition initializeChat : Chat := newChat.

Definition parse (jsonText : string) : JSON + Thrown :=
  match JSON_parse jsonText with
  | inl parsedResponse => inl parsedResponse
  | inr syntaxError => inr (ErrorObject syntaxError)
  end.

(** The template literal of [prompt]: the prompt, or what is thrown while
    it is put together. *)
Definition buildPrompt (message : string) (elements : list StageElement)
    (selectedElementId : option string) (animationSteps : list AnimationStep)
    : string + Thrown :=
  let sanitizedElements := List.map sanitize elements in
  match stringifyAnimationSteps animationSteps with
  | inl timelineSteps =>
      inl ("User message: " ++ DQUOTE ++ message ++ DQUOTE ++ LF ++ LF ++
           "Context:" ++ LF ++
           "- Current elements on stage: " ++
           stringifyElements sanitizedElements ++ LF ++
           "- Selected element ID: " ++
             (match selectedElementId with
              | Some i => if truthy i then DQUOTE ++ i ++ DQUOTE else "null"
              | None => "null"
              end) ++ LF ++
           "- Current timeline steps: " ++ timelineSteps)
  | inr error => inr error
  end.

(** The [try] block once the promise has settled: the value it returns, or
    what it throws into the [catch] clause. *)
Definition tryBlock (reply : ChatReply) : JSON + Thrown :=
  match reply with
  | Rejected reason => inr reason
  | Resolved text =>
      let jsonText := trim text in
      if negb (startsWith jsonText "{") || negb (endsWith jsonText "}") then
        match matchJsonFence jsonText with
        | Some group1 =>
            if truthy group1 then parse (trim group1) else inr invalidJsonError
        | None => inr invalidJsonError
        end
      else parse jsonText
  end.

(** [if (!chat) initializeChat()], then [chat!]. *)
Definition sessionOf (chat : option Chat) : Chat :=
  match chat with
  | Some c => c
  | None => initializeChat
  end.

(** [sendMessageToAI]: the module variable [chat] is passed in and out.
    The prompt is put together before the [try] block is entered, so what
    is thrown there leaves the function. *)
Definition sendMessageToAI (chat : option Chat) (message : string)
    (elements : list StageElement) (selectedElementId : option string)
    (animationSteps : list AnimationStep) : option Chat * Completion JSON :=
  let session := sessionOf chat in
  if negb (truthy (trim message)) then (Some session, Throws emptyMessageError)
  else
    match buildPrompt message elements selectedElementId animationSteps with
    | inr error => (Some session, Throws error)
    | inl prompt =>
        match tryBlock (sendMessage session prompt) with
        | inl parsedResponse => (Some session, Returns parsedResponse)
        | inr error => (Some session, Returns (errorResponse error))
        end
    end.

End Service.

End GeminiService.

(** ** App.tsx (src/unnamed/part_002, lines 1-677) *)

Module App.
Import JS Json Types.

(** *** formatGSAPCode *)

Definition noStepsComment : string := "// No animation steps generated yet.".

(** [step.vars.scrollTrigger] and [step.vars.text] used as conditions. *)
Definition usesScrollTrigger (step : AnimationStep) : bool :=
  isTruthyOpt (member "scrollTrigger" (vars step)).

Definition usesText (step : AnimationStep) : bool :=
  isTruthyOpt (member "text" (vars step)).

(** [flag && name], and [.filter(Boolean)] on a list of such values. *)
Definition andName (flag : bool) (name : string) : option string :=
  if flag then Some name else None.

Definition filterBoolean (names : list (option string)) : list string :=
  omap (fun n => match n with
                 | Some s => if JS.truthy s then Some s else None
                 | None => None
                 end) names.

Definition positionString (step : AnimationStep) : string :=
  match position step with
  | Some p => if JS.truthy p then ", " ++ DQUOTE ++ p ++ DQUOTE else ""
  | None => ""
  end.

(** [steps.filter(step => !step.vars.scrollTrigger)] and
    [steps.filter(step => step.vars.scrollTrigger)]. *)
Definition timelineAnims (steps : list AnimationStep) : list AnimationStep :=
  List.filter (fun step => negb (usesScrollTrigger step)) steps.

Definition scrollAnims (steps : list AnimationStep) : list AnimationStep :=
  List.filter usesScrollTrigger steps.

Section Format.

(** The text that [JSON.stringify(_, null, 2)] returns for a value without
    a cycle, and the [replace] that strips the quotes around the keys of
    the printed object. *)
Variable JSON_stringify : JSON -> string.
Variable unquoteKeys : string -> string.

(** [JSON.stringify(step.vars, null, 2).replace(...)] *)
Definition varsString (step : AnimationStep) : string + Thrown :=
  if serializableStep step
  then inl (unquoteKeys (JSON_stringify (JObject (vars step))))
  else inr circularStructureError.

Definition timelineLine (step : AnimationStep) : string + Thrown :=
  match varsString step with
  | inl varsString =>
      inl ("tl.to(" ++ DQUOTE ++ target step ++ DQUOTE ++ ", " ++ varsString ++
           positionString step ++ ");")
  | inr error => inr error
  end.

Definition scrollTriggerLine (step : AnimationStep) : string + Thrown :=
  match varsString step with
  | inl varsString =>
      inl ("gsap.to(" ++ DQUOTE ++ target step ++ DQUOTE ++ ", " ++ varsString ++ ");")
  | inr error => inr error
  end.

Definition registerPluginHeader (steps : list AnimationStep) : string :=
  let hasScrollTrigger := existsb usesScrollTrigger steps in
  let hasTextPlugin := existsb usesText steps in
  if hasScrollTrigger || hasTextPlugin then
    "gsap.registerPlugin(" ++
    join ", " (filterBoolean [ andName hasScrollTrigger "ScrollTrigger";
                               andName hasTextPlugin "TextPlugin" ]) ++
    ");" ++ LF ++ LF
  else "".

Definition timelineSteps (steps : list AnimationStep) : string + Thrown :=
  match mapThrowing timelineLine (timelineAnims steps) with
  | inl lines => inl (join LF lines)
  | inr error => inr error
  end.

Definition scrollTriggerSteps (steps : list AnimationStep) : string + Thrown :=
  match mapThrowing scrollTriggerLine (scrollAnims steps) with
  | inl lines => inl (join (LF ++ LF) lines)
  | inr error => inr error
  end.

Definition formatGSAPCode (steps : list AnimationStep) : Completion string :=
  match steps with
  | [] => Returns noStepsComment
  | _ :: _ =>
      let header := registerPluginHeader steps in
      match timelineSteps steps with
      | inr error => Throws error
      | inl timelineSteps =>
          match scrollTriggerSteps steps with
          | inr error => Throws error
          | inl scrollTriggerSteps =>
              let code := "" in
              let code :=
                if JS.truthy timelineSteps then
                  code ++ "const tl = gsap.timeline();" ++ LF ++ timelineSteps ++ LF ++ LF
                else code in
              let code :=
                if JS.truthy scrollTriggerSteps then code ++ scrollTriggerSteps
                else code in
              Returns (header ++ code)
          end
      end
  end.

End Format.

(** *** ElementManager.handleSort *)

(** [Array.prototype.splice(start, deleteCount, ...items)] for a start index
    that is not negative: the removed items and the array afterwards.  A
    start beyond the end is clamped to the length. *)
Definition splice {A : Type} (start deleteCount : nat) (items : list A)
    (array : list A) : list A * list A :=
  (take deleteCount (drop start array),
   (take start array ++ items ++ drop (start + deleteCount) array)%list).

(** The array holds [option StageElement]: [None] is the [undefined] that
    [splice(...)[0]] yields when nothing was removed.  The result is the
    two refs and the array afterwards; on the early [return] nothing
    changes. *)
Definition handleSort (dragItem dragOverItem : option nat)
    (elements : list StageElement)
    : option nat * option nat * list (option StageElement) :=
  match dragItem, dragOverItem with
  | Some from, Some to =>
      let newElements := Some <$> elements in
      let '(removed, newElements) := splice from 1 [] newElements in
      let draggedItemContent := mjoin (removed !! 0%nat) in
      let '(_, newElements) := splice to 0 [draggedItemContent] newElements in
      (None, None, newElements)
  | _, _ => (dragItem, dragOverItem, Some <$> elements)
  end.

(** *** The response of the service, as [handleSendMessage] reads it *)

Record ElementModification : Type := mkModification {
  mod_id : string;
  props : PartialStageElement
}.

(** [AIResponse]; [response_type] is whatever string the reply carries. *)
Record AIResponse : Type := mkAIResponse {
  response_type : string;
  explanation : string;
  new_elements : option (list StageElement);
  modified_elements : option (list ElementModification);
  animation_steps : option (list AnimationStep);
  error_message : option string
}.

(** The arguments of a call of [sendMessageToAI] whose promise is pending. *)
Record Request : Type := mkRequest {
  req_message : string;
  req_elements : list StageElement;
  req_selectedElementId : option string;
  req_animationSteps : list AnimationStep
}.

Record CanvasSettings : Type := mkCanvasSettings {
  canvas_width : number;
  canvas_height : number;
  canvas_backgroundColor : string
}.

(** *** State

    The state containers of [App], the input of [ChatInterface], the two
    drag refs of [ElementManager], the browser's [localStorage] and the
    promises of [sendMessageToAI] that have not settled.  The GSAP timeline
    object and purely presentational state (tabs, the copied flag, the
    stage scale) are left out. *)

Record AppState : Type := mkAppState {
  elements : list StageElement;
  selectedElementId : option string;
  animationSteps : list AnimationStep;
  isLoading : bool;
  chatHistory : list ChatMessage;
  canvasSettings : CanvasSettings;
  theme : string;
  isLeftPanelCollapsed : bool;
  isRightPanelCollapsed : bool;
  isScrollPreview : bool;
  input : string;
  dragItem : option nat;
  dragOverItem : option nat;
  localStorage : gmap string string;
  pendingRequests : list Request
}.

(** The state setters, each in its updater form [setX(prev => f(prev))]. *)

Definition setElements (update : list StageElement -> list StageElement) (s : AppState) : AppState :=
  {| elements := update (elements s);
     selectedElementId := selectedElementId s;
     animationSteps := animationSteps s;
     isLoading := isLoading s;
     chatHistory := chatHistory s;
     canvasSettings := canvasSettings s;
     theme := theme s;
     isLeftPanelCollapsed := isLeftPanelCollapsed s;
     isRightPanelCollapsed := isRightPanelCollapsed s;
     isScrollPreview := isScrollPreview s;
     input := input s;
     dragItem := dragItem s;
     dragOverItem := dragOverItem s;
     localStorage := localStorage s;
     pendingRequests := pendingRequests s |}.

Definition setSelectedElementId (update : option string -> option string) (s : AppState) : AppState :=
  {| elements := elements s;
     selectedElementId := update (selectedElementId s);
     animationSteps := animationSteps s;
     isLoading := isLoading s;
     chatHistory := chatHistory s;
     canvasSettings := canvasSettings s;
     theme := theme s;
     isLeftPanelCollapsed := isLeftPanelCollapsed s;
     isRightPanelCollapsed := isRightPanelCollapsed s;
     isScrollPreview := isScrollPreview s;
     input := input s;
     dragItem := dragItem s;
     dragOverItem := dragOverItem s;
     localStorage := localStorage s;
     pendingRequests := pendingRequests s |}.

Definition setAnimationSteps (update : list AnimationStep -> list AnimationStep) (s : AppState) : AppState :=
  {| elements := elements s;
     selectedElementId := selectedElementId s;
     animationSteps := update (animationSteps s);
     isLoading := isLoading s;
     chatHistory := chatHistory s;
     canvasSettings := canvasSettings s;
     theme := theme s;
     isLeftPanelCollapsed := isLeftPanelCollapsed s;
     isRightPanelCollapsed := isRightPanelCollapsed s;
     isScrollPreview := isScrollPreview s;
     input := input s;
     dragItem := dragItem s;
     dragOverItem := dragOverItem s;
     localStorage := localStorage s;
     pendingRequests := pendingRequests s |}.

Definition setIsLoading (update : bool -> bool) (s : AppState) : AppState :=
  {| elements := elements s;
     selectedElementId := selectedElementId s;
     animationSteps := animationSteps s;
     isLoading := update (isLoading s);
     chatHistory := chatHistory s;
     canvasSettings := canvasSettings s;
     theme := theme s;
     isLeftPanelCollapsed := isLeftPanelCollapsed s;
     isRightPanelCollapsed := isRightPanelCollapsed s;
     isScrollPreview := isScrollPreview s;
     input := input s;
     dragItem := dragItem s;
     dragOverItem := dragOverItem s;
     localStorage := localStorage s;
     pendingRequests := pendingRequests s |}.

Definition setChatHistory (update : list ChatMessage -> list ChatMessage) (s : AppState) : AppState :=
  {| elements := elements s;
     selectedElementId := selectedElementId s;
     animationSteps := animationSteps s;
     isLoading := isLoading s;
     chatHistory := update (chatHistory s);
     canvasSettings := canvasSettings s;
     theme := theme s;
     isLeftPanelCollapsed := isLeftPanelCollapsed s;
     isRightPanelCollapsed := isRightPanelCollapsed s;
     isScrollPreview := isScrollPreview s;
     input := input s;
     dragItem := dragItem s;
     dragOverItem := dragOverItem s;
     localStorage := localStorage s;
     pendingRequests := pendingRequests s |}.

Definition setCanvasSettings (update : CanvasSettings -> CanvasSettings) (s : AppState) : AppState :=
  {| elements := elements s;
     selectedElementId := selectedElementId s;
     animationSteps := animationSteps s;
     isLoading := isLoading s;
     chatHistory := chatHistory s;
     canvasSettings := update (canvasSettings s);
     theme := theme s;
     isLeftPanelCollapsed := isLeftPanelCollapsed s;
     isRightPanelCollapsed := isRightPanelCollapsed s;
     isScrollPreview := isScrollPreview s;
     input := input s;
     dragItem := dragItem s;
     dragOverItem := dragOverItem s;
     localStorage := localStorage s;
     pendingRequests := pendingRequests s |}.

Definition setTheme (update : string -> string) (s : AppState) : AppState :=
  {| elements := elements s;
     selectedElementId := selectedElementId s;
     animationSteps := animationSteps s;
     isLoading := isLoading s;
     chatHistory := chatHistory s;
     canvasSettings := canvasSettings s;
     theme := update (theme s);
     isLeftPanelCollapsed := isLeftPanelCollapsed s;
     isRightPanelCollapsed := isRightPanelCollapsed s;
     isScrollPreview := isScrollPreview s;
     input := input s;
     dragItem := dragItem s;
     dragOverItem := dragOverItem s;
     localStorage := localStorage s;
     pendingRequests := pendingRequests s |}.

Definition setLeftPanelCollapsed (update : bool -> bool) (s : AppState) : AppState :=
  {| elements := elements s;
     selectedElementId := selectedElementId s;
     animationSteps := animationSteps s;
     isLoading := isLoading s;
     chatHistory := chatHistory s;
     canvasSettings := canvasSettings s;
     theme := theme s;
     isLeftPanelCollapsed := update (isLeftPanelCollapsed s);
     isRightPanelCollapsed := isRightPanelCollapsed s;
     isScrollPreview := isScrollPreview s;
     input := input s;
     dragItem := dragItem s;
     dragOverItem := dragOverItem s;
     localStorage := localStorage s;
     pendingRequests := pendingRequests s |}.

Definition setRightPanelCollapsed (update : bool -> bool) (s : AppState) : AppState :=
  {| elements := elements s;
     selectedElementId := selectedElementId s;
     animationSteps := animationSteps s;
     isLoading := isLoading s;
     chatHistory := chatHistory s;
     canvasSettings := canvasSettings s;
     theme := theme s;
     isLeftPanelCollapsed := isLeftPanelCollapsed s;
     isRightPanelCollapsed := update (isRightPanelCollapsed s);
     isScrollPreview := isScrollPreview s;
     input := input s;
     dragItem := dragItem s;
     dragOverItem := dragOverItem s;
     localStorage := localStorage s;
     pendingRequests := pendingRequests s |}.

Definition setIsScrollPreview (update : bool -> bool) (s : AppState) : AppState :=
  {| elements := elements s;
     selectedElementId := selectedElementId s;
     animationSteps := animationSteps s;
     isLoading := isLoading s;
     chatHistory := chatHistory s;
     canvasSettings := canvasSettings s;
     theme := theme s;
     isLeftPanelCollapsed := isLeftPanelCollapsed s;
     isRightPanelCollapsed := isRightPanelCollapsed s;
     isScrollPreview := update (isScrollPreview s);
     input := input s;
     dragItem := dragItem s;
     dragOverItem := dragOverItem s;
     localStorage := localStorage s;
     pendingRequests := pendingRequests s |}.

Definition setInput (update : string -> string) (s : AppState) : AppState :=
  {| elements := elements s;
     selectedElementId := selectedElementId s;
     animationSteps := animationSteps s;
     isLoading := isLoading s;
     chatHistory := chatHistory s;
     canvasSettings := canvasSettings s;
     theme := theme s;
     isLeftPanelCollapsed := isLeftPanelCollapsed s;
     isRightPanelCollapsed := isRightPanelCollapsed s;
     isScrollPreview := isScrollPreview s;
     input := update (input s);
     dragItem := dragItem s;
     dragOverItem := dragOverItem s;
     localStorage := localStorage s;
     pendingRequests := pendingRequests s |}.

Definition setDragItem (update : option nat -> option nat) (s : AppState) : AppState :=
  {| elements := elements s;
     selectedElementId := selectedElementId s;
     animationSteps := animationSteps s;
     isLoading := isLoading s;
     chatHistory := chatHistory s;
     canvasSettings := canvasSettings s;
     theme := theme s;
     isLeftPanelCollapsed := isLeftPanelCollapsed s;
     isRightPanelCollapsed := isRightPanelCollapsed s;
     isScrollPreview := isScrollPreview s;
     input := input s;
     dragItem := update (dragItem s);
     dragOverItem := dragOverItem s;
     localStorage := localStorage s;
     pendingRequests := pendingRequests s |}.

Definition setDragOverItem (update : option nat -> option nat) (s : AppState) : AppState :=
  {| elements := elements s;
     selectedElementId := selectedElementId s;
     animationSteps := animationSteps s;
     isLoading := isLoading s;
     chatHistory := chatHistory s;
     canvasSettings := canvasSettings s;
     theme := theme s;
     isLeftPanelCollapsed := isLeftPanelCollapsed s;
     isRightPanelCollapsed := isRightPanelCollapsed s;
     isScrollPreview := isScrollPreview s;
     input := input s;
     dragItem := dragItem s;
     dragOverItem := update (dragOverItem s);
     localStorage := localStorage s;
     pendingRequests := pendingRequests s |}.

Definition setLocalStorage (update : gmap string string -> gmap string string) (s : AppState) : AppState :=
  {| elements := elements s;
     selectedElementId := selectedElementId s;
     animationSteps := animationSteps s;
     isLoading := isLoading s;
     chatHistory := chatHistory s;
     canvasSettings := canvasSettings s;
     theme := theme s;
     isLeftPanelCollapsed := isLeftPanelCollapsed s;
     isRightPanelCollapsed := isRightPanelCollapsed s;
     isScrollPreview := isScrollPreview s;
     input := input s;
     dragItem := dragItem s;
     dragOverItem := dragOverItem s;
     localStorage := update (localStorage s);
     pendingRequests := pendingRequests s |}.

Definition setPendingRequests (update : list Request -> list Request) (s : AppState) : AppState :=
  {| elements := elements s;
     selectedElementId := selectedElementId s;
     animationSteps := animationSteps s;
     isLoading := isLoading s;
     chatHistory := chatHistory s;
     canvasSettings := canvasSettings s;
     theme := theme s;
     isLeftPanelCollapsed := isLeftPanelCollapsed s;
     isRightPanelCollapsed := isRightPanelCollapsed s;
     isScrollPreview := isScrollPreview s;
     input := input s;
     dragItem := dragItem s;
     dragOverItem := dragOverItem s;
     localStorage := localStorage s;
     pendingRequests := update (pendingRequests s) |}.

(** *** ElementManager: addElement, removeElement, updateElement *)

Definition typeName (t : ElementType) : string :=
  match t with
  | Box => "box"
  | Circle => "circle"
  | Text => "text"
  | Image => "image"
  | Video => "video"
  end.

(** The properties that [addElement] spreads over the common ones. *)
Definition typeDefaults (t : ElementType) : PartialStageElement :=
  match t with
  | Box =>
      {| p_id := None; p_type := None; p_x := None; p_y := None;
         p_width := None; p_height := None; p_rotation := None; p_opacity := None;
         p_backgroundColor := Some "#3b82f6"; p_color := None; p_text := None;
         p_fontSize := None; p_fontWeight := None; p_src := None;
         p_autoplay := None; p_loop := None; p_muted := None |}
  | Circle =>
      {| p_id := None; p_type := None; p_x := None; p_y := None;
         p_width := Some "80px"; p_height := Some "80px"; p_rotation := None;
         p_opacity := None; p_backgroundColor := Some "#ec4899"; p_color := None;
         p_text := None; p_fontSize := None; p_fontWeight := None; p_src := None;
         p_autoplay := None; p_loop := None; p_muted := None |}
  | Text =>
      {| p_id := None; p_type := None; p_x := None; p_y := None;
         p_width := Some "auto"; p_height := Some "auto"; p_rotation := None;
         p_opacity := None; p_backgroundColor := Some "transparent";
         p_color := Some "#1f2937"; p_text := Some "Hello";
         p_fontSize := Some (24 # 1); p_fontWeight := Some "bold"; p_src := None;
         p_autoplay := None; p_loop := None; p_muted := None |}
  | Image =>
      {| p_id := None; p_type := None; p_x := None; p_y := None;
         p_width := Some "150px"; p_height := Some "150px"; p_rotation := None;
         p_opacity := None; p_backgroundColor := Some "#4b5563";
         p_color := Some "#e5e7eb"; p_text := None; p_fontSize := None;
         p_fontWeight := None; p_src := Some ""; p_autoplay := None;
         p_loop := None; p_muted := None |}
  | Video =>
      {| p_id := None; p_type := None; p_x := None; p_y := None;
         p_width := Some "200px"; p_height := Some "120px"; p_rotation := None;
         p_opacity := None; p_backgroundColor := Some "#4b5563";
         p_color := Some "#e5e7eb"; p_text := None; p_fontSize := None;
         p_fontWeight := None; p_src := Some ""; p_autoplay := Some true;
         p_loop := Some true; p_muted := Some true |}
  end.

(** [now] is the decimal text of [Date.now()]. *)
Definition newElementOf (t : ElementType) (now : string) : StageElement :=
  spread {| id := typeName t ++ "-" ++ now; type := t; x := 50 # 1; y := 50 # 1;
            width := "100px"; height := "100px"; rotation := 0 # 1;
            opacity := 1 # 1; backgroundColor := None; color := None;
            text := None; fontSize := None; fontWeight := None; src := None;
            autoplay := None; loop := None; muted := None |}
         (typeDefaults t).

Definition addElement (t : ElementType) (now : string) (s : AppState) : AppState :=
  let newElement := newElementOf t now in
  setSelectedElementId (fun _ => Some (id newElement))
    (setElements (fun prev => (prev ++ [newElement])%list) s).

Definition removeElement (elementId : string) (s : AppState) : AppState :=
  let s1 := setElements
              (fun prev => List.filter (fun el => negb (String.eqb (id el) elementId)) prev) s in
  match selectedElementId s with
  | Some selected =>
      if String.eqb selected elementId then setSelectedElementId (fun _ => None) s1
      else s1
  | None => s1
  end.

(** Also [App.updateElementPosition], which has the same body. *)
Definition updateElement (elementId : string) (newProps : PartialStageElement)
    (s : AppState) : AppState :=
  setElements
    (fun prev => List.map (fun el => if String.eqb (id el) elementId
                                     then spread el newProps else el) prev) s.

(** *** PresetsPanel *)

Definition selector (elementId : string) : string := "#" ++ elementId.

Definition scrollTriggerOf (el : StageElement) : JSON :=
  JObject [ ("trigger", JString (selector (id el)));
            ("start", JString "top 80%");
            ("toggleActions", JString "play none none none") ].

Definition fadeInOnScroll (selectedElement : StageElement) : AnimationStep :=
  {| target := selector (id selectedElement);
     vars := [ ("autoAlpha", JNumber (1 # 1)); ("y", JNumber (0 # 1));
               ("scrollTrigger", scrollTriggerOf selectedElement) ];
     position := None |}.

Definition slideInOnScroll (selectedElement : StageElement) : AnimationStep :=
  {| target := selector (id selectedElement);
     vars := [ ("x", JNumber (0 # 1)); ("autoAlpha", JNumber (1 # 1));
               ("scrollTrigger", scrollTriggerOf selectedElement) ];
     position := None |}.

Definition scrollPresets (selectedElement : StageElement) : list (string * AnimationStep) :=
  [ ("Fade In on Scroll", fadeInOnScroll selectedElement);
    ("Slide In on Scroll", slideInOnScroll selectedElement) ].

Definition textPresets (selectedElement : StageElement) : list (string * AnimationStep) :=
  [ ("Typewriter",
     {| target := selector (id selectedElement);
        vars := [ ("text", JObject match text selectedElement with
                                   | Some t => [ ("value", JString t) ]
                                   | None => []
                                   end);
                  ("duration", JNumber (2 # 1)); ("ease", JString "none") ];
        position := None |});
    ("Stagger Fade In",
     {| target := selector (id selectedElement);
        vars := [ ("autoAlpha", JNumber (1 # 1)); ("y", JNumber (0 # 1));
                  ("stagger", JNumber (1 # 10)); ("duration", JNumber (1 # 2)) ];
        position := Some "+=0.5" |}) ].

(** The selector that the scroll trigger of a step watches,
    [step.vars.scrollTrigger.trigger]; the effect of [App] that builds the
    ScrollTrigger instances passes it on to GSAP. *)
Definition triggerOf (step : AnimationStep) : option string :=
  match member "scrollTrigger" (vars step) with
  | Some scrollTrigger =>
      match get "trigger" scrollTrigger with
      | Some (JString trigger) => Some trigger
      | _ => None
      end
  | None => None
  end.

(** A step refers to an element through its target or through its trigger. *)
Definition refersTo (elementId : string) (step : AnimationStep) : bool :=
  String.eqb (target step) (selector elementId)
  || match triggerOf step with
     | Some trigger => String.eqb trigger (selector elementId)
     | None => false
     end.

(** *** App: handleSendMessage *)

(** [Array.prototype.findIndex]; [None] is [-1]. *)
Fixpoint findIndex {A : Type} (p : A -> bool) (l : list A) : option nat :=
  match l with
  | [] => None
  | a :: l' => if p a then Some 0%nat else S <$> findIndex p l'
  end.

(** The body of the [forEach] over [modified_elements]. *)
Definition applyModification (newElements : list StageElement)
    (modification : ElementModification) : list StageElement :=
  match findIndex (fun e => String.eqb (id e) (mod_id modification)) newElements with
  | Some elementIndex =>
      alter (fun el => spread el (props modification)) elementIndex newElements
  | None => newElements
  end.

Definition applyModifications (modifications : list ElementModification)
    (prev : list StageElement) : list StageElement :=
  fold_left applyModification modifications prev.

(** Up to the [await]: the loading flag, the user's chat line, and the call
    of [sendMessageToAI] with the values of the current render.  The call
    throws before any request when the trimmed message is empty, and when
    [JSON.stringify] throws on the steps as the prompt is put together; the
    [await] is not inside the [try] block, so the handler then ends there,
    with the flag up. *)
Definition handleSendMessage_begin (message : string) (s : AppState) : AppState :=
  let s1 := setIsLoading (fun _ => true) s in
  let s2 := setChatHistory (fun prev => (prev ++ [mkMessage User message])%list) s1 in
  if negb (JS.truthy (trim message)) then s2
  else if negb (forallb serializableStep (animationSteps s)) then s2
  else
    setPendingRequests
      (fun pending =>
         (pending ++ [mkRequest message (elements s) (selectedElementId s)
                                (animationSteps s)])%list) s2.

(** After the [await]: the [try] block, then [finally].  With a response of
    the declared shape nothing in the block throws, so the [catch] clause
    is not entered. *)
Definition handleSendMessage_resume (aiResponse : AIResponse) (s : AppState) : AppState :=
  let s1 :=
    if JS.truthy (explanation aiResponse) then
      setChatHistory
        (fun prev => (prev ++ [mkMessage Model (explanation aiResponse)])%list) s
    else s in
  let s2 :=
    match new_elements aiResponse with
    | Some newElements =>
        if String.eqb (response_type aiResponse) "element_creation" then
          setElements (fun prev => (prev ++ newElements)%list) s1
        else s1
    | None => s1
    end in
  let s3 :=
    match modified_elements aiResponse with
    | Some modifications =>
        if String.eqb (response_type aiResponse) "element_modification" then
          setElements (applyModifications modifications) s2
        else s2
    | None => s2
    end in
  let s4 :=
    match animation_steps aiResponse with
    | Some steps =>
        if String.eqb (response_type aiResponse) "animation"
           && (0 <? length steps)%nat then
          setAnimationSteps (fun prev => (prev ++ steps)%list) s3
        else s3
    | None => s3
    end in
  setIsLoading (fun _ => false) s4.

(** The text of the chat line that the [catch] clause adds. *)
Definition applyFailedMessage : string :=
  "I'm sorry, something went wrong while applying the changes. This is likely due to a malformed response from the AI. Please check the console for details and try again.".

(** After the [await], for a response of the declared shape and for [null]
    ([None]): the service returns what [JSON.parse] gave, unchecked, and the
    text [null] parses.  On [null] the first read in the [try] block throws,
    so that the [catch] clause and then [finally] run.  No other value makes
    a read throw: a missing property reads as [undefined], which is falsy
    and equal to no type name, as the empty string is. *)
Definition handleSendMessage_settle (aiResponse : option AIResponse) (s : AppState)
    : AppState :=
  match aiResponse with
  | Some response => handleSendMessage_resume response s
  | None =>
      setIsLoading (fun _ => false)
        (setChatHistory
           (fun prev => (prev ++ [mkMessage Model applyFailedMessage])%list) s)
  end.

(** *** ChatInterface.handleSend *)

Definition handleSend (s : AppState) : AppState :=
  if JS.truthy (trim (input s)) && negb (isLoading s) then
    setInput (fun _ => "") (handleSendMessage_begin (input s) s)
  else s.

(** *** App: handleIdChange and the timeline handlers *)

(** The object [{ id: newId }]. *)
Definition idOnly (newId : string) : PartialStageElement :=
  {| p_id := Some newId; p_type := None; p_x := None; p_y := None;
     p_width := None; p_height := None; p_rotation := None; p_opacity := None;
     p_backgroundColor := None; p_color := None; p_text := None;
     p_fontSize := None; p_fontWeight := None; p_src := None;
     p_autoplay := None; p_loop := None; p_muted := None |}.

(** What the rename does to an id, and to the target of a step. *)
Definition renamed (oldId newId i : string) : string :=
  if String.eqb i oldId then newId else i.

Definition retarget (oldId newId : string) (step : AnimationStep) : AnimationStep :=
  {| target := if String.eqb (target step) (selector oldId)
               then selector newId else target step;
     vars := vars step;
     position := position step |}.

Definition handleIdChange (oldId newId : string) (s : AppState) : AppState :=
  if String.eqb oldId newId || negb (JS.truthy newId) then s
  else if existsb (fun el => String.eqb (id el) newId) (elements s) then s
  else
    let s1 :=
      setElements
        (fun prev =>
           List.map (fun el => if String.eqb (id el) oldId
                               then spread el (idOnly newId)
                               else el) prev) s in
    let s2 :=
      match selectedElementId s with
      | Some selected =>
          if String.eqb selected oldId then setSelectedElementId (fun _ => Some newId) s1
          else s1
      | None => s1
      end in
    setAnimationSteps (fun prev => List.map (retarget oldId newId) prev) s2.

Definition handleClearAnimation (s : AppState) : AppState :=
  setAnimationSteps (fun _ => []) s.

Definition handleApplyPreset (step : AnimationStep) (s : AppState) : AppState :=
  setAnimationSteps (fun prev => (prev ++ [step])%list) s.

(** The effect that depends on [theme]: [localStorage.setItem('theme', theme)]
    (it also sets the class of the document element). *)
Definition themeEffect (s : AppState) : AppState :=
  setLocalStorage (fun storage => <["theme" := theme s]> storage) s.

(** [toggleTheme], followed by that effect. *)
Definition toggleTheme (s : AppState) : AppState :=
  themeEffect
    (setTheme (fun prev => if String.eqb prev "dark" then "light" else "dark") s).

Definition greeting : string :=
  "Ready to animate? Tell me what to add or change. Try 'add a blue circle'.".

(** The state after the first render and its effects, for the content that
    [localStorage] had when the page was opened. *)
Definition initialState (storage : gmap string string) : AppState :=
  themeEffect
    {| elements := [];
       selectedElementId := None;
       animationSteps := [];
       isLoading := false;
       chatHistory := [mkMessage Model greeting];
       canvasSettings := mkCanvasSettings (1920 # 1) (1080 # 1) "#ffffff";
       theme := match storage !! "theme" with
                | Some stored => if JS.truthy stored then stored else "dark"
                | None => "dark"
                end;
       isLeftPanelCollapsed := false;
       isRightPanelCollapsed := false;
       isScrollPreview := false;
       input := "";
       dragItem := None;
       dragOverItem := None;
       localStorage := storage;
       pendingRequests := [] |}.

(** *** App: the timeline effect (lines 567-604)

    [tl.to(step.target, step.vars, step.position)] is given the [vars]
    object of the step in the state, and GSAP writes into the object it is
    given. *)

Section Timeline.

(** The members of [step.vars] after that call. *)
Variable tlTo : AnimationStep -> Vars.

Definition touched (step : AnimationStep) : AnimationStep :=
  {| target := target step; vars := tlTo step; position := position step |}.

(** The steps in the state after the effect has run.  A step of
    [timelineAnims] goes to [tl.to] as it is; for a step of [scrollAnims]
    [gsap.to] is given a fresh object, made by a spread.  The step objects
    of the list are taken to be distinct objects. *)
Definition timelineEffect (animationSteps : list AnimationStep)
    : list AnimationStep :=
  List.map (fun step => if usesScrollTrigger step then step else touched step)
    animationSteps.

End Timeline.

(** *** The application as a transition system

    One event is one run of a handler, the settling of the pending
    promise, or a run of the timeline effect; handlers run to completion
    and read the state of the latest render.  The timeline effect calls no
    setter, but the objects it writes into are the ones the state holds. *)

Inductive Event : Type :=
| AddElement (t : ElementType) (now : string)
| RemoveElement (elementId : string)
| UpdateElement (elementId : string) (newProps : PartialStageElement)
| SelectElement (selection : option string)
| DragStart (index : nat)
| DragEnter (index : nat)
| DragEnd
| IdChange (oldId newId : string)
| SetInput (value : string)
| Send
| Reply (aiResponse : option AIResponse)
| ClearAnimation
| ApplyPreset (step : AnimationStep)
| ToggleTheme
| SetCanvasSettings (settings : CanvasSettings)
| ToggleLeftPanel
| ToggleRightPanel
| SetScrollPreview (checked : bool)
| TimelineEffect (tlTo : AnimationStep -> Vars).

(** [None]: the event cannot happen in this state.  A row can be dragged
    only if it is rendered, the drop needs indices that still point into
    the list, and a reply needs a pending promise. *)
Definition dispatch (ev : Event) (s : AppState) : option AppState :=
  match ev with
  | AddElement t now => Some (addElement t now s)
  | RemoveElement elementId => Some (removeElement elementId s)
  | UpdateElement elementId newProps => Some (updateElement elementId newProps s)
  | SelectElement selection => Some (setSelectedElementId (fun _ => selection) s)
  | DragStart index =>
      if (index <? length (elements s))%nat
      then Some (setDragItem (fun _ => Some index) s) else None
  | DragEnter index =>
      if (index <? length (elements s))%nat
      then Some (setDragOverItem (fun _ => Some index) s) else None
  | DragEnd =>
      let '(item, over, newElements) :=
        handleSort (dragItem s) (dragOverItem s) (elements s) in
      match mapM (fun cell => cell) newElements with
      | Some sorted =>
          Some (setElements (fun _ => sorted)
                  (setDragOverItem (fun _ => over) (setDragItem (fun _ => item) s)))
      | None => None
      end
  | IdChange oldId newId => Some (handleIdChange oldId newId s)
  | SetInput value => Some (setInput (fun _ => value) s)
  | Send => Some (handleSend s)
  | Reply aiResponse =>
      match pendingRequests s with
      | [] => None
      | _ :: rest =>
          Some (handleSendMessage_settle aiResponse
                  (setPendingRequests (fun _ => rest) s))
      end
  | ClearAnimation => Some (handleClearAnimation s)
  | ApplyPreset step => Some (handleApplyPreset step s)
  | ToggleTheme => Some (toggleTheme s)
  | SetCanvasSettings settings => Some (setCanvasSettings (fun _ => settings) s)
  | ToggleLeftPanel => Some (setLeftPanelCollapsed negb s)
  | ToggleRightPanel => Some (setRightPanelCollapsed negb s)
  | SetScrollPreview checked => Some (setIsScrollPreview (fun _ => checked) s)
  | TimelineEffect tlTo => Some (setAnimationSteps (timelineEffect tlTo) s)
  end.

(** Running a sequence of events. *)
Fixpoint run (events : list Event) (s : AppState) : option AppState :=
  match events with
  | [] => Some s
  | ev :: rest =>
      match dispatch ev s with
      | Some s' => run rest s'
      | None => None
      end
  end.

(** The states the application can be in. *)
Inductive reachable (storage : gmap string string) : AppState -> Prop :=
| reachable_initial : reachable storage (initialState storage)
| reachable_dispatch (s s' : AppState) (ev : Event) :
    reachable storage s -> dispatch ev s = Some s' -> reachable storage s'.

End App.

(** * The earlier snapshots and the remaining components *)

(** ** services/geminiService.ts, two-argument version (src/unnamed/part_001) *)

Module GeminiServiceEarlier.
Import JS Json Types GeminiService.

Definition errorExplanation : string :=
  "Sorry, I encountered an error trying to process that. Maybe try phrasing it differently?".

(** The object literal returned by the [catch] clause. *)
Definition errorResponse (error : Thrown) : JSON :=
  JObject [ ("response_type", JString "error");
            ("explanation", JString errorExplanation);
            ("error_message", JString (messageOf error)) ].

Section Service.

Variable JSON_parse : string -> JSON + string.
Variable stringifyElements : list StageElement -> string.
Variable newChat : Chat.

Definition buildPrompt (message : string) (elements : list StageElement) : string :=
  "User message: " ++ DQUOTE ++ message ++ DQUOTE ++ LF ++ LF ++
  "Current elements on stage:" ++ LF ++ stringifyElements elements.

(** The [try] block once the promise has settled. *)
Definition tryBlock (reply : ChatReply) : JSON + Thrown :=
  match reply with
  | Rejected reason => inr reason
  | Resolved text =>
      let jsonText := trim text in
      if negb (startsWith jsonText "{") || negb (endsWith jsonText "}") then
        inr invalidJsonError
      else parse JSON_parse jsonText
  end.

Definition sendMessageToAI (chat : option Chat) (message : string)
    (elements : list StageElement) : option Chat * Completion JSON :=
  let session := sessionOf newChat chat in
  if negb (truthy (trim message)) then (Some session, Throws emptyMessageError)
  else
    let prompt := buildPrompt message elements in
    match tryBlock (sendMessage session prompt) with
    | inl parsedResponse => (Some session, Returns parsedResponse)
    | inr error => (Some session, Returns (errorResponse error))
    end.

End Service.

End GeminiServiceEarlier.

(** ** services/geminiService.ts, first version: generateAnimationSteps

    It goes with the first App (src/unnamed/part_003) and the first types
    (src/unnamed/part_005). *)

Module Generator.
Import JS Json.

(** [type: 'box' | 'circle'] *)
Inductive Shape : Type := box | circle.

Record StageElement : Type := mkStageElement {
  id : string;
  type : Shape;
  color : string;
  x : Q;
  y : Q;
  width : Q;
  height : Q
}.

(** How the promise of [ai.models.generateContent] settles.  A response
    without text makes [trim] throw, which ends in the same [catch] clause
    as a rejection. *)
Inductive ContentReply : Type :=
| Resolved (text : string)
| Rejected (reason : Thrown).

Definition emptyInstructionError : Thrown :=
  ErrorObject "Instruction cannot be empty.".
Definition noElementsError : Thrown :=
  ErrorObject "Please add at least one element to the stage.".
Definition notAnArrayError : Thrown :=
  ErrorObject "AI response is not a valid array.".
Definition generationFailedError : Thrown :=
  ErrorObject "Failed to generate animation from AI. Please check the console for details.".

Section Generate.

Variable JSON_parse : string -> JSON + string.

(** [JSON.stringify] on the list of [{ id, type }] objects. *)
Variable stringifyFormatted : list (string * Shape) -> string.

(** The model, as a function of the prompt. *)
Variable generateContent : string -> ContentReply.

Definition buildPrompt (instruction : string) (elements : list StageElement) : string :=
  let formattedElements := List.map (fun el => (id el, type el)) elements in
  LF ++
  "    You are an expert GSAP 3 animation code generator. Your task is to translate a user's natural language instruction into a sequence of GSAP timeline animations." ++
  LF ++ "    The user wants to animate elements on a stage." ++ LF ++
  "    " ++ LF ++ "    Available HTML elements on the stage:" ++ LF ++
  "    " ++ stringifyFormatted formattedElements ++ LF ++ LF ++
  "    User's animation instruction:" ++ LF ++ "    " ++ DQUOTE ++
  instruction ++ DQUOTE ++ LF ++ LF ++
  "    Based on the instruction, generate a valid JSON array of objects representing the GSAP timeline steps. Each object in the array must conform to the following schema." ++
  LF ++
  "    The 'target' property must be a valid CSS selector for an element from the list (e.g., '#element-id')." ++
  LF ++
  "    The 'vars' object should contain GSAP animation properties (e.g., x, y, rotation, scale, opacity, duration, ease)." ++
  LF ++
  "    The 'position' property is optional and specifies the position in the GSAP timeline (e.g., " ++
  DQUOTE ++ "+=0.5" ++ DQUOTE ++ ", " ++ DQUOTE ++ "-=1" ++ DQUOTE ++ ", " ++
  DQUOTE ++ "<" ++ DQUOTE ++ ", " ++ DQUOTE ++ ">" ++ DQUOTE ++ ")." ++ LF ++
  LF ++ "    Examples of common properties:" ++ LF ++
  "    - Movement: x, y (for pixels, e.g., x: 100 moves 100px right)" ++
  LF ++
  "    - Rotation: rotation (in degrees, e.g., rotation: 360 for a full spin)" ++
  LF ++ "    - Scaling: scale (e.g., scale: 1.5 makes it 50% larger)" ++
  LF ++ "    - Fading: opacity (e.g., opacity: 0 makes it invisible)" ++
  LF ++ "    - Duration: duration (in seconds, e.g., duration: 2)" ++ LF ++
  LF ++
  "    IMPORTANT: Do not include any explanations, comments, or any text outside of the JSON array. Your entire response must be only the JSON array." ++
  LF ++ "  ".

(** [Array.isArray] *)
Definition isArray (v : JSON) : bool :=
  match v with
  | JArray _ => true
  | _ => false
  end.

(** The [try] block: the value it returns, or what it throws into the
    [catch] clause. *)
Definition tryBlock (reply : ContentReply) : JSON + Thrown :=
  match reply with
  | Rejected reason => inr reason
  | Resolved text =>
      let jsonText := trim text in
      match JSON_parse jsonText with
      | inl parsedResponse =>
          if negb (isArray parsedResponse) then inr notAnArrayError
          else inl parsedResponse
      | inr syntaxError => inr (ErrorObject syntaxError)
      end
  end.

Definition generateAnimationSteps (instruction : string)
    (elements : list StageElement) : Completion JSON :=
  if negb (truthy (trim instruction)) then Throws emptyInstructionError
  else if (length elements =? 0)%nat then Throws noElementsError
  else
    match tryBlock (generateContent (buildPrompt instruction elements)) with
    | inl parsedResponse => Returns parsedResponse
    | inr _ => Throws generationFailedError
    end.

End Generate.

End Generator.

(** ** App.tsx, the snapshot with the two-argument service (src/App.tsx)

    Its state containers are among those of [App.AppState]; the handler is
    written over that record and touches only the containers the snapshot
    has. *)

Module AppEarlier.
Import JS Json Types App.

(** [prev.map(el => { const mod = mods.find(m => m.id === el.id);
    return mod ? { ...el, ...mod.props } : el; })] *)
Definition modifyElements (modifications : list ElementModification)
    (prev : list StageElement) : list StageElement :=
  List.map (fun el =>
              match List.find (fun m => String.eqb (mod_id m) (id el)) modifications with
              | Some modification => spread el (props modification)
              | None => el
              end) prev.

Section Timeline.

(** The members of [step.vars] after
    [tl.to(step.target, step.vars, step.position)]. *)
Variable tlTo : AnimationStep -> Vars.

(** After the [await].  The steps of an animation reply are stored and, in
    the same handler, each is handed to [tl.to], which writes into its
    [vars]: the stored steps are the objects that GSAP has written to. *)
Definition handleSendMessage_resume (aiResponse : AIResponse) (s : AppState) : AppState :=
  let s1 :=
    if JS.truthy (explanation aiResponse) then
      setChatHistory
        (fun prev => (prev ++ [mkMessage Model (explanation aiResponse)])%list) s
    else s in
  let s2 :=
    match new_elements aiResponse with
    | Some newElements =>
        if String.eqb (response_type aiResponse) "element_creation" then
          setElements (fun prev => (prev ++ newElements)%list) s1
        else s1
    | None => s1
    end in
  let s3 :=
    match modified_elements aiResponse with
    | Some modifications =>
        if String.eqb (response_type aiResponse) "element_modification" then
          setElements (modifyElements modifications) s2
        else s2
    | None => s2
    end in
  let s4 :=
    match animation_steps aiResponse with
    | Some steps =>
        if String.eqb (response_type aiResponse) "animation" then
          setAnimationSteps (fun _ => List.map (touched tlTo) steps) s3
        else setAnimationSteps (fun _ => []) s3
    | None => setAnimationSteps (fun _ => []) s3
    end in
  setIsLoading (fun _ => false) s4.

End Timeline.

End AppEarlier.

(** ** Stage: the effect that keeps one Draggable per element
    (src/unnamed/part_002, lines 263-288) *)

Module Stage.
Import JS Json Types.

(** A Draggable instance, known by the id of the element it was made for. *)
Record Draggable : Type := mkDraggable {
  madeFor : string
}.

(** [draggableInstances.current] starts as the object literal [{}], so a
    read finds, beside the instances stored in it, what every object
    inherits from [Object.prototype]; each of these is a function or an
    object. *)
Definition inheritedNames : list string :=
  [ "constructor"; "__defineGetter__"; "__defineSetter__"; "hasOwnProperty";
    "__lookupGetter__"; "__lookupSetter__"; "isPrototypeOf";
    "propertyIsEnumerable"; "toString"; "valueOf"; "__proto__";
    "toLocaleString" ].

Definition inherited (key : string) : bool :=
  existsb (String.eqb key) inheritedNames.

(** [draggableInstances.current[key]] used as a condition. *)
Definition readsTruthy (instances : gmap string Draggable) (key : string) : bool :=
  match instances !! key with
  | Some _ => true
  | None => inherited key
  end.

Section Effect.

(** [document.getElementById(id)] finds a node. *)
Variable inDocument : string -> bool.

(** The first [forEach]: an instance for every element that has a node and
    for whose id the object reads falsy. *)
Definition createMissing (elements : list StageElement)
    (instances : gmap string Draggable) : gmap string Draggable :=
  fold_left
    (fun acc el =>
       if inDocument (id el) && negb (readsTruthy acc (id el)) then
         <[id el := mkDraggable (id el)]> acc
       else acc)
    elements instances.

(** The second [forEach], over [Object.keys]: an instance whose id no
    element has is killed and deleted. *)
Definition killRemoved (elements : list StageElement)
    (instances : gmap string Draggable) : gmap string Draggable :=
  fold_left
    (fun acc key =>
       match List.find (fun el => String.eqb (id el) key) elements with
       | Some _ => acc
       | None => delete key acc
       end)
    (map_to_list instances).*1 instances.

Definition draggableEffect (elements : list StageElement)
    (instances : gmap string Draggable) : gmap string Draggable :=
  killRemoved elements (createMissing elements instances).

End Effect.

End Stage.

(** ** PresetsPanel and ExportPanel: what they render
    (src/unnamed/part_002, lines 60, 201-231 and 420-429) *)

Module Panels.
Import JS Json Types App.

(** [elements.find(e => e.id === selectedElementId)], the prop that [App]
    passes to [PresetsPanel]. *)
Definition selectedElementOf (s : AppState) : option StageElement :=
  match selectedElementId s with
  | Some selected => List.find (fun e => String.eqb (id e) selected) (elements s)
  | None => None
  end.

(** The presets that have a button: none without a selected element, the
    text presets only for a text element. *)
Definition offeredPresets (selectedElement : option StageElement)
    : list (string * AnimationStep) :=
  match selectedElement with
  | None => []
  | Some el =>
      (match type el with
       | Text => textPresets el
       | _ => []
       end ++ scrollPresets el)%list
  end.

Definition gsapScript : string :=
  "<script src=" ++ DQUOTE ++
  "https://cdnjs.cloudflare.com/ajax/libs/gsap/3.12.5/gsap.min.js" ++
  DQUOTE ++ "></script>".

Definition scrollTriggerScript : string :=
  "<script src=" ++ DQUOTE ++
  "https://cdnjs.cloudflare.com/ajax/libs/gsap/3.12.5/ScrollTrigger.min.js" ++
  DQUOTE ++ "></script>".

Definition textPluginScript : string :=
  "<script src=" ++ DQUOTE ++
  "https://cdnjs.cloudflare.com/ajax/libs/gsap/3.12.5/TextPlugin.min.js" ++
  DQUOTE ++ "></script>".

(** The [scripts] of [generateExportCode]. *)
Definition scripts (animationSteps : list AnimationStep) : string :=
  let hasScrollTrigger := existsb usesScrollTrigger animationSteps in
  let hasTextPlugin := existsb usesText animationSteps in
  join (LF ++ "  ")
    (filterBoolean [ Some gsapScript;
                     andName hasScrollTrigger scrollTriggerScript;
                     andName hasTextPlugin textPluginScript ]).

(** The plugins a list of steps needs, and the script that loads a plugin
    from the same release as the core. *)
Definition pluginsOf (animationSteps : list AnimationStep) : list string :=
  ((if existsb usesScrollTrigger animationSteps then ["ScrollTrigger"] else []) ++
   (if existsb usesText animationSteps then ["TextPlugin"] else []))%list.

Definition scriptOf (plugin : string) : string :=
  "<script src=" ++ DQUOTE ++
  "https://cdnjs.cloudflare.com/ajax/libs/gsap/3.12.5/" ++ plugin ++ ".min.js" ++
  DQUOTE ++ "></script>".

End Panels.

(** ** ElementManager.handleFileUpload
    (src/unnamed/part_002, lines 125-135) *)

Module Upload.
Import JS Json Types App.

(** The object [{ src: base64 }]. *)
Definition srcOnly (base64 : string) : PartialStageElement :=
  {| p_id := None; p_type := None; p_x := None; p_y := None;
     p_width := None; p_height := None; p_rotation := None; p_opacity := None;
     p_backgroundColor := None; p_color := None; p_text := None;
     p_fontSize := None; p_fontWeight := None; p_src := Some base64;
     p_autoplay := None; p_loop := None; p_muted := None |}.

(** Up to [readAsDataURL]: the id that the [onload] callback has captured,
    if a read is started.  [file] tells whether a file was chosen. *)
Definition handleFileUpload (file : bool) (s : AppState) : option string :=
  match selectedElementId s with
  | Some selected => if file && JS.truthy selected then Some selected else None
  | None => None
  end.

(** [reader.onload], with the result of the read. *)
Definition onload (selected base64 : string) (s : AppState) : AppState :=
  updateElement selected (srcOnly base64) s.

End Upload.

(** ** Well-formed stages and events *)

Module Invariants.
Import JS Json Types App.

(** The empty object [{}] as a partial element. *)
Definition noProps : PartialStageElement :=
  {| p_id := None; p_type := None; p_x := None; p_y := None;
     p_width := None; p_height := None; p_rotation := None; p_opacity := None;
     p_backgroundColor := None; p_color := None; p_text := None;
     p_fontSize := None; p_fontWeight := None; p_src := None;
     p_autoplay := None; p_loop := None; p_muted := None |}.

(** The ids on the stage are pairwise distinct and the selection, if any,
    is one of them. *)
Definition stageOk (s : AppState) : Prop :=
  NoDup (id <$> elements s) /\
  forall i, selectedElementId s = Some i -> i ∈ id <$> elements s.

(** What the user interface and a reply of the declared shape guarantee:
    a new element comes with an id that is not taken, the property panel
    and the modification entries never list an id, a click selects an
    element that is on the stage. *)
Definition wellFormed (s : AppState) (ev : Event) : Prop :=
  match ev with
  | AddElement t now => (typeName t ++ "-" ++ now)%string ∉ id <$> elements s
  | UpdateElement _ newProps => p_id newProps = None
  | SelectElement (Some i) => i ∈ id <$> elements s
  | Reply (Some aiResponse) =>
      (forall newElements,
         response_type aiResponse = "element_creation" ->
         new_elements aiResponse = Some newElements ->
         NoDup (id <$> (elements s ++ newElements)%list)) /\
      (forall modifications,
         response_type aiResponse = "element_modification" ->
         modified_elements aiResponse = Some modifications ->
         Forall (fun m => p_id (props m) = None) modifications)
  | _ => True
  end.

(** Running events that are well formed where they happen. *)
Fixpoint wellFormedRun (events : list Event) (s : AppState) : Prop :=
  match events with
  | [] => True
  | ev :: rest =>
      wellFormed s ev /\
      match dispatch ev s with
      | Some s' => wellFormedRun rest s'
      | None => True
      end
  end.

End Invariants.

(** ** Characters of a reply *)

Module Chars.

(** The character [c] occurs in [s]. *)
Fixpoint occurs (c : ascii) (s : string) : bool :=
  match s with
  | EmptyString => false
  | String d s' => Ascii.eqb c d || occurs c s'
  end.

(** The character of which the fences are made. *)
Definition backtick : ascii := "096"%char.

End Chars.

(** * Sample inputs

    Concrete values on which the properties below are exercised. *)

Module Samples.
Import JS Json Types.

(** A reply that is a JSON object of the wrong shape: [response_type] is a
    number and [explanation] is missing. *)
Definition mistypedText : string :=
  "{" ++ DQUOTE ++ "response_type" ++ DQUOTE ++ ":42}".

Definition mistypedValue : JSON := JObject [ ("response_type", JNumber (42 # 1)) ].

(** [JSON.parse] on the texts this file needs: the object above, with any
    white space around it. *)
Definition sampleParse (s : string) : JSON + string :=
  if String.eqb (trim s) mistypedText then inl mistypedValue
  else inr "Unexpected token".

Definition sampleStringifyElements (_ : list StageElement) : string := "[]".
Definition sampleStringifySteps (_ : list AnimationStep) : string := "[]".

Definition chatReplying (text : string) : GeminiService.Chat :=
  GeminiService.mkChat (fun _ => GeminiService.Resolved text).

Definition chatFailing (reason : Thrown) : GeminiService.Chat :=
  GeminiService.mkChat (fun _ => GeminiService.Rejected reason).

(** A box, and the state after adding it to the empty stage. *)
Definition box1 : StageElement := App.newElementOf Box "1".

Definition stateWithBox : App.AppState :=
  App.addElement Box "1" (App.initialState ∅).

Definition spinStep : AnimationStep :=
  {| target := "#box-1";
     vars := [ ("rotation", JNumber (360 # 1)); ("duration", JNumber (1 # 1)) ];
     position := None |}.

Definition fadeStep : AnimationStep :=
  {| target := "#box-1";
     vars := [ ("opacity", JNumber (0 # 1)) ];
     position := Some "+=0.5" |}.

(** The state after one animation step has been built. *)
Definition stateWithStep : App.AppState :=
  App.handleApplyPreset spinStep stateWithBox.

Definition animationReply : App.AIResponse :=
  {| App.response_type := "animation";
     App.explanation := "Fading the box out.";
     App.new_elements := None;
     App.modified_elements := None;
     App.animation_steps := Some [fadeStep];
     App.error_message := None |}.

Definition clarificationReply : App.AIResponse :=
  {| App.response_type := "clarification";
     App.explanation := "Which element do you mean?";
     App.new_elements := None;
     App.modified_elements := None;
     App.animation_steps := None;
     App.error_message := None |}.

(** A box and a circle on the stage. *)
Definition stateWithTwo : App.AppState := App.addElement Circle "2" stateWithBox.

(** The text element that [addElement] creates at time 1. *)
Definition text1 : StageElement := App.newElementOf Text "1".

(** A reply that moves and recolours the box and names an element that is
    not on the stage. *)
Definition moveBox : App.ElementModification :=
  {| App.mod_id := "box-1";
     App.props :=
       {| p_id := None; p_type := None; p_x := Some (200 # 1); p_y := None;
          p_width := None; p_height := None; p_rotation := None;
          p_opacity := None; p_backgroundColor := Some "#ff0000";
          p_color := None; p_text := None; p_fontSize := None;
          p_fontWeight := None; p_src := None; p_autoplay := None;
          p_loop := None; p_muted := None |} |}.

Definition hideGhost : App.ElementModification :=
  {| App.mod_id := "ghost";
     App.props :=
       {| p_id := None; p_type := None; p_x := None; p_y := None;
          p_width := None; p_height := None; p_rotation := None;
          p_opacity := Some (0 # 1); p_backgroundColor := None;
          p_color := None; p_text := None; p_fontSize := None;
          p_fontWeight := None; p_src := None; p_autoplay := None;
          p_loop := None; p_muted := None |} |}.

(** Entries of another kind: a second entry for the box, an entry that
    gives the box another id, and an entry for that id. *)
Definition moveBoxAgain : App.ElementModification :=
  {| App.mod_id := "box-1";
     App.props :=
       {| p_id := None; p_type := None; p_x := Some (7 # 1); p_y := None;
          p_width := None; p_height := None; p_rotation := None;
          p_opacity := None; p_backgroundColor := None;
          p_color := None; p_text := None; p_fontSize := None;
          p_fontWeight := None; p_src := None; p_autoplay := None;
          p_loop := None; p_muted := None |} |}.

Definition renameBox : App.ElementModification :=
  {| App.mod_id := "box-1"; App.props := App.idOnly "box-9" |}.

Definition moveRenamed : App.ElementModification :=
  {| App.mod_id := "box-9";
     App.props :=
       {| p_id := None; p_type := None; p_x := None; p_y := Some (999 # 1);
          p_width := None; p_height := None; p_rotation := None;
          p_opacity := None; p_backgroundColor := None;
          p_color := None; p_text := None; p_fontSize := None;
          p_fontWeight := None; p_src := None; p_autoplay := None;
          p_loop := None; p_muted := None |} |}.

Definition modificationOf (mods : list App.ElementModification) : App.AIResponse :=
  {| App.response_type := "element_modification";
     App.explanation := "Done.";
     App.new_elements := None;
     App.modified_elements := Some mods;
     App.animation_steps := None;
     App.error_message := None |}.

(** Two boxes added within one millisecond: they have one id. *)
Definition stateWithTwins : App.AppState := App.addElement Box "1" stateWithBox.

Definition modificationReply : App.AIResponse :=
  {| App.response_type := "element_modification";
     App.explanation := "Moved the box.";
     App.new_elements := None;
     App.modified_elements := Some [moveBox; hideGhost];
     App.animation_steps := None;
     App.error_message := None |}.

(** Stand-ins for [JSON.stringify] and for the key-unquoting [replace] on
    the steps of this module. *)
Definition sampleStringify (_ : JSON) : string := "{...}".
Definition sampleUnquoteKeys (s : string) : string := s.

(** A step that fades the box in on scroll. *)
Definition scrollStep : AnimationStep := App.fadeInOnScroll box1.

(** The user has typed a request and sent it; the reply is pending. *)
Definition sendEvents : list App.Event :=
  [ App.AddElement Box "1"; App.SetInput "make the box spin"; App.Send ].

Definition stateAfterSend : App.AppState :=
  App.handleSend (App.setInput (fun _ => "make the box spin") stateWithBox).

(** The theme is switched while a box is on the stage. *)
Definition themeEvents : list App.Event :=
  [ App.AddElement Box "1"; App.ToggleTheme ].

Definition stateAfterToggle : App.AppState := App.toggleTheme stateWithBox.

(** [object[key] = value] on the members of an object. *)
Fixpoint setMember (key : string) (value : JSON) (members : list (string * JSON))
    : list (string * JSON) :=
  match members with
  | [] => [ (key, value) ]
  | (k, v) :: rest =>
      if String.eqb k key then (k, value) :: rest
      else (k, v) :: setMember key value rest
  end.

(** A stand-in for what [tl.to] leaves in the [vars] it is given: the
    timeline under [parent] (the defaults that GSAP also writes are left
    out). *)
Definition sampleTlTo (step : AnimationStep) : Vars :=
  setMember "parent" JCyclic (vars step).

End Samples.

(** * What GSAP leaves in the steps *)

Module TimelineFacts.
Import JS Json Types App.

Lemma serializable_member (key : string) (value : JSON)
    (members : list (string * JSON)) :
  member key members = Some value -> serializable value = false ->
  serializable (JObject members) = false.
Proof.
  intros Hmember Hvalue. cbn [serializable].
  induction members as [|[k v] members IH]; [discriminate|].
  cbn [member] in Hmember. cbn [forallb snd].
  destruct (String.eqb k key).
  - injection Hmember as ->. now rewrite Hvalue.
  - rewrite IH by assumption. apply andb_false_r.
Qed.

Lemma setMember_member (key : string) (value : JSON)
    (members : list (string * JSON)) :
  member key (Samples.setMember key value members) = Some value.
Proof.
  induction members as [|[k v] members IH]; cbn [Samples.setMember member].
  - now rewrite String.eqb_refl.
  - destruct (String.eqb k key) eqn:Hk; cbn [member]; now rewrite Hk.
Qed.

(** The stand-in stores the timeline under [parent], as GSAP does. *)
Lemma sampleTlTo_parent (step : AnimationStep) :
  member "parent" (Samples.sampleTlTo step) = Some JCyclic.
Proof. apply setMember_member. Qed.

Section Gsap.

Variable tlTo : AnimationStep -> Vars.

(** [tl.to] stores the timeline under [parent] in the [vars] it is given. *)
Hypothesis tlTo_parent : forall step, member "parent" (tlTo step) = Some JCyclic.

Lemma touched_not_serializable (step : AnimationStep) :
  serializableStep (touched tlTo step) = false.
Proof.
  unfold serializableStep. cbn [vars touched].
  now apply (serializable_member "parent" JCyclic).
Qed.

(** Once the effect has run on a list with a step for the timeline,
    [JSON.stringify] throws on the list. *)
Lemma timelineEffect_not_serializable (steps : list AnimationStep) :
  timelineAnims steps <> [] ->
  forallb serializableStep (timelineEffect tlTo steps) = false.
Proof.
  unfold timelineAnims, timelineEffect.
  induction steps as [|step steps IH]; [now intros Hnone|].
  cbn [List.filter List.map forallb].
  destruct (usesScrollTrigger step); cbn [negb].
  - intros Hsome. rewrite IH by assumption. apply andb_false_r.
  - intros _. now rewrite touched_not_serializable.
Qed.

(** What the effect does not change: the targets, the positions, and the
    steps that have a scroll trigger. *)
Lemma timelineEffect_frame (steps : list AnimationStep) :
  target <$> timelineEffect tlTo steps = target <$> steps /\
  position <$> timelineEffect tlTo steps = position <$> steps /\
  (forall i step, steps !! i = Some step -> usesScrollTrigger step = true ->
     timelineEffect tlTo steps !! i = Some step).
Proof.
  unfold timelineEffect. change (List.map ?f steps) with (f <$> steps).
  split; [|split].
  - rewrite <- list_fmap_compose. apply list_fmap_ext.
    intros i step _. cbn. now destruct (usesScrollTrigger step).
  - rewrite <- list_fmap_compose. apply list_fmap_ext.
    intros i step _. cbn. now destruct (usesScrollTrigger step).
  - intros i step Hstep Hscroll. now rewrite list_lookup_fmap, Hstep; cbn; rewrite Hscroll.
Qed.

End Gsap.

End TimelineFacts.

(** * Properties of the service *)

Module ServiceProps.
Import JS Json Types GeminiService.

(** ** Facts about trimming *)

Lemma trimEnd_head_kept (c : ascii) (s : string) :
  isWhiteSpace c = false -> exists t, trimEnd (String c s) = String c t.
Proof.
  intros Hc. simpl. destruct (trimEnd s) as [|d t].
  - rewrite Hc. now exists EmptyString.
  - now exists (String d t).
Qed.

Lemma trimStart_head (s : string) :
  trimStart s = EmptyString \/
  exists c t, trimStart s = String c t /\ isWhiteSpace c = false.
Proof.
  induction s as [|c s IH]; simpl.
  - now left.
  - destruct (isWhiteSpace c) eqn:Hc; [exact IH|].
    right. now exists c, s.
Qed.

Lemma trimStart_fixed (c : ascii) (t : string) :
  isWhiteSpace c = false -> trimStart (String c t) = String c t.
Proof. intros Hc. simpl. now rewrite Hc. Qed.

Lemma trimEnd_idempotent (s : string) : trimEnd (trimEnd s) = trimEnd s.
Proof.
  induction s as [|c s IH]; simpl; [reflexivity|].
  destruct (trimEnd s) as [|d t] eqn:Hs.
  - destruct (isWhiteSpace c) eqn:Hc; simpl; [reflexivity|now rewrite Hc].
  - simpl. simpl in IH. now rewrite IH.
Qed.

Lemma trim_idempotent (s : string) : trim (trim s) = trim s.
Proof.
  unfold trim.
  destruct (trimStart_head s) as [Hs | (c & t & Hs & Hc)]; rewrite Hs.
  - reflexivity.
  - destruct (trimEnd_head_kept c t Hc) as [t' Ht'].
    rewrite Ht'. rewrite (trimStart_fixed c t' Hc).
    rewrite <- Ht'. apply trimEnd_idempotent.
Qed.

Section Service.

Variable JSON_parse : string -> JSON + string.
Variable stringifyElements : list StageElement -> string.
Variable stringifySteps : list AnimationStep -> string.
Variable newChat : Chat.

#[local] Abbreviation send :=
  (sendMessageToAI JSON_parse stringifyElements stringifySteps newChat).
#[local] Abbreviation tryBlock := (GeminiService.tryBlock JSON_parse).
#[local] Abbreviation prompt := (buildPrompt stringifyElements stringifySteps).
#[local] Abbreviation sessionOf := (GeminiService.sessionOf newChat).

Lemma send_blank chat message elements selected steps :
  trim message = EmptyString ->
  snd (send chat message elements selected steps) = Throws emptyMessageError.
Proof.
  intros Hblank. unfold sendMessageToAI. rewrite Hblank. reflexivity.
Qed.

(** The prompt is put together if and only if the steps can be
    stringified. *)
Lemma prompt_cases message elements selected steps :
  (forallb serializableStep steps = true /\
   exists promptText, prompt message elements selected steps = inl promptText) \/
  (forallb serializableStep steps = false /\
   prompt message elements selected steps = inr circularStructureError).
Proof.
  unfold buildPrompt, stringifyAnimationSteps.
  destruct (forallb serializableStep steps); [left|right]; split; eauto.
Qed.

Lemma send_prompt_throws chat message elements selected steps error :
  trim message <> EmptyString ->
  prompt message elements selected steps = inr error ->
  snd (send chat message elements selected steps) = Throws error.
Proof.
  intros Hmsg Hprompt. unfold sendMessageToAI.
  destruct (trim message) eqn:Ht; [congruence|].
  cbn [truthy String.eqb negb]. now rewrite Hprompt.
Qed.

Lemma send_not_blank chat message elements selected steps promptText :
  trim message <> EmptyString ->
  prompt message elements selected steps = inl promptText ->
  snd (send chat message elements selected steps) =
  Returns match tryBlock (sendMessage (sessionOf chat) promptText) with
          | inl parsedResponse => parsedResponse
          | inr error => errorResponse error
          end.
Proof.
  intros Hmsg Hprompt. unfold sendMessageToAI.
  destruct (trim message) eqn:Ht; [congruence|].
  cbn [truthy String.eqb negb]. rewrite Hprompt.
  now destruct (GeminiService.tryBlock _ _).
Qed.

(** A brace-delimited reply goes to [JSON.parse] as it is. *)
Lemma tryBlock_braces (text : string) :
  startsWith (trim text) "{" = true -> endsWith (trim text) "}" = true ->
  tryBlock (Resolved text) = parse JSON_parse (trim text).
Proof.
  intros Hs He. unfold GeminiService.tryBlock. now rewrite Hs, He.
Qed.

(** X20. When the prompt can be put together, [sendMessageToAI] returns:
    whatever the [try] block throws (a rejected request, a [SyntaxError] of
    [JSON.parse], a reply that is not JSON) comes back as the response
    whose [response_type] is [error], whose explanation is the fixed
    apology, and whose [error_message] is the message of the error, or the
    fixed unknown-error text when the thrown value is not an [Error].  It
    throws in two cases only: on a message whose trimmed text is empty,
    and when [JSON.stringify] throws on the steps, which happens before
    the [try] block is entered. *)
Theorem sendMessageToAI_catches_what_the_try_block_throws
    (chat : option Chat) (message : string) (elements : list StageElement)
    (selected : option string) (steps : list AnimationStep) :
  let result := snd (send chat message elements selected steps) in
  (trim message = EmptyString -> result = Throws emptyMessageError) /\
  (trim message <> EmptyString -> forallb serializableStep steps = false ->
     result = Throws circularStructureError) /\
  (trim message <> EmptyString -> forallb serializableStep steps = true ->
     exists promptText,
       prompt message elements selected steps = inl promptText /\
       let reply := sendMessage (sessionOf chat) promptText in
       (exists response, result = Returns response) /\
       (forall error, tryBlock reply = inr error ->
          result =
          Returns (JObject
            [ ("response_type", JString "error");
              ("explanation", JString errorExplanation);
              ("error_message",
               JString match error with
                       | ErrorObject failureMessage => failureMessage
                       | NonError => unknownErrorMessage
                       end) ])) /\
       (forall reason, reply = Rejected reason -> tryBlock reply = inr reason) /\
       (forall text syntaxError,
          reply = Resolved text ->
          startsWith (trim text) "{" = true -> endsWith (trim text) "}" = true ->
          JSON_parse (trim text) = inr syntaxError ->
          tryBlock reply = inr (ErrorObject syntaxError)) /\
       (forall text group1 syntaxError,
          reply = Resolved text ->
          startsWith (trim text) "{" && endsWith (trim text) "}" = false ->
          matchJsonFence (trim text) = Some group1 -> group1 <> EmptyString ->
          JSON_parse (trim group1) = inr syntaxError ->
          tryBlock reply = inr (ErrorObject syntaxError)) /\
       (forall text,
          reply = Resolved text ->
          startsWith (trim text) "{" && endsWith (trim text) "}" = false ->
          matchJsonFence (trim text) = None ->
          tryBlock reply = inr invalidJsonError)).
Proof.
  intros result. split; [|split].
  - intros Hblank. now apply send_blank.
  - intros Hmsg Hsteps.
    destruct (prompt_cases message elements selected steps)
      as [[Hcan _] | [_ Hthrows]]; [congruence|].
    now apply send_prompt_throws.
  - intros Hmsg Hsteps.
    destruct (prompt_cases message elements selected steps)
      as [[_ [promptText Hprompt]] | [Hcannot _]]; [|congruence].
    exists promptText. split; [exact Hprompt|]. intros reply.
    assert (Hres := send_not_blank chat message elements selected steps
                      promptText Hmsg Hprompt).
    fold reply in Hres. fold result in Hres.
    split; [|split; [|split; [|split; [|split]]]].
    + rewrite Hres. eauto.
    + intros error Herr. rewrite Hres, Herr. now destruct error.
    + intros reason ->. reflexivity.
    + intros text syntaxError -> Hs He Hparse.
      rewrite tryBlock_braces by assumption.
      unfold parse. now rewrite Hparse.
    + intros text group1 syntaxError -> Hbr Hfence Hne Hparse.
      unfold GeminiService.tryBlock.
      rewrite <- negb_andb, Hbr. simpl. rewrite Hfence.
      destruct group1; [congruence|]. simpl.
      unfold parse. now rewrite Hparse.
    + intros text -> Hbr Hfence.
      unfold GeminiService.tryBlock.
      rewrite <- negb_andb, Hbr. simpl. now rewrite Hfence.
Qed.

Section Gsap.

Variable tlTo : AnimationStep -> Vars.

(** [tl.to] stores the timeline under [parent] in the [vars] it is given. *)
Hypothesis tlTo_parent : forall step, member "parent" (tlTo step) = Some JCyclic.

(** C9. [sendMessageToAI] throws for a message that is not blank: once the
    timeline effect has run on a list with a step for the timeline, the
    steps that [handleSendMessage] passes make [JSON.stringify] throw
    while the prompt is put together, before the [try] block, and the
    [TypeError] leaves the function. *)
Theorem sendMessageToAI_throws_after_timeline_effect
    (chat : option Chat) (message : string) (elements : list StageElement)
    (selected : option string) (steps : list AnimationStep) :
  trim message <> EmptyString ->
  App.timelineAnims steps <> [] ->
  snd (send chat message elements selected (App.timelineEffect tlTo steps))
  = Throws circularStructureError.
Proof.
  intros Hmsg Hsteps.
  destruct (prompt_cases message elements selected (App.timelineEffect tlTo steps))
    as [[Hcan _] | [_ Hthrows]].
  - now rewrite (TimelineFacts.timelineEffect_not_serializable tlTo tlTo_parent)
      in Hcan.
  - now apply send_prompt_throws.
Qed.

End Gsap.

Section ParserFacts.

(** Two facts of the JSON grammar: the text of an object starts and ends
    with a brace once the white space around it is removed, and removing
    that white space does not change what the text parses to. *)
Hypothesis JSON_parse_object_braces :
  forall s members, JSON_parse s = inl (JObject members) ->
    startsWith (trim s) "{" = true /\ endsWith (trim s) "}" = true.
Hypothesis JSON_parse_trim :
  forall s v, JSON_parse s = inl v -> JSON_parse (trim s) = inl v.

(** C3. No validation against the response schema: when the reply to the
    prompt is a text that parses as a JSON object, that object is what
    [sendMessageToAI] returns, whatever its members are. *)
Theorem sendMessageToAI_returns_parsed_object
    (chat : option Chat) (message : string) (elements : list StageElement)
    (selected : option string) (steps : list AnimationStep)
    (promptText text : string) (members : list (string * JSON)) :
  trim message <> EmptyString ->
  prompt message elements selected steps = inl promptText ->
  sendMessage (sessionOf chat) promptText = Resolved text ->
  JSON_parse text = inl (JObject members) ->
  snd (send chat message elements selected steps) = Returns (JObject members).
Proof.
  intros Hmsg Hprompt Hreply Hparse.
  rewrite (send_not_blank _ _ _ _ _ promptText) by assumption. rewrite Hreply.
  destruct (JSON_parse_object_braces _ _ Hparse) as [Hs He].
  rewrite tryBlock_braces by assumption.
  unfold parse. now rewrite (JSON_parse_trim _ _ Hparse).
Qed.

End ParserFacts.

End Service.

(** The sample parser has the two grammar facts. *)
Lemma sampleParse_object_braces (s : string) (members : list (string * JSON)) :
  Samples.sampleParse s = inl (JObject members) ->
  startsWith (trim s) "{" = true /\ endsWith (trim s) "}" = true.
Proof.
  unfold Samples.sampleParse.
  destruct (String.eqb (trim s) Samples.mistypedText) eqn:Heq; [|discriminate].
  apply String.eqb_eq in Heq. rewrite Heq. intros _. now vm_compute.
Qed.

Lemma sampleParse_trim (s : string) (v : JSON) :
  Samples.sampleParse s = inl v -> Samples.sampleParse (trim s) = inl v.
Proof. unfold Samples.sampleParse. now rewrite trim_idempotent. Qed.

(** A reply with white space around an object of the wrong shape is handed
    back as it was parsed. *)
Lemma sendMessageToAI_returns_parsed_object_witness :
  let text := "  " ++ Samples.mistypedText ++ LF in
  trim "make it spin" <> EmptyString /\
  Samples.sampleParse text = inl Samples.mistypedValue /\
  snd (sendMessageToAI Samples.sampleParse Samples.sampleStringifyElements
         Samples.sampleStringifySteps (Samples.chatReplying text)
         None "make it spin" [] None [])
  = Returns Samples.mistypedValue.
Proof.
  intros text.
  split; [now vm_compute|]. split; [reflexivity|].
  destruct (prompt_cases Samples.sampleStringifyElements
              Samples.sampleStringifySteps "make it spin" [] None [])
    as [[_ [promptText Hprompt]] | [Hcannot _]]; [|discriminate Hcannot].
  apply (sendMessageToAI_returns_parsed_object
           Samples.sampleParse Samples.sampleStringifyElements
           Samples.sampleStringifySteps (Samples.chatReplying text)
           sampleParse_object_braces sampleParse_trim
           None "make it spin" [] None [] promptText text
           [ ("response_type", JNumber (42 # 1)) ]).
  - now vm_compute.
  - exact Hprompt.
  - reflexivity.
  - reflexivity.
Defined.

(** A blank message throws; a rejected request and a reply that is not JSON
    come back as error responses; a step that GSAP has written to makes
    the call throw. *)
Lemma sendMessageToAI_catches_what_the_try_block_throws_witness :
  snd (sendMessageToAI Samples.sampleParse Samples.sampleStringifyElements
         Samples.sampleStringifySteps (Samples.chatReplying "{}")
         None "   " [] None [])
  = Throws emptyMessageError /\
  snd (sendMessageToAI Samples.sampleParse Samples.sampleStringifyElements
         Samples.sampleStringifySteps
         (Samples.chatFailing (ErrorObject "Failed to fetch"))
         None "make it spin" [] None [Samples.spinStep])
  = Returns (errorResponse (ErrorObject "Failed to fetch")) /\
  snd (sendMessageToAI Samples.sampleParse Samples.sampleStringifyElements
         Samples.sampleStringifySteps (Samples.chatFailing NonError)
         None "make it spin" [] None [])
  = Returns (errorResponse NonError) /\
  snd (sendMessageToAI Samples.sampleParse Samples.sampleStringifyElements
         Samples.sampleStringifySteps (Samples.chatReplying "{oops}")
         None "make it spin" [] None [])
  = Returns (errorResponse (ErrorObject "Unexpected token")) /\
  snd (sendMessageToAI Samples.sampleParse Samples.sampleStringifyElements
         Samples.sampleStringifySteps (Samples.chatReplying "{}")
         None "make it spin" [] None [App.touched Samples.sampleTlTo Samples.spinStep])
  = Throws circularStructureError.
Proof.
  split; [|split; [|split; [|split]]].
  - destruct (sendMessageToAI_catches_what_the_try_block_throws
                Samples.sampleParse Samples.sampleStringifyElements
                Samples.sampleStringifySteps (Samples.chatReplying "{}")
                None "   " [] None []) as [Hblank _].
    apply Hblank. reflexivity.
  - destruct (sendMessageToAI_catches_what_the_try_block_throws
                Samples.sampleParse Samples.sampleStringifyElements
                Samples.sampleStringifySteps
                (Samples.chatFailing (ErrorObject "Failed to fetch"))
                None "make it spin" [] None [Samples.spinStep]) as (_ & _ & Hrest).
    destruct Hrest as (promptText & _ & _ & Hcaught & _);
      [now vm_compute|reflexivity|].
    exact (Hcaught (ErrorObject "Failed to fetch") eq_refl).
  - destruct (sendMessageToAI_catches_what_the_try_block_throws
                Samples.sampleParse Samples.sampleStringifyElements
                Samples.sampleStringifySteps (Samples.chatFailing NonError)
                None "make it spin" [] None []) as (_ & _ & Hrest).
    destruct Hrest as (promptText & _ & _ & Hcaught & _);
      [now vm_compute|reflexivity|].
    exact (Hcaught NonError eq_refl).
  - destruct (sendMessageToAI_catches_what_the_try_block_throws
                Samples.sampleParse Samples.sampleStringifyElements
                Samples.sampleStringifySteps (Samples.chatReplying "{oops}")
                None "make it spin" [] None []) as (_ & _ & Hrest).
    destruct Hrest as (promptText & _ & _ & Hcaught & _);
      [now vm_compute|reflexivity|].
    exact (Hcaught (ErrorObject "Unexpected token") eq_refl).
  - destruct (sendMessageToAI_catches_what_the_try_block_throws
                Samples.sampleParse Samples.sampleStringifyElements
                Samples.sampleStringifySteps (Samples.chatReplying "{}")
                None "make it spin" [] None
                [App.touched Samples.sampleTlTo Samples.spinStep])
      as (_ & Hthrows & _).
    apply Hthrows; [now vm_compute|reflexivity].
Defined.

(** The second message of a session: the first reply has put a step on
    the timeline, the effect has run, and the call throws. *)
Lemma sendMessageToAI_throws_after_timeline_effect_witness :
  trim "now fade it out" <> EmptyString /\
  App.timelineAnims [Samples.spinStep] <> [] /\
  snd (sendMessageToAI Samples.sampleParse Samples.sampleStringifyElements
         Samples.sampleStringifySteps (Samples.chatReplying "{}")
         None "now fade it out" [Samples.box1] (Some "box-1")
         (App.timelineEffect Samples.sampleTlTo [Samples.spinStep]))
  = Throws circularStructureError.
Proof.
  assert (Hmessage : trim "now fade it out" <> EmptyString) by discriminate.
  assert (Hsteps : App.timelineAnims [Samples.spinStep] <> []) by discriminate.
  split; [exact Hmessage|]. split; [exact Hsteps|].
  exact (sendMessageToAI_throws_after_timeline_effect
           Samples.sampleParse Samples.sampleStringifyElements
           Samples.sampleStringifySteps (Samples.chatReplying "{}")
           Samples.sampleTlTo TimelineFacts.sampleTlTo_parent
           None "now fade it out" [Samples.box1] (Some "box-1")
           [Samples.spinStep] Hmessage Hsteps).
Defined.

End ServiceProps.

(** * Properties of the application *)

Module AppProps.
Import JS Json Types App.
Local Open Scope list_scope.

(** Unfolds the handlers, but not the setters they are made of. *)
Ltac handlers :=
  unfold handleSend, handleSendMessage_begin, handleSendMessage_settle,
    handleSendMessage_resume,
    handleIdChange, handleClearAnimation, handleApplyPreset, toggleTheme,
    themeEffect, addElement, removeElement, updateElement.

(** Splits on the conditions a handler tests. *)
Ltac branches :=
  repeat match goal with
         | |- context [match ?c with _ => _ end] => destruct c eqn:?
         end.

(** ** handleSendMessage and the animation steps *)

Lemma resume_animationSteps (aiResponse : AIResponse) (s : AppState) :
  animationSteps (handleSendMessage_resume aiResponse s) =
  match animation_steps aiResponse with
  | Some steps =>
      if String.eqb (response_type aiResponse) "animation" && (0 <? length steps)%nat
      then (animationSteps s ++ steps)%list
      else animationSteps s
  | None => animationSteps s
  end.
Proof. handlers. branches; reflexivity. Qed.

(** C1. A response of type [animation] with a non-empty [animation_steps]
    array appends its steps after the steps already built, which keep their
    order; a response of any other type leaves the list as it was.  The part
    of the handler that runs before the request does not touch the list. *)
Theorem handleSendMessage_appends_animation_steps
    (s : AppState) (aiResponse : AIResponse) :
  (forall steps,
     response_type aiResponse = "animation" ->
     animation_steps aiResponse = Some steps -> steps <> [] ->
     animationSteps (handleSendMessage_resume aiResponse s)
     = (animationSteps s ++ steps)%list) /\
  (response_type aiResponse <> "animation" ->
     animationSteps (handleSendMessage_resume aiResponse s) = animationSteps s) /\
  (forall message,
     animationSteps (handleSendMessage_begin message s) = animationSteps s).
Proof.
  split; [|split].
  - intros steps Htype Hsteps Hne. rewrite resume_animationSteps, Hsteps, Htype.
    destruct steps; [congruence|]. reflexivity.
  - intros Htype. rewrite resume_animationSteps.
    apply String.eqb_neq in Htype. rewrite Htype.
    now destruct (animation_steps aiResponse).
  - intros message. handlers. branches; reflexivity.
Qed.

(** One step is built; an animation reply adds its step behind it, a
    clarification changes nothing. *)
Lemma handleSendMessage_appends_animation_steps_witness :
  animationSteps (handleSendMessage_resume Samples.animationReply Samples.stateWithStep)
  = [Samples.spinStep; Samples.fadeStep] /\
  animationSteps (handleSendMessage_resume Samples.clarificationReply Samples.stateWithStep)
  = [Samples.spinStep].
Proof.
  split.
  - apply (handleSendMessage_appends_animation_steps
             Samples.stateWithStep Samples.animationReply).
    + reflexivity.
    + reflexivity.
    + discriminate.
  - apply (handleSendMessage_appends_animation_steps
             Samples.stateWithStep Samples.clarificationReply).
    discriminate.
Defined.

(** ** handleIdChange *)

Lemma handleIdChange_guarded (oldId newId : string) (s : AppState) :
  newId = EmptyString \/ newId = oldId \/
  (exists el, el ∈ elements s /\ id el = newId) ->
  handleIdChange oldId newId s = s.
Proof.
  intros [-> | [-> | (el & Hin & Hid)]]; unfold handleIdChange.
  - now rewrite orb_true_r.
  - now rewrite String.eqb_refl.
  - destruct (String.eqb oldId newId || negb (JS.truthy newId)); [reflexivity|].
    assert (existsb (fun e => String.eqb (id e) newId) (elements s) = true) as ->.
    { apply existsb_exists. exists el. split; [now apply list_elem_of_In|].
      now apply String.eqb_eq. }
    reflexivity.
Qed.

(** Either the guards stop the rename, or the new id is fresh and every id
    is mapped through [renamed], position by position. *)
Lemma handleIdChange_ids (oldId newId : string) (s : AppState) :
  handleIdChange oldId newId s = s \/
  (newId ∉ id <$> elements s) /\
  id <$> elements (handleIdChange oldId newId s) =
  renamed oldId newId <$> (id <$> elements s).
Proof.
  unfold handleIdChange.
  destruct (String.eqb oldId newId || negb (JS.truthy newId)); [now left|].
  destruct (existsb _ (elements s)) eqn:Hex; [now left|].
  right. split.
  - intros Hin. apply list_elem_of_fmap in Hin as (el & Hid & Hin).
    assert (existsb (fun e => String.eqb (id e) newId) (elements s) = true);
      [|congruence].
    apply existsb_exists. exists el. split; [now apply list_elem_of_In|].
    now apply String.eqb_eq.
  - transitivity
      (id <$> ((fun el => if String.eqb (id el) oldId
                          then spread el (idOnly newId) else el) <$> elements s)).
    { destruct (selectedElementId s) as [selected|];
        [destruct (String.eqb selected oldId)|]; reflexivity. }
    rewrite <- !list_fmap_compose. apply list_fmap_ext. intros _ el _.
    unfold renamed. simpl. now destruct (String.eqb (id el) oldId).
Qed.

Lemma NoDup_renamed (oldId newId : string) (ids : list string) :
  NoDup ids -> newId ∉ ids -> NoDup (renamed oldId newId <$> ids).
Proof.
  induction ids as [|a ids IH]; intros Hnd Hfresh; simpl; [constructor|].
  apply NoDup_cons in Hnd as [Ha Hnd].
  apply not_elem_of_cons in Hfresh as [Hne Hfresh].
  apply NoDup_cons. split; [|now apply IH].
  intros Hin. apply list_elem_of_fmap in Hin as (b & Hb & Hin).
  unfold renamed in Hb.
  destruct (String.eqb b oldId) eqn:Hbo, (String.eqb a oldId) eqn:Hao;
    try apply String.eqb_eq in Hbo; try apply String.eqb_eq in Hao; subst;
    contradiction.
Qed.

(** C10. [handleIdChange] does nothing when the new id is empty, equal to
    the old one, or taken by an element: the whole state, and so the
    elements, the selection and the animation steps, stays as it was.  Hence
    a rename keeps distinct ids distinct. *)
Theorem handleIdChange_guards (oldId newId : string) (s : AppState) :
  (newId = EmptyString \/ newId = oldId \/
   (exists el, el ∈ elements s /\ id el = newId) ->
   handleIdChange oldId newId s = s /\
   elements (handleIdChange oldId newId s) = elements s /\
   selectedElementId (handleIdChange oldId newId s) = selectedElementId s /\
   animationSteps (handleIdChange oldId newId s) = animationSteps s) /\
  (NoDup (id <$> elements s) ->
   NoDup (id <$> elements (handleIdChange oldId newId s))).
Proof.
  split.
  - intros Hguard. now rewrite (handleIdChange_guarded oldId newId s Hguard).
  - intros Hnd.
    destruct (handleIdChange_ids oldId newId s) as [-> | [Hfresh ->]].
    + assumption.
    + now apply NoDup_renamed.
Qed.

(** A taken id and an empty id are refused, and a rename keeps the ids of
    the box and the circle distinct. *)
Lemma handleIdChange_guards_witness :
  handleIdChange "box-1" "circle-2" Samples.stateWithTwo = Samples.stateWithTwo /\
  handleIdChange "box-1" "" Samples.stateWithTwo = Samples.stateWithTwo /\
  NoDup (id <$> elements (handleIdChange "box-1" "hero" Samples.stateWithTwo)).
Proof.
  split; [|split].
  - apply (handleIdChange_guards "box-1" "circle-2" Samples.stateWithTwo).
    right. right. exists (newElementOf Circle "2"). split; [|reflexivity].
    apply list_elem_of_In. simpl. auto.
  - apply (handleIdChange_guards "box-1" "" Samples.stateWithTwo).
    now left.
  - apply (handleIdChange_guards "box-1" "hero" Samples.stateWithTwo).
    apply (bool_decide_unpack _). now vm_compute.
Defined.

(** The spread [{ ...el, ...newProps }] overwrites exactly the properties
    that [newProps] lists and keeps the others. *)
Lemma spread_property (name : PropertyName) (el : StageElement)
    (newProps : PartialStageElement) :
  property name (spread el newProps) =
  match listed name newProps with
  | Some v => Some v
  | None => property name el
  end.
Proof.
  destruct newProps as [i t px py w h r o bg c tx fs fw sr ap lp mu].
  destruct name; simpl;
    match goal with
    | |- context [over ?o _] => now destruct o
    | |- context [overOpt ?o _] => now destruct o
    end.
Qed.

Lemma selector_inj (a b : string) : selector a = selector b -> a = b.
Proof. unfold selector. simpl. intros H. now inversion H. Qed.

(** What a rename that passes the guards does: the elements keep their
    places and every property but the id, the selection follows, and no
    step targets the old id afterwards. *)
Lemma handleIdChange_renames (oldId newId : string) (s : AppState) :
  newId <> EmptyString -> newId <> oldId -> newId ∉ id <$> elements s ->
  let s' := handleIdChange oldId newId s in
  elements s' =
    (fun el => if String.eqb (id el) oldId then spread el (idOnly newId) else el)
    <$> elements s /\
  (forall name el, name <> Id ->
     property name (spread el (idOnly newId)) = property name el) /\
  selectedElementId s' =
    match selectedElementId s with
    | Some selected => if String.eqb selected oldId then Some newId else Some selected
    | None => None
    end /\
  animationSteps s' = retarget oldId newId <$> animationSteps s /\
  (forall step, step ∈ animationSteps s' -> target step <> selector oldId).
Proof.
  intros Hempty Hneq Hfresh s'.
  assert (Hguard1 : String.eqb oldId newId || negb (JS.truthy newId) = false).
  { apply orb_false_iff. split.
    - apply String.eqb_neq. congruence.
    - destruct newId; [congruence|reflexivity]. }
  assert (Hguard2 : existsb (fun el => String.eqb (id el) newId) (elements s) = false).
  { destruct (existsb _ (elements s)) eqn:Hex; [|reflexivity].
    apply existsb_exists in Hex as (el & Hin & Heq).
    apply String.eqb_eq in Heq. exfalso. apply Hfresh.
    apply list_elem_of_fmap. exists el. split; [congruence|].
    now apply list_elem_of_In. }
  assert (Hsteps : animationSteps s' = retarget oldId newId <$> animationSteps s).
  { subst s'. unfold handleIdChange. rewrite Hguard1, Hguard2.
    branches; reflexivity. }
  split; [|split; [|split; [|split]]].
  - subst s'. unfold handleIdChange. rewrite Hguard1, Hguard2.
    branches; reflexivity.
  - intros name el Hname. rewrite spread_property.
    now destruct name.
  - subst s'. unfold handleIdChange. rewrite Hguard1, Hguard2.
    destruct (selectedElementId s) as [selected|] eqn:Hselected;
      [destruct (String.eqb selected oldId)|]; simpl; congruence.
  - exact Hsteps.
  - intros step Hin. rewrite Hsteps in Hin.
    apply list_elem_of_fmap in Hin as (before & -> & _).
    unfold retarget. simpl.
    destruct (String.eqb (target before) (selector oldId)) eqn:Heq.
    + intros Hsel. apply selector_inj in Hsel. congruence.
    + now apply String.eqb_neq.
Qed.

(** C2, at an input the code handles wrongly.  A text element is added, the
    preset that fades it in on scroll is applied, and the element is renamed
    from [text-1] to [title].  The element, the selection and the target of
    the step follow the rename, but the trigger of the step's scrollTrigger
    is still [#text-1]: the step refers to an id that no element has. *)
Theorem handleIdChange_leaves_scroll_trigger :
  exists s',
    run [ AddElement Text "1";
          ApplyPreset (fadeInOnScroll Samples.text1);
          IdChange "text-1" "title" ] (initialState ∅) = Some s' /\
    id <$> elements s' = ["title"] /\
    selectedElementId s' = Some "title" /\
    target <$> animationSteps s' = ["#title"] /\
    triggerOf <$> animationSteps s' = [Some "#text-1"] /\
    existsb (refersTo "text-1") (animationSteps s') = true.
Proof.
  eexists. split; [reflexivity|]. now vm_compute.
Qed.

(** ** handleSendMessage and the modified elements *)

Lemma findIndex_Some {A : Type} (p : A -> bool) (l : list A) (i : nat) :
  findIndex p l = Some i ->
  exists a, l !! i = Some a /\ p a = true /\
            forall j b, l !! j = Some b -> (j < i)%nat -> p b = false.
Proof.
  revert i. induction l as [|a l IH]; intros i; simpl; [discriminate|].
  destruct (p a) eqn:Hpa.
  - intros [= <-]. exists a. repeat split; [assumption|]. intros j b _ Hj. lia.
  - destruct (findIndex p l) as [i'|]; [|discriminate].
    intros [= <-]. destruct (IH i' eq_refl) as (a' & Hl & Hp & Hfirst).
    exists a'. repeat split; [assumption..|].
    intros [|j] b Hb Hj; simpl in Hb.
    + congruence.
    + apply (Hfirst j b Hb). lia.
Qed.

Lemma findIndex_None {A : Type} (p : A -> bool) (l : list A) :
  findIndex p l = None -> forall a, a ∈ l -> p a = false.
Proof.
  induction l as [|a l IH]; simpl; intros Hnone b Hb.
  - now apply elem_of_nil in Hb.
  - destruct (p a) eqn:Hpa; [discriminate|].
    destruct (findIndex p l); [discriminate|].
    apply elem_of_cons in Hb as [-> | Hb]; [assumption|]. now apply IH.
Qed.

Lemma applyModification_length (l : list StageElement) (m : ElementModification) :
  length (applyModification l m) = length l.
Proof.
  unfold applyModification. destruct (findIndex _ l); [|reflexivity].
  apply length_alter.
Qed.

Lemma applyModification_other (l : list StageElement) (m : ElementModification)
    (i : nat) (el : StageElement) :
  l !! i = Some el -> id el <> mod_id m -> applyModification l m !! i = Some el.
Proof.
  intros Hi Hid. unfold applyModification.
  destruct (findIndex _ l) as [k|] eqn:Hfind; [|assumption].
  apply findIndex_Some in Hfind as (a & Hk & Hp & _).
  apply String.eqb_eq in Hp.
  rewrite list_lookup_alter_ne; [assumption|]. intros ->. congruence.
Qed.

Lemma applyModification_unmatched (l : list StageElement) (m : ElementModification) :
  mod_id m ∉ id <$> l -> applyModification l m = l.
Proof.
  intros Hnot. unfold applyModification.
  destruct (findIndex _ l) as [k|] eqn:Hfind; [|reflexivity].
  apply findIndex_Some in Hfind as (a & Hk & Hp & _).
  apply String.eqb_eq in Hp. exfalso. apply Hnot.
  apply list_elem_of_fmap. exists a. split; [congruence|].
  apply list_elem_of_lookup. eauto.
Qed.

Lemma applyModification_hit (l : list StageElement) (m : ElementModification)
    (i : nat) (el : StageElement) :
  NoDup (id <$> l) -> l !! i = Some el -> id el = mod_id m ->
  applyModification l m !! i = Some (spread el (props m)).
Proof.
  intros Hnd Hi Hid. unfold applyModification.
  destruct (findIndex _ l) as [k|] eqn:Hfind.
  - apply findIndex_Some in Hfind as (a & Hk & Hp & _).
    apply String.eqb_eq in Hp.
    assert (k = i) as ->.
    { apply (NoDup_lookup (id <$> l) k i (mod_id m) Hnd);
        rewrite list_lookup_fmap; [rewrite Hk | rewrite Hi]; simpl; congruence. }
    rewrite list_lookup_alter. destruct (decide (i = i)); [|congruence].
    now rewrite Hi.
  - assert (Hin : el ∈ l) by (apply list_elem_of_lookup; eauto).
    pose proof (findIndex_None _ _ Hfind el Hin) as Hno. simpl in Hno.
    apply String.eqb_neq in Hno. congruence.
Qed.

(** One entry rewrites the first element that has its id, in place. *)
Lemma applyModification_first (l : list StageElement) (m : ElementModification)
    (i : nat) (el : StageElement) :
  l !! i = Some el -> id el = mod_id m ->
  (forall j el', l !! j = Some el' -> (j < i)%nat -> id el' <> mod_id m) ->
  applyModification l m = <[i := spread el (props m)]> l.
Proof.
  intros Hi Hid Hfirst. unfold applyModification.
  destruct (findIndex _ l) as [k|] eqn:Hfind.
  - apply findIndex_Some in Hfind as (a & Hk & Hp & Hmin).
    apply String.eqb_eq in Hp.
    assert (k = i) as ->.
    { destruct (Nat.lt_trichotomy k i) as [Hlt | [Heq | Hgt]]; [|assumption|].
      - exfalso. now apply (Hfirst k a Hk Hlt).
      - specialize (Hmin i el Hi Hgt). simpl in Hmin.
        apply String.eqb_neq in Hmin. congruence. }
    apply list_eq. intros j.
    rewrite list_lookup_alter, list_lookup_insert.
    destruct (decide (i = j)) as [<-|Hne].
    + rewrite Hi. simpl.
      destruct (decide (i = i /\ (i < length l)%nat)) as [_|Hno]; [reflexivity|].
      exfalso. apply Hno. split; [reflexivity|]. now apply (lookup_lt_Some l i el).
    + destruct (decide (i = j /\ (i < length l)%nat)) as [[Heq _]|_];
        [congruence|reflexivity].
  - assert (Hin : el ∈ l) by (apply list_elem_of_lookup; eauto).
    pose proof (findIndex_None _ _ Hfind el Hin) as Hno. simpl in Hno.
    apply String.eqb_neq in Hno. congruence.
Qed.

Lemma applyModification_ids (l : list StageElement) (m : ElementModification) :
  p_id (props m) = None -> id <$> applyModification l m = id <$> l.
Proof.
  intros Hno. unfold applyModification.
  destruct (findIndex _ l) as [k|]; [|reflexivity].
  rewrite (list_fmap_alter id _ (fun i => i)).
  - apply list_alter_id. reflexivity.
  - apply Forall_forall. intros el _. simpl. now rewrite Hno.
Qed.

Lemma applyModifications_length (mods : list ElementModification)
    (l : list StageElement) :
  length (applyModifications mods l) = length l.
Proof.
  revert l. induction mods as [|m mods IH]; intros l; simpl; [reflexivity|].
  unfold applyModifications in *. simpl. rewrite IH.
  apply applyModification_length.
Qed.

Lemma applyModifications_unlisted (mods : list ElementModification)
    (l : list StageElement) (i : nat) (el : StageElement) :
  l !! i = Some el -> id el ∉ mod_id <$> mods ->
  applyModifications mods l !! i = Some el.
Proof.
  revert l. induction mods as [|m mods IH]; intros l Hi Hnot; [assumption|].
  rewrite fmap_cons in Hnot. apply not_elem_of_cons in Hnot as [Hne Hnot].
  unfold applyModifications in *. simpl. apply IH; [|assumption].
  now apply applyModification_other.
Qed.

Lemma applyModifications_ids (mods : list ElementModification)
    (l : list StageElement) :
  Forall (fun m => p_id (props m) = None) mods ->
  id <$> applyModifications mods l = id <$> l.
Proof.
  revert l. induction mods as [|m mods IH]; intros l Hno; [reflexivity|].
  apply Forall_cons in Hno as [Hm Hno].
  unfold applyModifications in *. simpl. rewrite IH by assumption.
  now apply applyModification_ids.
Qed.

Lemma applyModifications_listed (mods : list ElementModification)
    (l : list StageElement) (i : nat) (el : StageElement) (m : ElementModification) :
  NoDup (id <$> l) -> NoDup (mod_id <$> mods) ->
  Forall (fun m => p_id (props m) = None) mods ->
  l !! i = Some el -> m ∈ mods -> mod_id m = id el ->
  applyModifications mods l !! i = Some (spread el (props m)).
Proof.
  revert l el. induction mods as [|m0 mods IH]; intros l el Hnd Hmods Hno Hi Hm Hid.
  - now apply elem_of_nil in Hm.
  - rewrite fmap_cons in Hmods. apply NoDup_cons in Hmods as [Hfresh Hmods].
    apply Forall_cons in Hno as [Hm0 Hno].
    unfold applyModifications in *. simpl.
    apply elem_of_cons in Hm as [-> | Hm].
    + apply applyModifications_unlisted.
      * now apply applyModification_hit.
      * simpl. rewrite Hm0. simpl. now rewrite <- Hid.
    + apply IH; try assumption.
      * now rewrite applyModification_ids.
      * apply applyModification_other; [assumption|].
        intros Heq. apply Hfresh. apply list_elem_of_fmap.
        exists m. split; [congruence|assumption].
Qed.

Lemma resume_elements_modification (aiResponse : AIResponse) (s : AppState)
    (mods : list ElementModification) :
  response_type aiResponse = "element_modification" ->
  modified_elements aiResponse = Some mods ->
  elements (handleSendMessage_resume aiResponse s) =
  applyModifications mods (elements s).
Proof.
  intros Htype Hmods. unfold handleSendMessage_resume. rewrite Hmods, Htype.
  destruct (JS.truthy (explanation aiResponse)), (new_elements aiResponse),
    (animation_steps aiResponse); reflexivity.
Qed.

(** C5. A response of type [element_modification] runs its entries in
    order over the element list.  An entry whose id no element has changes
    nothing; otherwise the first element with that id is replaced, in place,
    by itself with the props of the entry spread over it, which overwrites
    exactly the listed properties and keeps the others.  So the list keeps
    its length, nothing is created, and an element whose id is not listed is
    unchanged.  When the ids of the elements and of the entries are pairwise
    distinct and no entry lists an id among its props, the elements keep
    their ids and their order, and for each entry the element with that id
    ends as that element with the props of the entry spread over it. *)
Theorem handleSendMessage_modifies_elements
    (s : AppState) (aiResponse : AIResponse) (mods : list ElementModification) :
  response_type aiResponse = "element_modification" ->
  modified_elements aiResponse = Some mods ->
  let before := elements s in
  let after := elements (handleSendMessage_resume aiResponse s) in
  after = fold_left applyModification mods before /\
  (forall l m,
     (mod_id m ∉ id <$> l -> applyModification l m = l) /\
     (forall i el,
        l !! i = Some el -> id el = mod_id m ->
        (forall j el', l !! j = Some el' -> (j < i)%nat -> id el' <> mod_id m) ->
        applyModification l m = <[i := spread el (props m)]> l)) /\
  (forall el newProps name,
     property name (spread el newProps) =
     match listed name newProps with
     | Some v => Some v
     | None => property name el
     end) /\
  length after = length before /\
  (forall i el, before !! i = Some el -> id el ∉ mod_id <$> mods ->
     after !! i = Some el) /\
  (NoDup (id <$> before) -> NoDup (mod_id <$> mods) ->
   Forall (fun m => p_id (props m) = None) mods ->
     id <$> after = id <$> before /\
     (forall i el m, before !! i = Some el -> m ∈ mods -> mod_id m = id el ->
        after !! i = Some (spread el (props m)))).
Proof.
  intros Htype Hmods before after.
  assert (Hafter : after = applyModifications mods before)
    by now apply resume_elements_modification.
  split; [exact Hafter|]. rewrite Hafter.
  split; [|split; [|split; [|split]]].
  - intros l m. split.
    + apply applyModification_unmatched.
    + apply applyModification_first.
  - intros el newProps name. apply spread_property.
  - apply applyModifications_length.
  - apply applyModifications_unlisted.
  - intros Hnd Hnd' Hno. split.
    + now apply applyModifications_ids.
    + intros i el m Hi Hm Hid. now apply applyModifications_listed.
Qed.

(** Why the last part needs one entry per id: of two entries for the same
    element the later one wins where both list a property. *)
Example applyModifications_later_entry_wins :
  x <$> applyModifications
          [ {| mod_id := "box-1"; props := props Samples.moveBox |};
            {| mod_id := "box-1";
               props := {| p_id := None; p_type := None; p_x := Some (7 # 1);
                           p_y := None; p_width := None; p_height := None;
                           p_rotation := None; p_opacity := None;
                           p_backgroundColor := None; p_color := None;
                           p_text := None; p_fontSize := None;
                           p_fontWeight := None; p_src := None;
                           p_autoplay := None; p_loop := None;
                           p_muted := None |} |} ]
          [Samples.box1]
  = [7 # 1].
Proof. reflexivity. Qed.

(** C5, as it is stated, fails in three ways, each with an element that
    has the id of an entry and does not end as itself with the props of
    that entry spread over it.  Two entries for one element: the second is
    applied over the first.  An entry that lists an id: the element now
    answers to the new id, and a later entry for that id, which no element
    had, changes it.  Two elements with one id: only the first is
    changed. *)
Lemma handleSendMessage_modifies_elements_counterexample :
  let fails (stage : AppState) (mods : list ElementModification) :=
    let before := elements stage in
    let after :=
      elements (handleSendMessage_resume (Samples.modificationOf mods) stage) in
    exists m i el,
      m ∈ mods /\ before !! i = Some el /\ mod_id m = id el /\
      after !! i <> Some (spread el (props m)) in
  fails Samples.stateWithBox [Samples.moveBox; Samples.moveBoxAgain] /\
  fails Samples.stateWithBox [Samples.renameBox; Samples.moveRenamed] /\
  fails Samples.stateWithTwins [Samples.moveBox].
Proof.
  cbv zeta. split; [|split].
  - exists Samples.moveBox, 0%nat, Samples.box1.
    split; [apply list_elem_of_here|]. split; [reflexivity|].
    split; [reflexivity|].
    intros Hclaim. apply (f_equal (fmap x)) in Hclaim.
    vm_compute in Hclaim. discriminate Hclaim.
  - exists Samples.renameBox, 0%nat, Samples.box1.
    split; [apply list_elem_of_here|]. split; [reflexivity|].
    split; [reflexivity|].
    intros Hclaim. apply (f_equal (fmap y)) in Hclaim.
    vm_compute in Hclaim. discriminate Hclaim.
  - exists Samples.moveBox, 1%nat, Samples.box1.
    split; [apply list_elem_of_here|]. split; [reflexivity|].
    split; [reflexivity|].
    intros Hclaim. apply (f_equal (fmap x)) in Hclaim.
    vm_compute in Hclaim. discriminate Hclaim.
Qed.

(** The box is moved and recoloured, the circle is untouched, and the entry
    for an element that does not exist adds nothing. *)
Lemma handleSendMessage_modifies_elements_witness :
  let after := elements (handleSendMessage_resume Samples.modificationReply
                           Samples.stateWithTwo) in
  length after = 2%nat /\
  after !! 0%nat = Some (spread Samples.box1 (props Samples.moveBox)) /\
  after !! 1%nat = Some (newElementOf Circle "2") /\
  id <$> after = ["box-1"; "circle-2"].
Proof.
  intros after.
  destruct (handleSendMessage_modifies_elements
              Samples.stateWithTwo Samples.modificationReply
              [Samples.moveBox; Samples.hideGhost] eq_refl eq_refl)
    as (_ & _ & _ & Hlength & Hunlisted & Hlisted).
  destruct Hlisted as [Hids Hhit].
  { apply (bool_decide_unpack _). now vm_compute. }
  { apply (bool_decide_unpack _). now vm_compute. }
  { repeat constructor. }
  split; [exact Hlength|]. split; [|split].
  - apply (Hhit 0%nat Samples.box1 Samples.moveBox); [reflexivity| |reflexivity].
    apply list_elem_of_In. simpl. auto.
  - apply (Hunlisted 1%nat (newElementOf Circle "2")); [reflexivity|].
    intros Hin. apply list_elem_of_In in Hin. simpl in Hin.
    destruct Hin as [H|[H|[]]]; discriminate.
  - exact Hids.
Defined.

(** ** handleSort *)

Lemma splice_remove_one {A : Type} (i : nat) (l : list A) :
  splice i 1 [] l = (take 1 (drop i l), delete i l).
Proof.
  unfold splice. simpl. now rewrite Nat.add_1_r, delete_take_drop.
Qed.

Lemma splice_insert_one {A : Type} (j : nat) (a : A) (l : list A) :
  splice j 0 [a] l = ([], take j l ++ a :: drop j l).
Proof. unfold splice. simpl. now rewrite Nat.add_0_r, take_0. Qed.

(** C6. With both indices set (and pointing into the list, as the indices
    of rendered rows do), [handleSort] takes the element at the drag index
    out and puts it back at the drag-over index: the new list is a
    permutation of the old one, the dragged element is at the drop position,
    and the other elements keep their relative order.  With an index unset
    nothing changes. *)
Theorem handleSort_moves_dragged_element (elements : list StageElement) :
  (forall dragItem dragOverItem,
     (dragItem < length elements)%nat -> (dragOverItem < length elements)%nat ->
     exists sorted dragged,
       elements !! dragItem = Some dragged /\
       handleSort (Some dragItem) (Some dragOverItem) elements
       = (None, None, Some <$> sorted) /\
       sorted ≡ₚ elements /\
       sorted !! dragOverItem = Some dragged /\
       delete dragOverItem sorted = delete dragItem elements) /\
  (forall item over, item = None \/ over = None ->
     handleSort item over elements = (item, over, Some <$> elements)).
Proof.
  split.
  - intros dragItem dragOverItem Hi Hj.
    destruct (lookup_lt_is_Some_2 elements dragItem Hi) as [dragged Hdragged].
    set (others := delete dragItem elements).
    assert (Hlen : length (take dragOverItem others) = dragOverItem).
    { rewrite length_take. unfold others.
      rewrite length_delete by eauto. lia. }
    exists (take dragOverItem others ++ dragged :: drop dragOverItem others), dragged.
    split; [assumption|]. split; [|split; [|split]].
    + unfold handleSort. rewrite splice_remove_one.
      rewrite lookup_take. destruct (decide (0 < 1)%nat); [|lia].
      rewrite lookup_drop, Nat.add_0_r, list_lookup_fmap, Hdragged.
      rewrite splice_insert_one. simpl.
      rewrite <- list_fmap_delete. fold others.
      now rewrite fmap_app, fmap_cons, fmap_take, fmap_drop.
    + rewrite <- Permutation_middle, take_drop. unfold others.
      symmetry. now apply delete_Permutation.
    + rewrite lookup_app_r by lia. now rewrite Hlen, Nat.sub_diag.
    + rewrite <- Hlen at 1. rewrite delete_middle. apply take_drop.
  - intros item over [-> | ->]; [reflexivity|]. now destruct item.
Qed.

(** Outside those bounds: with a drag index that no longer points into
    the list nothing is removed, and [undefined] is inserted. *)
Example handleSort_stale_index :
  handleSort (Some 5%nat) (Some 0%nat) [Samples.box1]
  = (None, None, [None; Some Samples.box1]).
Proof. reflexivity. Qed.

(** Dragging the first of three rows onto the third. *)
Lemma handleSort_moves_dragged_element_witness :
  let rows := [newElementOf Box "1"; newElementOf Circle "2"; newElementOf Text "3"] in
  (0 < length rows)%nat /\ (2 < length rows)%nat /\
  handleSort (Some 0%nat) (Some 2%nat) rows
  = (None, None,
     Some <$> [newElementOf Circle "2"; newElementOf Text "3"; newElementOf Box "1"]) /\
  (exists sorted dragged,
      rows !! 0%nat = Some dragged /\
      handleSort (Some 0%nat) (Some 2%nat) rows = (None, None, Some <$> sorted) /\
      sorted ≡ₚ rows /\
      sorted !! 2%nat = Some dragged /\
      delete 2%nat sorted = delete 0%nat rows) /\
  handleSort None (Some 2%nat) rows = (None, Some 2%nat, Some <$> rows).
Proof.
  intros rows.
  assert (H0 : (0 < length rows)%nat) by (simpl; lia).
  assert (H2 : (2 < length rows)%nat) by (simpl; lia).
  destruct (handleSort_moves_dragged_element rows) as [Hmoved Hunset].
  split; [exact H0|]. split; [exact H2|]. split; [reflexivity|].
  split; [exact (Hmoved 0%nat 2%nat H0 H2)|].
  apply Hunset. now left.
Defined.

(** ** formatGSAPCode *)

Lemma append_empty_r (s : string) : (s ++ "")%string = s.
Proof.
  induction s as [|c s IH]; [reflexivity|].
  change (String c (s ++ "")%string = String c s). now rewrite IH.
Qed.

Lemma append_associative (a b c : string) :
  (a ++ (b ++ c))%string = ((a ++ b) ++ c)%string.
Proof.
  induction a as [|x a IH]; [reflexivity|].
  change (String x (a ++ (b ++ c))%string = String x ((a ++ b) ++ c)%string).
  now rewrite IH.
Qed.

Lemma prefix_append (p s : string) : String.prefix p (p ++ s)%string = true.
Proof.
  induction p as [|c p IH]; [now destruct s|].
  change (String.prefix (String c p) (String c (p ++ s)%string) = true).
  simpl. now destruct (Ascii.ascii_dec c c).
Qed.

Lemma truthy_join_lines {A : Type} (sep : string) (line : A -> string) (l : list A) :
  (forall a, exists c rest, line a = String c rest) ->
  JS.truthy (join sep (List.map line l)) = match l with [] => false | _ :: _ => true end.
Proof.
  intros Hline. destruct l as [|a l]; [reflexivity|]. simpl.
  destruct (Hline a) as (c & rest & ->).
  now destruct (List.map line l).
Qed.

Lemma filter_none {A : Type} (p : A -> bool) (l : list A) :
  existsb p l = false ->
  List.filter p l = [] /\ List.filter (fun a => negb (p a)) l = l.
Proof.
  induction l as [|a l IH]; simpl; [now split|].
  intros Hex. apply orb_false_iff in Hex as [Ha Hex]. rewrite Ha. simpl.
  destruct (IH Hex) as [-> ->]. now split.
Qed.

Lemma filter_split_Permutation {A : Type} (p : A -> bool) (l : list A) :
  List.filter (fun a => negb (p a)) l ++ List.filter p l ≡ₚ l.
Proof.
  induction l as [|a l IH]; simpl; [reflexivity|].
  destruct (p a); simpl.
  - rewrite <- Permutation_middle. now constructor.
  - now constructor.
Qed.

Lemma mapThrowing_cases {A B : Type} (f : A -> B + Thrown) (g : A -> B)
    (ok : A -> bool) (thrown : Thrown) (l : list A) :
  (forall a, f a = if ok a then inl (g a) else inr thrown) ->
  mapThrowing f l = if forallb ok l then inl (g <$> l) else inr thrown.
Proof.
  intros Hf. induction l as [|a l IH]; [reflexivity|].
  cbn [mapThrowing forallb]. rewrite Hf, IH.
  destruct (ok a); [|reflexivity]. now destruct (forallb ok l).
Qed.

Lemma forallb_filter_split {A : Type} (ok p : A -> bool) (l : list A) :
  forallb ok l =
  forallb ok (List.filter (fun a => negb (p a)) l) && forallb ok (List.filter p l).
Proof.
  induction l as [|a l IH]; [reflexivity|].
  cbn [forallb List.filter]. rewrite IH.
  destruct (p a); cbn [negb forallb];
    destruct (ok a), (forallb ok (List.filter (fun a => negb (p a)) l)),
      (forallb ok (List.filter p l)); reflexivity.
Qed.

Section Format.

Variable JSON_stringify : JSON -> string.
Variable unquoteKeys : string -> string.

#[local] Abbreviation formatGSAPCode := (App.formatGSAPCode JSON_stringify unquoteKeys).
#[local] Abbreviation timelineLine := (App.timelineLine JSON_stringify unquoteKeys).
#[local] Abbreviation scrollTriggerLine :=
  (App.scrollTriggerLine JSON_stringify unquoteKeys).

(** The two lines, for a step whose [vars] can be stringified. *)
#[local] Abbreviation tlToText step :=
  ("tl.to(" ++ DQUOTE ++ target step ++ DQUOTE ++ ", " ++
   unquoteKeys (JSON_stringify (JObject (vars step))) ++
   match position step with
   | Some p => if JS.truthy p then ", " ++ DQUOTE ++ p ++ DQUOTE else ""
   | None => ""
   end ++ ");")%string.

#[local] Abbreviation gsapToText step :=
  ("gsap.to(" ++ DQUOTE ++ target step ++ DQUOTE ++ ", " ++
   unquoteKeys (JSON_stringify (JObject (vars step))) ++ ");")%string.

Lemma timelineLine_cases (step : AnimationStep) :
  timelineLine step =
  if serializableStep step then inl (tlToText step) else inr circularStructureError.
Proof.
  unfold App.timelineLine, varsString. now destruct (serializableStep step).
Qed.

Lemma scrollTriggerLine_cases (step : AnimationStep) :
  scrollTriggerLine step =
  if serializableStep step then inl (gsapToText step) else inr circularStructureError.
Proof.
  unfold App.scrollTriggerLine, varsString. now destruct (serializableStep step).
Qed.

Lemma timelineSteps_cases (steps : list AnimationStep) :
  timelineSteps JSON_stringify unquoteKeys steps =
  if forallb serializableStep (timelineAnims steps)
  then inl (join LF ((fun step => tlToText step) <$> timelineAnims steps))
  else inr circularStructureError.
Proof.
  unfold timelineSteps.
  rewrite (mapThrowing_cases _ (fun step => tlToText step) serializableStep
             circularStructureError) by apply timelineLine_cases.
  now destruct (forallb serializableStep (timelineAnims steps)).
Qed.

Lemma scrollTriggerSteps_cases (steps : list AnimationStep) :
  scrollTriggerSteps JSON_stringify unquoteKeys steps =
  if forallb serializableStep (scrollAnims steps)
  then inl (join (LF ++ LF) ((fun step => gsapToText step) <$> scrollAnims steps))
  else inr circularStructureError.
Proof.
  unfold scrollTriggerSteps.
  rewrite (mapThrowing_cases _ (fun step => gsapToText step) serializableStep
             circularStructureError) by apply scrollTriggerLine_cases.
  now destruct (forallb serializableStep (scrollAnims steps)).
Qed.

Lemma falsy_empty (s : string) : JS.truthy s = false -> s = "".
Proof. destruct s; [reflexivity|discriminate]. Qed.

(** The text that [formatGSAPCode] returns when nothing throws. *)
Lemma formatGSAPCode_form (steps : list AnimationStep) :
  steps <> [] -> forallb serializableStep steps = true ->
  formatGSAPCode steps =
  Returns
    (registerPluginHeader steps ++
     match timelineAnims steps with
     | [] => ""
     | _ :: _ => "const tl = gsap.timeline();" ++ LF ++
                 join LF ((fun step => tlToText step) <$> timelineAnims steps) ++
                 LF ++ LF
     end ++
     join (LF ++ LF) ((fun step => gsapToText step) <$> scrollAnims steps))%string.
Proof.
  intros Hne Hall. destruct steps as [|step steps]; [congruence|].
  rewrite (forallb_filter_split _ usesScrollTrigger) in Hall.
  apply andb_true_iff in Hall as [Htimeline Hscroll].
  unfold App.formatGSAPCode. cbv zeta.
  rewrite timelineSteps_cases, scrollTriggerSteps_cases.
  fold (timelineAnims (step :: steps)) in Htimeline.
  fold (scrollAnims (step :: steps)) in Hscroll.
  rewrite Htimeline, Hscroll. f_equal. f_equal.
  assert (Htruthy := truthy_join_lines LF (fun step => tlToText step)
                       (timelineAnims (step :: steps))).
  change (List.map ?f ?l) with (f <$> l) in Htruthy.
  rewrite Htruthy by (intros a; eexists _, _; reflexivity).
  destruct (timelineAnims (step :: steps));
    destruct (JS.truthy (join (LF ++ LF) _)) eqn:Hjoin;
    try reflexivity;
    apply falsy_empty in Hjoin; rewrite Hjoin.
  - reflexivity.
  - symmetry. apply append_empty_r.
Qed.

(** When [JSON.stringify] throws on a step, [formatGSAPCode] throws. *)
Lemma formatGSAPCode_throws (steps : list AnimationStep) :
  forallb serializableStep steps = false ->
  formatGSAPCode steps = Throws circularStructureError.
Proof.
  intros Hsome. destruct steps as [|step steps]; [discriminate|].
  rewrite (forallb_filter_split _ usesScrollTrigger) in Hsome.
  unfold App.formatGSAPCode. cbv zeta.
  rewrite timelineSteps_cases, scrollTriggerSteps_cases.
  fold (timelineAnims (step :: steps)) in Hsome.
  fold (scrollAnims (step :: steps)) in Hsome.
  destruct (forallb serializableStep (timelineAnims (step :: steps)));
    [|reflexivity].
  cbn [andb] in Hsome. now rewrite Hsome.
Qed.

Lemma registerPluginHeader_cases (steps : list AnimationStep) :
  (existsb (fun step => usesScrollTrigger step || usesText step) steps = false /\
   registerPluginHeader steps = "" /\
   existsb usesScrollTrigger steps = false) \/
  (existsb (fun step => usesScrollTrigger step || usesText step) steps = true /\
   exists rest, registerPluginHeader steps = ("gsap.registerPlugin(" ++ rest)%string).
Proof.
  assert (Hor : existsb (fun step => usesScrollTrigger step || usesText step) steps
                = existsb usesScrollTrigger steps || existsb usesText steps).
  { induction steps as [|a l IH]; simpl; [reflexivity|]. rewrite IH.
    destruct (usesScrollTrigger a), (usesText a),
      (existsb usesScrollTrigger l), (existsb usesText l); reflexivity. }
  unfold registerPluginHeader. rewrite Hor.
  destruct (existsb usesScrollTrigger steps), (existsb usesText steps); simpl;
    [right | right | right | left]; eauto.
Qed.

(** X21. [formatGSAPCode] returns the placeholder comment exactly for the
    empty list.  For another list it returns a text if and only if
    [JSON.stringify] throws on no step.  The text is then the header, the
    timeline and one [tl.to] line for each step without a scrollTrigger, in
    list order, and one [gsap.to] line for each step with one; the two
    groups together are the steps of the list, each once; and the text
    starts with [gsap.registerPlugin(] exactly when some step uses
    scrollTrigger or text. *)
Theorem formatGSAPCode_serializes_every_step (steps : list AnimationStep) :
  let timeline := timelineAnims steps in
  let scroll := scrollAnims steps in
  (formatGSAPCode steps = Returns noStepsComment <-> steps = []) /\
  (steps <> [] -> forallb serializableStep steps = true ->
   formatGSAPCode steps =
   Returns
     (registerPluginHeader steps ++
      match timeline with
      | [] => ""
      | _ :: _ => "const tl = gsap.timeline();" ++ LF ++
                  join LF ((fun step => tlToText step) <$> timeline) ++ LF ++ LF
      end ++
      join (LF ++ LF) ((fun step => gsapToText step) <$> scroll))%string) /\
  (forallb serializableStep steps = false ->
   formatGSAPCode steps = Throws circularStructureError) /\
  timeline ++ scroll ≡ₚ steps /\
  (forall step, step ∈ timeline <-> step ∈ steps /\ usesScrollTrigger step = false) /\
  (forall step, step ∈ scroll <-> step ∈ steps /\ usesScrollTrigger step = true) /\
  (forall code, formatGSAPCode steps = Returns code ->
     startsWith code "gsap.registerPlugin("
     = existsb (fun step => usesScrollTrigger step || usesText step) steps).
Proof.
  intros timeline scroll.
  assert (Hstart : forall code, formatGSAPCode steps = Returns code ->
    startsWith code "gsap.registerPlugin("
    = existsb (fun step => usesScrollTrigger step || usesText step) steps).
  { intros code. destruct steps as [|step steps']; [now intros [= <-]|].
    destruct (forallb serializableStep (step :: steps')) eqn:Hall.
    - rewrite formatGSAPCode_form by (discriminate || assumption).
      destruct (registerPluginHeader_cases (step :: steps'))
        as [(-> & -> & Hnone) | (-> & rest & ->)].
      + unfold timelineAnims, scrollAnims.
        destruct (filter_none _ _ Hnone) as [-> ->]. now intros [= <-].
      + intros [= <-]. unfold startsWith.
        rewrite <- append_associative. apply prefix_append.
    - now rewrite formatGSAPCode_throws. }
  split; [|split; [|split; [|split; [|split; [|split]]]]].
  - split.
    + intros Hcomment. destruct steps as [|step steps']; [reflexivity|].
      exfalso. pose proof (Hstart _ Hcomment) as Hprefix.
      destruct (forallb serializableStep (step :: steps')) eqn:Hall;
        [|now rewrite formatGSAPCode_throws in Hcomment].
      rewrite formatGSAPCode_form in Hcomment by (discriminate || assumption).
      destruct (registerPluginHeader_cases (step :: steps'))
        as [(_ & Hheader & Hnone) | (Hsome & _)].
      * rewrite Hheader in Hcomment. unfold timelineAnims in Hcomment.
        destruct (filter_none _ _ Hnone) as [_ Hsame]. rewrite Hsame in Hcomment.
        discriminate.
      * rewrite Hsome in Hprefix. discriminate.
    + now intros ->.
  - apply formatGSAPCode_form.
  - apply formatGSAPCode_throws.
  - apply filter_split_Permutation.
  - intros step. unfold timeline, timelineAnims.
    rewrite list_elem_of_In, filter_In, <- list_elem_of_In, negb_true_iff.
    reflexivity.
  - intros step. unfold scroll, scrollAnims.
    rewrite list_elem_of_In, filter_In, <- list_elem_of_In. reflexivity.
  - exact Hstart.
Qed.

Section Gsap.

Variable tlTo : AnimationStep -> Vars.

(** [tl.to] stores the timeline under [parent] in the [vars] it is given. *)
Hypothesis tlTo_parent : forall step, member "parent" (tlTo step) = Some JCyclic.

(** C7. [formatGSAPCode] does not serialize the steps that the state
    holds once the timeline effect has run on a list with a step for the
    timeline: [JSON.stringify] throws on the [vars] that [tl.to] was
    given, and so does [formatGSAPCode], whatever the other steps are. *)
Theorem formatGSAPCode_throws_after_timeline_effect (steps : list AnimationStep) :
  timelineAnims steps <> [] ->
  formatGSAPCode (timelineEffect tlTo steps) = Throws circularStructureError.
Proof.
  intros Hsteps. apply formatGSAPCode_throws.
  now apply TimelineFacts.timelineEffect_not_serializable.
Qed.

End Gsap.

End Format.

(** A tween on the timeline and a scroll-triggered one: the header names
    ScrollTrigger, the tween is a [tl.to] line and the other a [gsap.to]
    line.  Once GSAP has written to the tween there is no text. *)
Lemma formatGSAPCode_serializes_every_step_witness :
  let steps := [Samples.fadeStep; Samples.scrollStep] in
  steps <> [] /\
  forallb serializableStep steps = true /\
  App.formatGSAPCode Samples.sampleStringify Samples.sampleUnquoteKeys steps =
  Returns
    ("gsap.registerPlugin(ScrollTrigger);" ++ LF ++ LF ++
     "const tl = gsap.timeline();" ++ LF ++
     "tl.to(" ++ DQUOTE ++ "#box-1" ++ DQUOTE ++ ", {...}, " ++
       DQUOTE ++ "+=0.5" ++ DQUOTE ++ ");" ++ LF ++ LF ++
     "gsap.to(" ++ DQUOTE ++ "#box-1" ++ DQUOTE ++ ", {...});")%string /\
  App.formatGSAPCode Samples.sampleStringify Samples.sampleUnquoteKeys []
  = Returns noStepsComment /\
  App.formatGSAPCode Samples.sampleStringify Samples.sampleUnquoteKeys
    [touched Samples.sampleTlTo Samples.fadeStep; Samples.scrollStep]
  = Throws circularStructureError.
Proof.
  intros steps.
  destruct (formatGSAPCode_serializes_every_step
              Samples.sampleStringify Samples.sampleUnquoteKeys steps)
    as (_ & Hform & _).
  destruct (formatGSAPCode_serializes_every_step
              Samples.sampleStringify Samples.sampleUnquoteKeys [])
    as (Hempty & _).
  destruct (formatGSAPCode_serializes_every_step
              Samples.sampleStringify Samples.sampleUnquoteKeys
              [touched Samples.sampleTlTo Samples.fadeStep; Samples.scrollStep])
    as (_ & _ & Hthrows & _).
  split; [discriminate|]. split; [reflexivity|]. split; [|split].
  - rewrite Hform by (discriminate || reflexivity). reflexivity.
  - now apply Hempty.
  - now apply Hthrows.
Defined.

(** The export after the first animation: the reply has put a tween on the
    timeline, the effect has run, and the next render of [ExportPanel]
    throws. *)
Lemma formatGSAPCode_throws_after_timeline_effect_witness :
  timelineAnims [Samples.spinStep] <> [] /\
  App.formatGSAPCode Samples.sampleStringify Samples.sampleUnquoteKeys
    (timelineEffect Samples.sampleTlTo [Samples.spinStep])
  = Throws circularStructureError.
Proof.
  assert (Hsteps : timelineAnims [Samples.spinStep] <> []) by discriminate.
  split; [exact Hsteps|].
  exact (formatGSAPCode_throws_after_timeline_effect
           Samples.sampleStringify Samples.sampleUnquoteKeys
           Samples.sampleTlTo TimelineFacts.sampleTlTo_parent
           [Samples.spinStep] Hsteps).
Defined.

(** ** The transition system *)

Lemma run_reachable (storage : gmap string string) (events : list Event)
    (s s' : AppState) :
  reachable storage s -> run events s = Some s' -> reachable storage s'.
Proof.
  revert s. induction events as [|ev events IH]; intros s Hs; simpl.
  - now intros [= <-].
  - destruct (dispatch ev s) as [s1|] eqn:Hd; [|discriminate].
    apply IH. now apply (reachable_dispatch storage s s1 ev).
Qed.

(** Inverts [dispatch ev s = Some s'] for every event. *)
Ltac dispatched H :=
  cbv beta iota delta [dispatch] in H;
  repeat match type of H with
         | context [match ?c with _ => _ end] => destruct c eqn:?
         end;
  try discriminate H;
  injection H as <-.

(** [handleSend] either does nothing, or raises the flag and starts the
    one request, if the prompt can be put together. *)
Lemma handleSend_cases (s : AppState) :
  handleSend s = s \/
  (JS.truthy (trim (input s)) = true /\ isLoading s = false /\
   isLoading (handleSend s) = true /\
   pendingRequests (handleSend s) =
   if forallb serializableStep (animationSteps s) then
     pendingRequests s ++
     [mkRequest (input s) (elements s) (selectedElementId s) (animationSteps s)]
   else pendingRequests s).
Proof.
  unfold handleSend.
  destruct (JS.truthy (trim (input s))) eqn:Hinput; [|now left].
  destruct (isLoading s) eqn:Hloading; [now left|]. right.
  unfold handleSendMessage_begin. rewrite Hinput. cbn [negb].
  destruct (forallb serializableStep (animationSteps s)); now repeat split.
Qed.

(** What an event does to the loading flag and to the pending requests. *)
Lemma dispatch_requests (ev : Event) (s s' : AppState) :
  dispatch ev s = Some s' ->
  (pendingRequests s' = pendingRequests s /\ isLoading s' = isLoading s) \/
  (ev = Send /\ JS.truthy (trim (input s)) = true /\ isLoading s = false /\
   isLoading s' = true /\
   pendingRequests s' =
   if forallb serializableStep (animationSteps s) then
     pendingRequests s ++
     [mkRequest (input s) (elements s) (selectedElementId s) (animationSteps s)]
   else pendingRequests s) \/
  (exists aiResponse request,
     ev = Reply aiResponse /\ pendingRequests s = request :: pendingRequests s' /\
     isLoading s' = false).
Proof.
  intros Hd. destruct ev.
  all: try (left; dispatched Hd; handlers; branches; now split).
  - (* Send *)
    dispatched Hd.
    destruct (handleSend_cases s) as [-> | (Hinput & Hloading & Hflag & Hpending)].
    + left. now split.
    + right. left. repeat split; assumption.
  - (* Reply *)
    right. right. cbv beta iota delta [dispatch] in Hd.
    destruct (pendingRequests s) as [|request rest] eqn:Hpending; [discriminate|].
    injection Hd as <-. exists aiResponse, request.
    split; [reflexivity|]. split; handlers; branches; reflexivity.
Qed.

(** What an event does to the storage and to the theme. *)
Lemma dispatch_storage (ev : Event) (s s' : AppState) :
  dispatch ev s = Some s' ->
  (localStorage s' = localStorage s /\ theme s' = theme s) \/
  (ev = ToggleTheme /\ localStorage s' = <["theme" := theme s']> (localStorage s)).
Proof.
  intros Hd. destruct ev.
  all: try (left; dispatched Hd; handlers; branches; now split).
  right. dispatched Hd. split; reflexivity.
Qed.

Lemma requests_invariant (storage : gmap string string) (s : AppState) :
  reachable storage s ->
  (length (pendingRequests s) <= 1)%nat /\
  (pendingRequests s <> [] -> isLoading s = true).
Proof.
  induction 1 as [|s s' ev Hs [IHlen IHflag] Hd].
  - split; [simpl; lia|]. intros Hne. now contradiction Hne.
  - destruct (dispatch_requests ev s s' Hd)
      as [[-> ->] | [(_ & _ & Hidle & Hflag & ->) | (r & req & _ & Hpending & Hflag)]].
    + now split.
    + destruct (pendingRequests s) as [|request rest] eqn:Hpending.
      * split; [|now intros _].
        destruct (forallb serializableStep (animationSteps s)); simpl; lia.
      * rewrite IHflag in Hidle by discriminate. discriminate.
    + rewrite Hpending in IHlen. simpl in IHlen.
      destruct (pendingRequests s'); [|simpl in IHlen; lia].
      split; [simpl; lia|]. intros Hne. now contradiction Hne.
Qed.

(** C4. In every state the application can reach at most one request is
    pending, and the loading flag is set while it is.  A request is started
    only by [handleSend], only with an input that is not blank and with
    the flag down and nothing pending; the handler raises the flag as it
    starts the request.  The flag goes down only when a reply has been
    processed, and then nothing is pending. *)
Theorem one_request_in_flight (storage : gmap string string) (s : AppState) :
  reachable storage s ->
  (length (pendingRequests s) <= 1)%nat /\
  (pendingRequests s <> [] -> isLoading s = true) /\
  (forall ev s',
     dispatch ev s = Some s' ->
     (length (pendingRequests s) < length (pendingRequests s'))%nat ->
     ev = Send /\ JS.truthy (trim (input s)) = true /\ isLoading s = false /\
     pendingRequests s = [] /\ isLoading s' = true) /\
  (forall ev s',
     dispatch ev s = Some s' -> isLoading s = true -> isLoading s' = false ->
     exists aiResponse, ev = Reply aiResponse /\ pendingRequests s' = []).
Proof.
  intros Hs. destruct (requests_invariant storage s Hs) as [Hlen Hflag].
  split; [assumption|]. split; [assumption|]. split.
  - intros ev s' Hd Hmore.
    destruct (dispatch_requests ev s s' Hd)
      as [[Hsame _] | [(-> & Hinput & Hidle & Hraised & Hpending) |
                       (r & req & _ & Hpending & _)]].
    + rewrite Hsame in Hmore. lia.
    + repeat split; try assumption.
      destruct (pendingRequests s) as [|request rest]; [reflexivity|].
      rewrite Hflag in Hidle by discriminate. discriminate.
    + rewrite Hpending in Hmore. simpl in Hmore. lia.
  - intros ev s' Hd Hup Hdown.
    destruct (dispatch_requests ev s s' Hd)
      as [[_ Hsame] | [(_ & _ & _ & Hraised & _) | (r & req & -> & Hpending & _)]].
    + congruence.
    + congruence.
    + exists r. split; [reflexivity|].
      rewrite Hpending in Hlen. simpl in Hlen.
      destruct (pendingRequests s'); [reflexivity|simpl in Hlen; lia].
Qed.

(** After a request has been sent one request is pending and the flag is
    up. *)
Lemma one_request_in_flight_witness :
  run Samples.sendEvents (initialState ∅) = Some Samples.stateAfterSend /\
  reachable ∅ Samples.stateAfterSend /\
  pendingRequests Samples.stateAfterSend
  = [mkRequest "make the box spin" [Samples.box1] (Some "box-1") []] /\
  (length (pendingRequests Samples.stateAfterSend) <= 1)%nat /\
  isLoading Samples.stateAfterSend = true.
Proof.
  assert (Hrun : run Samples.sendEvents (initialState ∅) = Some Samples.stateAfterSend)
    by (vm_compute; reflexivity).
  assert (Hreach : reachable ∅ Samples.stateAfterSend).
  { apply (run_reachable ∅ Samples.sendEvents (initialState ∅));
      [constructor|exact Hrun]. }
  assert (Hpending : pendingRequests Samples.stateAfterSend
                     = [mkRequest "make the box spin" [Samples.box1] (Some "box-1") []])
    by reflexivity.
  destruct (one_request_in_flight ∅ _ Hreach) as (Hlen & Hflag & _ & _).
  split; [exact Hrun|]. split; [exact Hreach|]. split; [exact Hpending|].
  split; [exact Hlen|].
  apply Hflag. rewrite Hpending. discriminate.
Defined.

(** C8. In every state the application can reach, [localStorage] is what
    it was when the page was opened with the theme flag stored under the
    key [theme]: no other key is ever written, and no event other than the
    theme toggle writes at all.  So the elements, the animation steps, the
    chat history and the canvas settings never reach the storage. *)
Theorem only_theme_is_persisted (storage : gmap string string) (s : AppState) :
  reachable storage s ->
  localStorage s = <["theme" := theme s]> storage /\
  (forall key, key <> "theme" -> localStorage s !! key = storage !! key) /\
  (forall ev s', dispatch ev s = Some s' -> ev <> ToggleTheme ->
     localStorage s' = localStorage s).
Proof.
  intros Hs.
  assert (Hstored : localStorage s = <["theme" := theme s]> storage).
  { induction Hs as [|s s' ev Hs IH Hd]; [reflexivity|].
    destruct (dispatch_storage ev s s' Hd) as [[-> ->] | [_ ->]]; [assumption|].
    rewrite IH. apply insert_insert_eq. }
  split; [assumption|]. split.
  - intros key Hkey. rewrite Hstored. now apply lookup_insert_ne.
  - intros ev s' Hd Hev.
    destruct (dispatch_storage ev s s' Hd) as [[Hsame _] | [Htoggle _]];
      [assumption|contradiction].
Qed.

(** With a box on the stage and the theme switched to light, the storage
    holds the theme and nothing else. *)
Lemma only_theme_is_persisted_witness :
  run Samples.themeEvents (initialState ∅) = Some Samples.stateAfterToggle /\
  reachable ∅ Samples.stateAfterToggle /\
  theme Samples.stateAfterToggle = "light" /\
  localStorage Samples.stateAfterToggle = {[ "theme" := "light" ]}.
Proof.
  assert (Hrun : run Samples.themeEvents (initialState ∅)
                 = Some Samples.stateAfterToggle) by (vm_compute; reflexivity).
  assert (Hreach : reachable ∅ Samples.stateAfterToggle).
  { apply (run_reachable ∅ Samples.themeEvents (initialState ∅));
      [constructor|exact Hrun]. }
  assert (Htheme : theme Samples.stateAfterToggle = "light") by reflexivity.
  destruct (only_theme_is_persisted ∅ _ Hreach) as (Hstored & _ & _).
  split; [exact Hrun|]. split; [exact Hreach|]. split; [exact Htheme|].
  rewrite Hstored, Htheme. reflexivity.
Defined.

End AppProps.

(** * Properties of the prompt and of fenced replies *)

Module FenceProps.
Import JS Json Types GeminiService Chars.

(** ** sanitize *)

Lemma startsWith_truthy (s p : string) :
  p <> EmptyString -> truthy s && startsWith s p = startsWith s p.
Proof.
  intros Hp. destruct s; [|reflexivity].
  destruct p; [contradiction|reflexivity].
Qed.

Lemma sanitize_fixed (el : StageElement) :
  (forall s, src el = Some s -> startsWith s "data:" = true -> s = "data:...") ->
  sanitize el = el.
Proof.
  intros Hel. unfold sanitize. destruct (src el) as [s|] eqn:Hs; [|reflexivity].
  rewrite startsWith_truthy by discriminate.
  destruct (startsWith s "data:") eqn:Hdata; [|reflexivity].
  rewrite (Hel s eq_refl Hdata) in Hs.
  destruct el. simpl in Hs. subst. reflexivity.
Qed.

(** X1. Before the elements go into the prompt, [sanitize] replaces the
    [src] of an element by the text [data:...] exactly when it starts with
    [data:]; every other property is passed on as it is, no data URL with
    a payload remains, and sanitizing twice is sanitizing once. *)
Theorem sanitize_elides_data_urls (el : StageElement) :
  (forall name, name <> Src -> property name (sanitize el) = property name el) /\
  src (sanitize el) =
    match src el with
    | Some s => if startsWith s "data:" then Some "data:..." else Some s
    | None => None
    end /\
  (forall s, src (sanitize el) = Some s -> startsWith s "data:" = true ->
     s = "data:...") /\
  sanitize (sanitize el) = sanitize el.
Proof.
  assert (Hsrc : src (sanitize el) =
                 match src el with
                 | Some s => if startsWith s "data:" then Some "data:..." else Some s
                 | None => None
                 end).
  { unfold sanitize. destruct (src el) as [s|] eqn:Hs; [|assumption].
    rewrite startsWith_truthy by discriminate.
    destruct (startsWith s "data:"); [reflexivity|assumption]. }
  split; [|split; [exact Hsrc|split]].
  - intros name Hname. unfold sanitize.
    destruct (src el) as [s|]; [|reflexivity].
    destruct (truthy s && startsWith s "data:"); [|reflexivity].
    rewrite AppProps.spread_property.
    destruct name; try reflexivity. now contradiction Hname.
  - intros s. rewrite Hsrc. destruct (src el) as [s0|]; [|discriminate].
    destruct (startsWith s0 "data:") eqn:Hdata; intros [= <-]; [reflexivity|].
    congruence.
  - apply sanitize_fixed. intros s. rewrite Hsrc.
    destruct (src el) as [s0|]; [|discriminate].
    destruct (startsWith s0 "data:") eqn:Hdata; intros [= <-]; [reflexivity|].
    congruence.
Qed.

(** ** The fenced reply *)

Lemma afterFirst_found (pat s : string) :
  String.prefix pat s = true ->
  afterFirst pat s = Some (dropChars (String.length pat) s).
Proof. intros Hp. destruct s; cbn [afterFirst]; now rewrite Hp. Qed.

Lemma beforeFirst_found (pat s : string) :
  String.prefix pat s = true -> beforeFirst pat s = Some EmptyString.
Proof. intros Hp. destruct s; cbn [beforeFirst]; now rewrite Hp. Qed.

Lemma prefix_head (a c : ascii) (p s : string) :
  Ascii.eqb a c = false -> String.prefix (String a p) (String c s) = false.
Proof.
  intros Hac. cbn [String.prefix].
  destruct (ascii_dec a c) as [->|]; [|reflexivity].
  now rewrite Ascii.eqb_refl in Hac.
Qed.

Lemma prefix_fenceOpen_head (c : ascii) (s : string) :
  Ascii.eqb backtick c = false -> String.prefix fenceOpen (String c s) = false.
Proof. apply prefix_head. Qed.

Lemma afterFirst_fenceOpen (pre rest : string) :
  occurs backtick pre = false ->
  afterFirst fenceOpen (pre ++ fenceOpen ++ rest) = Some rest.
Proof.
  induction pre as [|c pre IH]; intros Hpre.
  - change ("" ++ fenceOpen ++ rest) with (fenceOpen ++ rest).
    rewrite afterFirst_found by apply AppProps.prefix_append. reflexivity.
  - cbn [occurs] in Hpre. apply orb_false_elim in Hpre as [Hc Hpre].
    change (String c pre ++ fenceOpen ++ rest)
      with (String c (pre ++ fenceOpen ++ rest)).
    cbn [afterFirst]. rewrite prefix_fenceOpen_head by assumption. now apply IH.
Qed.

Lemma afterFirst_no_backtick (text : string) :
  occurs backtick text = false -> afterFirst fenceOpen text = None.
Proof.
  induction text as [|c text IH]; intros Htext; [reflexivity|].
  cbn [occurs] in Htext. apply orb_false_elim in Htext as [Hc Htext].
  cbn [afterFirst]. rewrite prefix_fenceOpen_head by assumption. now apply IH.
Qed.

Lemma beforeFirst_fenceClose (content post : string) :
  occurs backtick content = false ->
  beforeFirst fenceClose (content ++ fenceClose ++ post) = Some content.
Proof.
  induction content as [|c content IH]; intros Hcontent.
  - change ("" ++ fenceClose ++ post) with (fenceClose ++ post).
    apply beforeFirst_found, AppProps.prefix_append.
  - cbn [occurs] in Hcontent. apply orb_false_elim in Hcontent as [Hc Hcontent].
    change (String c content ++ fenceClose ++ post)
      with (String c (content ++ fenceClose ++ post)).
    cbn [beforeFirst].
    replace (String.prefix fenceClose (String c (content ++ fenceClose ++ post)))
      with false; [now rewrite IH|].
    change fenceClose with (String "010" (String backtick (String backtick (String backtick "")))) at 1.
    cbn [String.prefix].
    destruct (ascii_dec "010" c) as [_|]; [|reflexivity].
    destruct content as [|d content].
    + reflexivity.
    + change (String d content ++ fenceClose ++ post)
        with (String d (content ++ fenceClose ++ post)).
      cbn [occurs] in Hcontent. apply orb_false_elim in Hcontent as [Hd _].
      now rewrite prefix_head.
Qed.

Lemma matchJsonFence_fenced (pre content post : string) :
  occurs backtick pre = false -> occurs backtick content = false ->
  matchJsonFence (pre ++ fenceOpen ++ content ++ fenceClose ++ post) = Some content.
Proof.
  intros Hpre Hcontent. unfold matchJsonFence.
  rewrite afterFirst_fenceOpen by assumption.
  now apply beforeFirst_fenceClose.
Qed.

Section Service.

Variable JSON_parse : string -> JSON + string.
Variable stringifyElements : list StageElement -> string.
Variable stringifySteps : list AnimationStep -> string.
Variable newChat : Chat.

#[local] Abbreviation send :=
  (sendMessageToAI JSON_parse stringifyElements stringifySteps newChat).
#[local] Abbreviation prompt := (buildPrompt stringifyElements stringifySteps).
#[local] Abbreviation tryBlock := (GeminiService.tryBlock JSON_parse).
#[local] Abbreviation sessionOf := (GeminiService.sessionOf newChat).

(** X2. A reply that the model wrapped in a Markdown fence is read: when
    the trimmed reply is an opening fence, a text without back ticks and a
    closing fence, followed by anything, the regular expression captures
    exactly that text,
    and [sendMessageToAI] returns what [JSON.parse] makes of it (trimmed);
    a [SyntaxError] there, or an empty fenced text, comes back as the
    error response. *)
Theorem sendMessageToAI_reads_fenced_json
    (chat : option Chat) (message : string) (elements : list StageElement)
    (selected : option string) (steps : list AnimationStep)
    (promptText text content post : string) :
  trim message <> EmptyString ->
  prompt message elements selected steps = inl promptText ->
  sendMessage (sessionOf chat) promptText = Resolved text ->
  trim text = fenceOpen ++ content ++ fenceClose ++ post ->
  occurs backtick content = false ->
  matchJsonFence (trim text) = Some content /\
  snd (send chat message elements selected steps) =
  Returns (if truthy content then
             match JSON_parse (trim content) with
             | inl parsedResponse => parsedResponse
             | inr syntaxError => errorResponse (ErrorObject syntaxError)
             end
           else errorResponse invalidJsonError).
Proof.
  intros Hmessage Hprompt Hreply Htext Hcontent.
  assert (Hfence : matchJsonFence (trim text) = Some content).
  { rewrite Htext. now apply (matchJsonFence_fenced "" content post). }
  split; [exact Hfence|].
  rewrite (ServiceProps.send_not_blank _ _ _ _ _ _ _ _ _ promptText)
    by assumption.
  rewrite Hreply. unfold GeminiService.tryBlock.
  cbv zeta. rewrite Hfence.
  replace (startsWith (trim text) "{") with false
    by (rewrite Htext; reflexivity).
  cbn [negb orb]. unfold parse.
  destruct (truthy content); [|reflexivity].
  now destruct (JSON_parse (trim content)).
Qed.

(** X3. A reply that is neither an object text nor fenced is refused
    without being parsed: when the trimmed reply is not brace-delimited and
    holds no back tick, [sendMessageToAI] returns the error response with
    the message [AI did not return valid JSON.]. *)
Theorem sendMessageToAI_rejects_unfenced_text
    (chat : option Chat) (message : string) (elements : list StageElement)
    (selected : option string) (steps : list AnimationStep)
    (promptText text : string) :
  trim message <> EmptyString ->
  prompt message elements selected steps = inl promptText ->
  sendMessage (sessionOf chat) promptText = Resolved text ->
  startsWith (trim text) "{" && endsWith (trim text) "}" = false ->
  occurs backtick (trim text) = false ->
  snd (send chat message elements selected steps)
  = Returns (errorResponse invalidJsonError).
Proof.
  intros Hmessage Hprompt Hreply Hbraces Hplain.
  rewrite (ServiceProps.send_not_blank _ _ _ _ _ _ _ _ _ promptText)
    by assumption.
  rewrite Hreply. unfold GeminiService.tryBlock. cbv zeta.
  rewrite <- negb_andb, Hbraces. cbn [negb].
  unfold matchJsonFence. now rewrite afterFirst_no_backtick.
Qed.

End Service.

Lemma sendMessageToAI_reads_fenced_json_witness :
  let text := fenceOpen ++ Samples.mistypedText ++ fenceClose ++ LF in
  trim "make it spin" <> EmptyString /\
  matchJsonFence (trim text) = Some Samples.mistypedText /\
  snd (sendMessageToAI Samples.sampleParse Samples.sampleStringifyElements
         Samples.sampleStringifySteps (Samples.chatReplying text)
         None "make it spin" [] None [])
  = Returns Samples.mistypedValue.
Proof.
  assert (Hmessage : trim "make it spin" <> EmptyString) by discriminate.
  destruct (ServiceProps.prompt_cases Samples.sampleStringifyElements
              Samples.sampleStringifySteps "make it spin" [] None [])
    as [[_ [promptText Hprompt]] | [Hcannot _]]; [|discriminate Hcannot].
  destruct (sendMessageToAI_reads_fenced_json Samples.sampleParse
              Samples.sampleStringifyElements Samples.sampleStringifySteps
              (Samples.chatReplying
                 (fenceOpen ++ Samples.mistypedText ++ fenceClose ++ LF))
              None "make it spin" [] None [] promptText
              (fenceOpen ++ Samples.mistypedText ++ fenceClose ++ LF)
              Samples.mistypedText "" Hmessage Hprompt eq_refl eq_refl eq_refl)
    as [Hfence Hsend].
  split; [exact Hmessage|]. split; [exact Hfence|exact Hsend].
Defined.

Lemma sendMessageToAI_rejects_unfenced_text_witness :
  trim "make it spin" <> EmptyString /\
  snd (sendMessageToAI Samples.sampleParse Samples.sampleStringifyElements
         Samples.sampleStringifySteps (Samples.chatReplying "Sure, here you go!")
         None "make it spin" [] None [])
  = Returns (errorResponse invalidJsonError).
Proof.
  assert (Hmessage : trim "make it spin" <> EmptyString) by discriminate.
  split; [exact Hmessage|].
  destruct (ServiceProps.prompt_cases Samples.sampleStringifyElements
              Samples.sampleStringifySteps "make it spin" [] None [])
    as [[_ [promptText Hprompt]] | [Hcannot _]]; [|discriminate Hcannot].
  exact (sendMessageToAI_rejects_unfenced_text Samples.sampleParse
           Samples.sampleStringifyElements Samples.sampleStringifySteps
           (Samples.chatReplying "Sure, here you go!") None "make it spin" []
           None [] promptText "Sure, here you go!" Hmessage Hprompt
           eq_refl eq_refl eq_refl).
Defined.

Lemma sanitize_elides_data_urls_witness :
  let photo :=
    spread (App.newElementOf Image "7")
      {| p_id := None; p_type := None; p_x := None; p_y := None;
         p_width := None; p_height := None; p_rotation := None;
         p_opacity := None; p_backgroundColor := None; p_color := None;
         p_text := None; p_fontSize := None; p_fontWeight := None;
         p_src := Some "data:image/png;base64,iVBORw0KGgo=";
         p_autoplay := None; p_loop := None; p_muted := None |} in
  src (sanitize photo) = Some "data:..." /\
  property Width (sanitize photo) = Some (VString "150px") /\
  sanitize (sanitize photo) = sanitize photo.
Proof.
  intros photo.
  destruct (sanitize_elides_data_urls photo) as (Hkept & Hsrc & _ & Hagain).
  split; [exact Hsrc|]. split; [|exact Hagain].
  rewrite (Hkept Width) by discriminate. reflexivity.
Defined.

End FenceProps.

(** * Properties of the earlier service versions *)

Module EarlierServiceProps.
Import JS Json Types GeminiService.

Section Service.

Variable JSON_parse : string -> JSON + string.
Variable stringifyElements : list StageElement -> string.
Variable newChat : Chat.

#[local] Abbreviation older := (GeminiServiceEarlier.tryBlock JSON_parse).
#[local] Abbreviation newer := (GeminiService.tryBlock JSON_parse).
#[local] Abbreviation sendEarlier :=
  (GeminiServiceEarlier.sendMessageToAI JSON_parse stringifyElements newChat).

(** X4. The two-argument [sendMessageToAI] of the earlier snapshot has
    the same blank check and also never throws otherwise, but it knows no
    fences: a reply that is not brace-delimited always ends in the error
    response.  On brace-delimited replies and on rejections both versions
    do the same, so whatever the earlier one parsed the current one parses
    to the same value. *)
Theorem earlier_sendMessageToAI_has_no_fence_handling
    (chat : option Chat) (message : string) (elements : list StageElement) :
  let reply :=
    sendMessage (sessionOf newChat chat)
      (GeminiServiceEarlier.buildPrompt stringifyElements message elements) in
  let result := snd (sendEarlier chat message elements) in
  (trim message = EmptyString -> result = Throws emptyMessageError) /\
  (trim message <> EmptyString ->
     result = Returns match older reply with
                      | inl parsedResponse => parsedResponse
                      | inr error => GeminiServiceEarlier.errorResponse error
                      end) /\
  (forall parsedResponse,
     older reply = inl parsedResponse -> newer reply = inl parsedResponse) /\
  (forall text,
     reply = Resolved text ->
     startsWith (trim text) "{" && endsWith (trim text) "}" = true ->
     older reply = newer reply) /\
  (forall text,
     reply = Resolved text ->
     startsWith (trim text) "{" && endsWith (trim text) "}" = false ->
     older reply = inr invalidJsonError) /\
  (forall reason,
     reply = Rejected reason -> older reply = inr reason /\ newer reply = inr reason).
Proof.
  intros reply result. subst result.
  assert (Hbraces : forall text,
            startsWith (trim text) "{" && endsWith (trim text) "}" = true ->
            older (Resolved text) = newer (Resolved text)).
  { intros text Hb. unfold GeminiServiceEarlier.tryBlock, GeminiService.tryBlock.
    cbv zeta. rewrite <- negb_andb, Hb. reflexivity. }
  assert (Hplain : forall text,
            startsWith (trim text) "{" && endsWith (trim text) "}" = false ->
            older (Resolved text) = inr invalidJsonError).
  { intros text Hb. unfold GeminiServiceEarlier.tryBlock.
    cbv zeta. rewrite <- negb_andb, Hb. reflexivity. }
  split; [|split; [|split; [|split; [|split]]]].
  - intros Hblank. unfold GeminiServiceEarlier.sendMessageToAI.
    cbv zeta. rewrite Hblank. reflexivity.
  - intros Hmessage. unfold GeminiServiceEarlier.sendMessageToAI. cbv zeta.
    destruct (trim message) eqn:Htrim; [now contradiction Hmessage|].
    cbn [truthy String.eqb negb]. fold reply.
    now destruct (older reply).
  - intros parsedResponse. destruct reply as [text|reason]; [|discriminate].
    destruct (startsWith (trim text) "{" && endsWith (trim text) "}") eqn:Hb.
    + now rewrite (Hbraces text Hb).
    + now rewrite (Hplain text Hb).
  - intros text -> Hb. now apply Hbraces.
  - intros text -> Hb. now apply Hplain.
  - intros reason ->. now split.
Qed.

End Service.

Lemma earlier_sendMessageToAI_has_no_fence_handling_witness :
  let fenced := fenceOpen ++ Samples.mistypedText ++ fenceClose in
  snd (GeminiServiceEarlier.sendMessageToAI Samples.sampleParse
         Samples.sampleStringifyElements (Samples.chatReplying fenced)
         None "make it spin" [])
  = Returns (GeminiServiceEarlier.errorResponse invalidJsonError) /\
  snd (GeminiServiceEarlier.sendMessageToAI Samples.sampleParse
         Samples.sampleStringifyElements (Samples.chatReplying Samples.mistypedText)
         None "make it spin" [])
  = Returns Samples.mistypedValue /\
  GeminiService.tryBlock Samples.sampleParse (Resolved Samples.mistypedText)
  = inl Samples.mistypedValue /\
  snd (GeminiServiceEarlier.sendMessageToAI Samples.sampleParse
         Samples.sampleStringifyElements (Samples.chatReplying fenced)
         None "  " [])
  = Throws emptyMessageError.
Proof.
  intros fenced.
  destruct (earlier_sendMessageToAI_has_no_fence_handling Samples.sampleParse
              Samples.sampleStringifyElements (Samples.chatReplying fenced)
              None "make it spin" [])
    as (_ & Hfenced & _ & _ & _ & _).
  destruct (earlier_sendMessageToAI_has_no_fence_handling Samples.sampleParse
              Samples.sampleStringifyElements
              (Samples.chatReplying Samples.mistypedText) None "make it spin" [])
    as (_ & Hplain & Hnewer & _ & _ & _).
  destruct (earlier_sendMessageToAI_has_no_fence_handling Samples.sampleParse
              Samples.sampleStringifyElements (Samples.chatReplying fenced)
              None "  " [])
    as (Hblank & _ & _ & _ & _ & _).
  split; [|split; [|split]].
  - rewrite Hfenced by discriminate. reflexivity.
  - rewrite Hplain by discriminate. reflexivity.
  - now apply Hnewer.
  - now apply Hblank.
Defined.

End EarlierServiceProps.

(** * Properties of generateAnimationSteps *)

Module GeneratorProps.
Import JS Json Generator.

Section Generate.

Variable JSON_parse : string -> JSON + string.
Variable stringifyFormatted : list (string * Shape) -> string.
Variable generateContent : string -> ContentReply.

#[local] Abbreviation generate :=
  (generateAnimationSteps JSON_parse stringifyFormatted generateContent).

(** X5. [generateAnimationSteps] checks the instruction first and the
    elements second, each with its own error; after that it returns the
    parsed reply if and only if the request succeeded and the trimmed
    reply parsed to an array.  Every other failure (rejection,
    [SyntaxError], a value that is not an array) is rethrown with the one
    fixed message, so the caller only ever sees an array or one of three
    errors; the message [AI response is not a valid array.] never leaves
    the function. *)
Theorem generateAnimationSteps_outcomes
    (instruction : string) (elements : list StageElement) :
  let result := generate instruction elements in
  let reply := generateContent (buildPrompt stringifyFormatted instruction elements) in
  (trim instruction = EmptyString -> result = Throws emptyInstructionError) /\
  (trim instruction <> EmptyString -> elements = [] ->
     result = Throws noElementsError) /\
  (trim instruction <> EmptyString -> elements <> [] ->
     result =
     match reply with
     | Resolved text =>
         match JSON_parse (trim text) with
         | inl (JArray items) => Returns (JArray items)
         | _ => Throws generationFailedError
         end
     | Rejected _ => Throws generationFailedError
     end) /\
  (forall value, result = Returns value -> exists items, value = JArray items) /\
  (forall reason, result = Throws reason ->
     reason = emptyInstructionError \/ reason = noElementsError \/
     reason = generationFailedError).
Proof.
  intros result reply.
  assert (Hrun : trim instruction <> EmptyString -> elements <> [] ->
            result =
            match reply with
            | Resolved text =>
                match JSON_parse (trim text) with
                | inl (JArray items) => Returns (JArray items)
                | _ => Throws generationFailedError
                end
            | Rejected _ => Throws generationFailedError
            end).
  { intros Hinstruction Helements. subst result. unfold generateAnimationSteps.
    destruct (trim instruction) eqn:Htrim; [now contradiction Hinstruction|].
    cbn [truthy String.eqb negb].
    destruct elements as [|el rest]; [now contradiction Helements|].
    cbn [length Nat.eqb]. fold reply. unfold tryBlock.
    destruct reply as [text|reason]; [|reflexivity]. cbv zeta.
    destruct (JSON_parse (trim text)) as [[]|]; reflexivity. }
  assert (Hblank : trim instruction = EmptyString ->
            result = Throws emptyInstructionError).
  { intros Hb. subst result. unfold generateAnimationSteps. now rewrite Hb. }
  assert (Hnone : trim instruction <> EmptyString -> elements = [] ->
            result = Throws noElementsError).
  { intros Hinstruction ->. subst result. unfold generateAnimationSteps.
    destruct (trim instruction) eqn:Htrim; [now contradiction Hinstruction|].
    reflexivity. }
  split; [exact Hblank|]. split; [exact Hnone|]. split; [exact Hrun|].
  destruct (string_dec (trim instruction) EmptyString) as [Hb|Hinstruction].
  { rewrite (Hblank Hb). split; [discriminate|]. intros reason [= <-]. now left. }
  destruct elements as [|el rest] eqn:Helements.
  { rewrite (Hnone Hinstruction eq_refl). split; [discriminate|].
    intros reason [= <-]. right. now left. }
  rewrite (Hrun Hinstruction) by discriminate.
  destruct reply as [text|reason0].
  - destruct (JSON_parse (trim text)) as [[]|];
      (split; [try discriminate|intros reason [= <-]; right; now right]).
    intros value [= <-]. now eexists.
  - split; [discriminate|]. intros reason [= <-]. right. now right.
Qed.

End Generate.

Lemma generateAnimationSteps_outcomes_witness :
  let parse := fun s : string =>
    if String.eqb s "[]" then inl (JArray [])
    else if String.eqb s "{}" then inl (JObject [])
    else inr "Unexpected token"%string in
  let stringify := fun _ : list (string * Shape) => "[]"%string in
  let hero := mkStageElement "box-1" box "#3b82f6" 50 50 100 100 in
  generateAnimationSteps parse stringify (fun _ => Resolved " [] ") "spin it" [hero]
  = Returns (JArray []) /\
  generateAnimationSteps parse stringify (fun _ => Resolved "{}") "spin it" [hero]
  = Throws generationFailedError /\
  generateAnimationSteps parse stringify (fun _ => Resolved "[]") "spin it" []
  = Throws noElementsError /\
  generateAnimationSteps parse stringify (fun _ => Resolved "[]") "  " []
  = Throws emptyInstructionError.
Proof.
  intros parse stringify hero.
  destruct (generateAnimationSteps_outcomes parse stringify
              (fun _ => Resolved " [] ") "spin it" [hero]) as (_ & _ & Harray & _ & _).
  destruct (generateAnimationSteps_outcomes parse stringify
              (fun _ => Resolved "{}") "spin it" [hero]) as (_ & _ & Hobject & _ & _).
  destruct (generateAnimationSteps_outcomes parse stringify
              (fun _ => Resolved "[]") "spin it" []) as (_ & Hnone & _ & _ & _).
  destruct (generateAnimationSteps_outcomes parse stringify
              (fun _ => Resolved "[]") "  " []) as (Hblank & _ & _ & _ & _).
  split; [|split; [|split]].
  - rewrite Harray by discriminate. reflexivity.
  - rewrite Hobject by discriminate. reflexivity.
  - apply Hnone; [discriminate|reflexivity].
  - now apply Hblank.
Defined.

End GeneratorProps.

(** * Properties of the element handlers *)

Module ElementProps.
Import JS Json Types App Invariants.
Local Open Scope list_scope.

(** ** removeElement *)

Lemma filter_ids_sublist (p : StageElement -> bool) (l : list StageElement) :
  sublist (id <$> List.filter p l) (id <$> l).
Proof.
  induction l as [|el l IH]; [constructor|].
  cbn [List.filter]. destruct (p el); cbn [fmap list_fmap].
  - now apply sublist_skip.
  - now apply sublist_cons.
Qed.

Lemma filter_sublist {A : Type} (p : A -> bool) (l : list A) :
  sublist (List.filter p l) l.
Proof.
  induction l as [|a l IH]; [constructor|].
  cbn [List.filter]. destruct (p a).
  - now apply sublist_skip.
  - now apply sublist_cons.
Qed.

Lemma elem_of_filter_ids (elementId i : string) (l : list StageElement) :
  i ∈ id <$> List.filter (fun el => negb (String.eqb (id el) elementId)) l <->
  i ∈ id <$> l /\ i <> elementId.
Proof.
  rewrite !list_elem_of_fmap. split.
  - intros (el & -> & Hel). apply list_elem_of_In, filter_In in Hel as [Hel Hne].
    apply negb_true_iff, String.eqb_neq in Hne.
    split; [|assumption]. exists el. split; [reflexivity|]. now apply list_elem_of_In.
  - intros [(el & -> & Hel) Hne]. exists el. split; [reflexivity|].
    apply list_elem_of_In, filter_In. split; [now apply list_elem_of_In|].
    now apply negb_true_iff, String.eqb_neq.
Qed.

Lemma removeElement_elements (elementId : string) (s : AppState) :
  elements (removeElement elementId s) =
  List.filter (fun el => negb (String.eqb (id el) elementId)) (elements s).
Proof.
  unfold removeElement. destruct (selectedElementId s) as [selected|]; [|reflexivity].
  now destruct (String.eqb selected elementId).
Qed.

Lemma removeElement_selection (elementId : string) (s : AppState) :
  selectedElementId (removeElement elementId s) =
  match selectedElementId s with
  | Some selected => if String.eqb selected elementId then None else Some selected
  | None => None
  end.
Proof.
  unfold removeElement. destruct (selectedElementId s) as [selected|] eqn:Hs.
  - destruct (String.eqb selected elementId); [reflexivity|exact Hs].
  - exact Hs.
Qed.

(** X6. [removeElement] removes every element with the given id and
    nothing else: the id is gone, the others stay in their order, and an
    id that is not on the stage leaves the list as it is.  The selection
    is cleared exactly when it was the removed id.  The animation steps
    are not touched, so steps that target the removed element stay in the
    timeline. *)
Theorem removeElement_removes_every_match (elementId : string) (s : AppState) :
  let s' := removeElement elementId s in
  (elementId ∉ id <$> elements s') /\
  (forall el, el ∈ elements s' <-> el ∈ elements s /\ id el <> elementId) /\
  sublist (elements s') (elements s) /\
  (elementId ∉ id <$> elements s -> elements s' = elements s) /\
  selectedElementId s' =
    match selectedElementId s with
    | Some selected => if String.eqb selected elementId then None else Some selected
    | None => None
    end /\
  animationSteps s' = animationSteps s.
Proof.
  intros s'. subst s'.
  split; [|split; [|split; [|split; [|split]]]].
  - rewrite removeElement_elements, elem_of_filter_ids. now intros [_ Hne].
  - intros el. rewrite removeElement_elements.
    rewrite list_elem_of_In, filter_In, <- list_elem_of_In.
    now rewrite negb_true_iff, String.eqb_neq.
  - rewrite removeElement_elements. apply filter_sublist.
  - intros Habsent. rewrite removeElement_elements.
    induction (elements s) as [|el l IH]; [reflexivity|].
    cbn [List.filter]. cbn [fmap list_fmap] in Habsent.
    apply not_elem_of_cons in Habsent as [Hne Habsent].
    apply not_eq_sym, String.eqb_neq in Hne. rewrite Hne. cbn [negb].
    now rewrite IH.
  - apply removeElement_selection.
  - unfold removeElement. destruct (selectedElementId s) as [selected|]; [|reflexivity].
    now destruct (String.eqb selected elementId).
Qed.

(** ** updateElement *)

Lemma over_again {A : Type} (newer : option A) (older : A) :
  over newer (over newer older) = over newer older.
Proof. now destruct newer. Qed.

Lemma overOpt_again {A : Type} (newer older : option A) :
  overOpt newer (overOpt newer older) = overOpt newer older.
Proof. now destruct newer. Qed.

Lemma spread_again (el : StageElement) (newProps : PartialStageElement) :
  spread (spread el newProps) newProps = spread el newProps.
Proof.
  unfold spread. cbn [id type x y width height rotation opacity backgroundColor
    color text fontSize fontWeight src autoplay loop muted].
  now rewrite !over_again, !overOpt_again.
Qed.

Lemma spread_keeps_id (el : StageElement) (newProps : PartialStageElement) :
  p_id newProps = None -> id (spread el newProps) = id el.
Proof. intros Hid. unfold spread. cbn [id]. now rewrite Hid. Qed.

Lemma updateElement_elements (elementId : string) (newProps : PartialStageElement)
    (s : AppState) :
  elements (updateElement elementId newProps s) =
  (fun el => if String.eqb (id el) elementId then spread el newProps else el)
  <$> elements s.
Proof. reflexivity. Qed.

Lemma map_update_ids (elementId : string) (newProps : PartialStageElement)
    (l : list StageElement) :
  p_id newProps = None ->
  id <$> ((fun el => if String.eqb (id el) elementId then spread el newProps else el)
          <$> l) = id <$> l.
Proof.
  intros Hid. rewrite <- list_fmap_compose. apply list_fmap_ext.
  intros i el _. cbn. destruct (String.eqb (id el) elementId); [|reflexivity].
  now apply spread_keeps_id.
Qed.

Lemma map_update_again (elementId : string) (newProps : PartialStageElement)
    (l : list StageElement) :
  p_id newProps = None ->
  let update := fun el => if String.eqb (id el) elementId
                          then spread el newProps else el in
  update <$> (update <$> l) = update <$> l.
Proof.
  intros Hid update. rewrite <- list_fmap_compose. apply list_fmap_ext.
  intros i el _. cbn. unfold update.
  destruct (String.eqb (id el) elementId) eqn:Hel; [|now rewrite Hel].
  rewrite spread_keeps_id, Hel by assumption. apply spread_again.
Qed.

(** X7. [updateElement] (and [updateElementPosition]) spreads the new
    properties over every element with the given id, in place, and changes
    nothing else; an id that is not on the stage changes nothing at all.
    When the new properties carry no id, the ids stay as they are and
    applying the same update again changes nothing. *)
Theorem updateElement_spreads_over_matches
    (elementId : string) (newProps : PartialStageElement) (s : AppState) :
  let s' := updateElement elementId newProps s in
  length (elements s') = length (elements s) /\
  (forall i el,
     elements s !! i = Some el ->
     elements s' !! i =
     Some (if String.eqb (id el) elementId then spread el newProps else el)) /\
  selectedElementId s' = selectedElementId s /\
  animationSteps s' = animationSteps s /\
  (elementId ∉ id <$> elements s -> s' = s) /\
  (p_id newProps = None ->
     id <$> elements s' = id <$> elements s /\
     updateElement elementId newProps s' = s').
Proof.
  intros s'. subst s'.
  split; [|split; [|split; [|split; [|split]]]].
  - rewrite updateElement_elements. apply length_fmap.
  - intros i el Hel. rewrite updateElement_elements, list_lookup_fmap, Hel.
    reflexivity.
  - reflexivity.
  - reflexivity.
  - intros Habsent.
    assert (Hsame : elements (updateElement elementId newProps s) = elements s).
    { rewrite updateElement_elements.
      rewrite <- (list_fmap_id (elements s)) at 2. apply list_fmap_ext.
      intros i el Hel. cbn.
      destruct (String.eqb (id el) elementId) eqn:Heq; [|reflexivity].
      apply String.eqb_eq in Heq. contradiction Habsent.
      rewrite <- Heq. apply list_elem_of_fmap. exists el.
      split; [reflexivity|]. now apply (list_elem_of_lookup_2 _ i). }
    unfold updateElement, setElements in *. cbn [elements] in Hsame.
    rewrite Hsame. now destruct s.
  - intros Hid. split.
    + rewrite updateElement_elements. now apply map_update_ids.
    + unfold updateElement, setElements.
      cbn [elements selectedElementId animationSteps isLoading chatHistory
           canvasSettings theme isLeftPanelCollapsed isRightPanelCollapsed
           isScrollPreview input dragItem dragOverItem localStorage
           pendingRequests].
      f_equal. now apply map_update_again.
Qed.

Lemma updateElement_spreads_over_matches_witness :
  let s' := updateElement "box-1" (props Samples.moveBox) Samples.stateWithTwo in
  id <$> elements s' = ["box-1"; "circle-2"] /\
  x <$> elements s' = [200 # 1; 50 # 1] /\
  updateElement "box-1" (props Samples.moveBox) s' = s' /\
  updateElement "ghost" (props Samples.hideGhost) Samples.stateWithTwo
  = Samples.stateWithTwo.
Proof.
  intros s'.
  destruct (updateElement_spreads_over_matches "box-1" (props Samples.moveBox)
              Samples.stateWithTwo) as (_ & Hat & _ & _ & _ & Hkept).
  destruct (Hkept eq_refl) as [Hids Hagain].
  destruct (updateElement_spreads_over_matches "ghost" (props Samples.hideGhost)
              Samples.stateWithTwo) as (_ & _ & _ & _ & Habsent & _).
  split; [exact Hids|]. split; [reflexivity|]. split; [exact Hagain|].
  apply Habsent. vm_compute. intros Hin. 
  repeat (apply elem_of_cons in Hin as [Hin|Hin]; [discriminate Hin|]).
  now apply elem_of_nil in Hin.
Defined.

Lemma removeElement_removes_every_match_witness :
  let s' := removeElement "circle-2" Samples.stateWithTwo in
  id <$> elements s' = ["box-1"] /\
  ("circle-2" ∉ id <$> elements s') /\
  selectedElementId Samples.stateWithTwo = Some "circle-2" /\
  selectedElementId s' = None.
Proof.
  intros s'.
  destruct (removeElement_removes_every_match "circle-2" Samples.stateWithTwo)
    as (Hgone & _ & _ & _ & Hselection & _).
  split; [reflexivity|]. split; [exact Hgone|]. split; [reflexivity|].
  unfold s'. rewrite Hselection. reflexivity.
Defined.

End ElementProps.

(** * Properties of a reply *)

Module ReplyProps.
Import JS Json Types App Invariants.
Local Open Scope list_scope.

(** ** What a reply changes *)

Lemma resume_elements (aiResponse : AIResponse) (s : AppState) :
  elements (handleSendMessage_resume aiResponse s) =
  match modified_elements aiResponse with
  | Some modifications =>
      if String.eqb (response_type aiResponse) "element_modification"
      then applyModifications modifications (elements s)
      else match new_elements aiResponse with
           | Some newElements =>
               if String.eqb (response_type aiResponse) "element_creation"
               then elements s ++ newElements else elements s
           | None => elements s
           end
  | None =>
      match new_elements aiResponse with
      | Some newElements =>
          if String.eqb (response_type aiResponse) "element_creation"
          then elements s ++ newElements else elements s
      | None => elements s
      end
  end.
Proof.
  unfold handleSendMessage_resume.
  destruct (JS.truthy (explanation aiResponse));
    destruct (animation_steps aiResponse) as [steps|];
    try destruct (String.eqb (response_type aiResponse) "animation" &&
                  (0 <? length steps)%nat);
    destruct (modified_elements aiResponse) as [mods|];
    destruct (new_elements aiResponse) as [news|];
    destruct (String.eqb (response_type aiResponse) "element_modification") eqn:Hm;
    destruct (String.eqb (response_type aiResponse) "element_creation") eqn:Hc;
    try reflexivity;
    apply String.eqb_eq in Hm; apply String.eqb_eq in Hc; congruence.
Qed.

Lemma resume_chatHistory (aiResponse : AIResponse) (s : AppState) :
  chatHistory (handleSendMessage_resume aiResponse s) =
  chatHistory s ++
  (if JS.truthy (explanation aiResponse)
   then [mkMessage Model (explanation aiResponse)] else []).
Proof.
  unfold handleSendMessage_resume.
  destruct (JS.truthy (explanation aiResponse));
    destruct (animation_steps aiResponse) as [steps|];
    try destruct (String.eqb (response_type aiResponse) "animation" &&
                  (0 <? length steps)%nat);
    destruct (modified_elements aiResponse) as [mods|];
    destruct (new_elements aiResponse) as [news|];
    destruct (String.eqb (response_type aiResponse) "element_modification");
    destruct (String.eqb (response_type aiResponse) "element_creation");
    cbn; try rewrite app_nil_r; reflexivity.
Qed.

Lemma resume_untouched (aiResponse : AIResponse) (s : AppState) :
  let s' := handleSendMessage_resume aiResponse s in
  selectedElementId s' = selectedElementId s /\
  canvasSettings s' = canvasSettings s /\
  theme s' = theme s /\
  input s' = input s /\
  localStorage s' = localStorage s /\
  pendingRequests s' = pendingRequests s /\
  isLoading s' = false.
Proof.
  unfold handleSendMessage_resume.
  destruct (JS.truthy (explanation aiResponse));
    destruct (animation_steps aiResponse) as [steps|];
    try destruct (String.eqb (response_type aiResponse) "animation" &&
                  (0 <? length steps)%nat);
    destruct (modified_elements aiResponse) as [mods|];
    destruct (new_elements aiResponse) as [news|];
    destruct (String.eqb (response_type aiResponse) "element_modification");
    destruct (String.eqb (response_type aiResponse) "element_creation");
    cbn; repeat split.
Qed.

Lemma reply_frame (awaited : option AIResponse) (s : AppState) :
  let s' := handleSendMessage_settle awaited s in
  isLoading s' = false /\ input s' = input s /\
  pendingRequests s' = pendingRequests s.
Proof.
  destruct awaited as [aiResponse|]; [|now repeat split].
  destruct (resume_untouched aiResponse s) as (_ & _ & _ & Hinput & _ & Hpending & Hloading).
  now repeat split.
Qed.

(** X8. What the second half of [handleSendMessage] can change, for a
    response of the declared shape and for [null].  It always lowers the
    loading flag and never touches the selection, the canvas settings, the
    theme, the input or the storage.  The chat gains one model line or
    none: the explanation of the response, nothing when that is empty,
    and the fixed apology of the [catch] clause when the response is
    [null], on which the first read throws.  A [null] response changes
    neither elements nor steps.  An [element_creation] response appends its
    elements after the existing ones and leaves the steps alone; a
    response of any type other than creation and modification (an error
    or a clarification, say), or one whose array is missing, leaves the
    elements as they are. *)
Theorem reply_changes_only_what_it_names
    (awaited : option AIResponse) (s : AppState) :
  let s' := handleSendMessage_settle awaited s in
  isLoading s' = false /\
  selectedElementId s' = selectedElementId s /\
  canvasSettings s' = canvasSettings s /\
  theme s' = theme s /\
  input s' = input s /\
  localStorage s' = localStorage s /\
  chatHistory s' =
    chatHistory s ++
    match awaited with
    | Some aiResponse =>
        if JS.truthy (explanation aiResponse)
        then [mkMessage Model (explanation aiResponse)] else []
    | None => [mkMessage Model applyFailedMessage]
    end /\
  (awaited = None ->
     elements s' = elements s /\ animationSteps s' = animationSteps s) /\
  (forall aiResponse newElements,
     awaited = Some aiResponse ->
     response_type aiResponse = "element_creation" ->
     new_elements aiResponse = Some newElements ->
     elements s' = elements s ++ newElements /\
     animationSteps s' = animationSteps s) /\
  (forall aiResponse,
     awaited = Some aiResponse ->
     response_type aiResponse <> "element_creation" ->
     response_type aiResponse <> "element_modification" ->
     elements s' = elements s) /\
  (forall aiResponse,
     awaited = Some aiResponse ->
     response_type aiResponse = "element_creation" ->
     new_elements aiResponse = None -> elements s' = elements s) /\
  (forall aiResponse,
     awaited = Some aiResponse ->
     response_type aiResponse = "element_modification" ->
     modified_elements aiResponse = None -> elements s' = elements s).
Proof.
  intros s'. subst s'. destruct awaited as [aiResponse|].
  - cbn [handleSendMessage_settle].
    destruct (resume_untouched aiResponse s)
      as (Hselection & Hcanvas & Htheme & Hinput & Hstorage & _ & Hloading).
    split; [exact Hloading|]. split; [exact Hselection|]. split; [exact Hcanvas|].
    split; [exact Htheme|]. split; [exact Hinput|]. split; [exact Hstorage|].
    split; [apply resume_chatHistory|].
    split; [discriminate|].
    split; [|split; [|split]].
    + intros r newElements [= <-] Htype Hnew. split.
      * rewrite resume_elements, Hnew, Htype.
        now destruct (modified_elements aiResponse).
      * rewrite AppProps.resume_animationSteps, Htype.
        now destruct (animation_steps aiResponse).
    + intros r [= <-] Hcreation Hmodification. rewrite resume_elements.
      apply String.eqb_neq in Hcreation, Hmodification.
      rewrite Hcreation, Hmodification.
      now destruct (modified_elements aiResponse), (new_elements aiResponse).
    + intros r [= <-] Htype Hnone. rewrite resume_elements, Hnone, Htype.
      now destruct (modified_elements aiResponse).
    + intros r [= <-] Htype Hnone. rewrite resume_elements, Hnone, Htype.
      now destruct (new_elements aiResponse).
  - cbn [handleSendMessage_settle].
    repeat (split; [reflexivity || (intros; discriminate) || now intros|]).
    intros; discriminate.
Qed.

(** ** A modification reply and the property panel *)

Lemma applyModification_map (l : list StageElement) (m : ElementModification) :
  NoDup (id <$> l) ->
  applyModification l m =
  (fun el => if String.eqb (id el) (mod_id m) then spread el (props m) else el)
  <$> l.
Proof.
  intros Hdistinct. apply list_eq. intros i.
  rewrite list_lookup_fmap.
  destruct (l !! i) as [el|] eqn:Hel; cbn.
  - destruct (String.eqb (id el) (mod_id m)) eqn:Hid.
    + apply String.eqb_eq in Hid. now apply AppProps.applyModification_hit.
    + apply String.eqb_neq in Hid. now apply AppProps.applyModification_other.
  - apply lookup_ge_None. rewrite AppProps.applyModification_length.
    now apply lookup_ge_None.
Qed.

Lemma edits_applyModifications (mods : list ElementModification) (s : AppState) :
  NoDup (id <$> elements s) ->
  Forall (fun m => p_id (props m) = None) mods ->
  elements (fold_left (fun st m => updateElement (mod_id m) (props m) st) mods s)
  = applyModifications mods (elements s).
Proof.
  revert s. induction mods as [|m mods IH]; intros s Hdistinct Hmods.
  - reflexivity.
  - apply Forall_cons in Hmods as [Hm Hmods].
    cbn [fold_left]. unfold applyModifications. cbn [fold_left].
    rewrite IH; [|rewrite ElementProps.updateElement_elements|assumption].
    + rewrite ElementProps.updateElement_elements.
      now rewrite <- applyModification_map.
    + now rewrite ElementProps.map_update_ids.
Qed.

(** X9. On a stage with pairwise distinct ids, an [element_modification]
    reply whose entries list no id does to the elements exactly what the
    same edits made one after the other through [updateElement] do, and it
    keeps the ids distinct. *)
Theorem modification_reply_equals_property_edits
    (aiResponse : AIResponse) (s : AppState) (mods : list ElementModification) :
  response_type aiResponse = "element_modification" ->
  modified_elements aiResponse = Some mods ->
  NoDup (id <$> elements s) ->
  Forall (fun m => p_id (props m) = None) mods ->
  elements (handleSendMessage_resume aiResponse s) =
  elements (fold_left (fun st m => updateElement (mod_id m) (props m) st) mods s) /\
  NoDup (id <$> elements (handleSendMessage_resume aiResponse s)).
Proof.
  intros Htype Hmods Hdistinct Hprops.
  rewrite (AppProps.resume_elements_modification aiResponse s mods Htype Hmods).
  split.
  - symmetry. now apply edits_applyModifications.
  - now rewrite AppProps.applyModifications_ids.
Qed.

Lemma modification_reply_equals_property_edits_witness :
  NoDup (id <$> elements Samples.stateWithTwo) /\
  elements (handleSendMessage_resume Samples.modificationReply Samples.stateWithTwo)
  = elements (updateElement "ghost" (props Samples.hideGhost)
                (updateElement "box-1" (props Samples.moveBox) Samples.stateWithTwo)).
Proof.
  assert (Hdistinct : NoDup (id <$> elements Samples.stateWithTwo)).
  { apply (bool_decide_unpack _). now vm_compute. }
  assert (Hprops : Forall (fun m => p_id (props m) = None)
                     [Samples.moveBox; Samples.hideGhost]).
  { repeat constructor. }
  destruct (modification_reply_equals_property_edits Samples.modificationReply
              Samples.stateWithTwo [Samples.moveBox; Samples.hideGhost]
              eq_refl eq_refl Hdistinct Hprops) as [Hedits _].
  split; [exact Hdistinct|exact Hedits].
Defined.

Lemma reply_changes_only_what_it_names_witness :
  let created :=
    {| response_type := "element_creation";
       explanation := "Added a circle.";
       new_elements := Some [newElementOf Circle "9"];
       modified_elements := None;
       animation_steps := None;
       error_message := None |} in
  let s' := handleSendMessage_settle (Some created) Samples.stateWithStep in
  let failed := handleSendMessage_settle None Samples.stateWithStep in
  id <$> elements s' = ["box-1"; "circle-9"] /\
  animationSteps s' = [Samples.spinStep] /\
  selectedElementId s' = Some "box-1" /\
  elements failed = [Samples.box1] /\
  chatHistory failed = [mkMessage Model greeting; mkMessage Model applyFailedMessage] /\
  isLoading failed = false.
Proof.
  intros created s' failed.
  destruct (reply_changes_only_what_it_names (Some created) Samples.stateWithStep)
    as (_ & Hselection & _ & _ & _ & _ & _ & _ & Hcreation & _).
  destruct (Hcreation created [newElementOf Circle "9"] eq_refl eq_refl eq_refl)
    as [Hels Hsteps].
  destruct (reply_changes_only_what_it_names None Samples.stateWithStep)
    as (Hloading & _ & _ & _ & _ & _ & Hchat & Hnull & _).
  destruct (Hnull eq_refl) as [Hsame _].
  unfold s'. rewrite Hels, Hsteps, Hselection.
  split; [reflexivity|]. split; [reflexivity|]. split; [reflexivity|].
  unfold failed. rewrite Hsame, Hchat, Hloading.
  split; [reflexivity|]. split; reflexivity.
Defined.

End ReplyProps.

(** * The earlier handleSendMessage *)

Module EarlierAppProps.
Import JS Json Types App.
Local Open Scope list_scope.

Section Gsap.

Variable tlTo : AnimationStep -> Vars.

Lemma earlier_animationSteps (aiResponse : AIResponse) (s : AppState) :
  animationSteps (AppEarlier.handleSendMessage_resume tlTo aiResponse s) =
  match animation_steps aiResponse with
  | Some steps =>
      if String.eqb (response_type aiResponse) "animation"
      then touched tlTo <$> steps else []
  | None => []
  end.
Proof.
  unfold AppEarlier.handleSendMessage_resume.
  destruct (animation_steps aiResponse) as [steps|];
    [destruct (String.eqb (response_type aiResponse) "animation")|]; reflexivity.
Qed.

Lemma earlier_elements (aiResponse : AIResponse) (s : AppState) :
  elements (AppEarlier.handleSendMessage_resume tlTo aiResponse s) =
  match modified_elements aiResponse with
  | Some modifications =>
      if String.eqb (response_type aiResponse) "element_modification"
      then AppEarlier.modifyElements modifications (elements s)
      else match new_elements aiResponse with
           | Some newElements =>
               if String.eqb (response_type aiResponse) "element_creation"
               then elements s ++ newElements else elements s
           | None => elements s
           end
  | None =>
      match new_elements aiResponse with
      | Some newElements =>
          if String.eqb (response_type aiResponse) "element_creation"
          then elements s ++ newElements else elements s
      | None => elements s
      end
  end.
Proof.
  unfold AppEarlier.handleSendMessage_resume.
  destruct (JS.truthy (explanation aiResponse));
    destruct (animation_steps aiResponse) as [steps|];
    try destruct (String.eqb (response_type aiResponse) "animation");
    destruct (modified_elements aiResponse) as [mods|];
    destruct (new_elements aiResponse) as [news|];
    destruct (String.eqb (response_type aiResponse) "element_modification") eqn:Hm;
    destruct (String.eqb (response_type aiResponse) "element_creation") eqn:Hc;
    try reflexivity;
    apply String.eqb_eq in Hm; apply String.eqb_eq in Hc; congruence.
Qed.

Lemma earlier_chatHistory (aiResponse : AIResponse) (s : AppState) :
  chatHistory (AppEarlier.handleSendMessage_resume tlTo aiResponse s) =
  chatHistory s ++
  (if JS.truthy (explanation aiResponse)
   then [mkMessage Model (explanation aiResponse)] else []).
Proof.
  unfold AppEarlier.handleSendMessage_resume.
  destruct (JS.truthy (explanation aiResponse));
    destruct (animation_steps aiResponse) as [steps|];
    try destruct (String.eqb (response_type aiResponse) "animation");
    destruct (modified_elements aiResponse) as [mods|];
    destruct (new_elements aiResponse) as [news|];
    destruct (String.eqb (response_type aiResponse) "element_modification");
    destruct (String.eqb (response_type aiResponse) "element_creation");
    cbn; try rewrite app_nil_r; reflexivity.
Qed.

Lemma find_modification (mods : list ElementModification) (i : string) :
  match List.find (fun m => String.eqb (mod_id m) i) mods with
  | Some m => m ∈ mods /\ mod_id m = i
  | None => i ∉ mod_id <$> mods
  end.
Proof.
  induction mods as [|m mods IH]; cbn [List.find].
  - apply not_elem_of_nil.
  - destruct (String.eqb (mod_id m) i) eqn:Hm.
    + apply String.eqb_eq in Hm. split; [apply list_elem_of_here|assumption].
    + apply String.eqb_neq in Hm.
      destruct (List.find (fun m => String.eqb (mod_id m) i) mods) as [m'|].
      * destruct IH as [Hin Hid]. split; [now apply list_elem_of_further|assumption].
      * cbn [fmap list_fmap]. apply not_elem_of_cons. split; [congruence|assumption].
Qed.

Lemma modifyElements_applyModifications
    (mods : list ElementModification) (l : list StageElement) :
  NoDup (id <$> l) -> NoDup (mod_id <$> mods) ->
  Forall (fun m => p_id (props m) = None) mods ->
  AppEarlier.modifyElements mods l = applyModifications mods l.
Proof.
  intros Hdistinct Hmods Hprops. apply list_eq. intros i.
  unfold AppEarlier.modifyElements.
  change (List.map ?f l) with (f <$> l). rewrite list_lookup_fmap.
  destruct (l !! i) as [el|] eqn:Hel; cbn.
  - pose proof (find_modification mods (id el)) as Hfind.
    destruct (List.find (fun m => String.eqb (mod_id m) (id el)) mods) as [m|].
    + destruct Hfind as [Hin Hid]. symmetry.
      now apply (AppProps.applyModifications_listed mods l i el m).
    + symmetry. now apply AppProps.applyModifications_unlisted.
  - symmetry. apply lookup_ge_None. rewrite AppProps.applyModifications_length.
    now apply lookup_ge_None.
Qed.

(** X10. The earlier [handleSendMessage] (src/App.tsx) against the
    current one, after the same reply from the same state.  The earlier
    one replaces the steps by those of an [animation] reply and clears
    them on any other reply; it hands each stored step to [tl.to] in the
    same handler, so what it stores are the steps as GSAP has left them,
    with the targets and positions received.  The current one keeps the
    steps it has and appends the received ones as they are.  The chat
    lines are the same.  The elements are the same unless the reply is a
    modification, and then too when ids are pairwise distinct on the
    stage and among the entries and no entry lists an id. *)
Theorem earlier_handleSendMessage_replaces_steps
    (aiResponse : AIResponse) (s : AppState) :
  let older := AppEarlier.handleSendMessage_resume tlTo aiResponse s in
  let newer := App.handleSendMessage_resume aiResponse s in
  let received :=
    match animation_steps aiResponse with
    | Some steps =>
        if String.eqb (response_type aiResponse) "animation" then steps else []
    | None => []
    end in
  animationSteps older = touched tlTo <$> received /\
  target <$> animationSteps older = target <$> received /\
  position <$> animationSteps older = position <$> received /\
  animationSteps newer = animationSteps s ++ received /\
  chatHistory older = chatHistory newer /\
  (response_type aiResponse <> "element_modification" ->
   elements older = elements newer) /\
  (forall mods,
     modified_elements aiResponse = Some mods ->
     NoDup (id <$> elements s) -> NoDup (mod_id <$> mods) ->
     Forall (fun m => p_id (props m) = None) mods ->
     elements older = elements newer).
Proof.
  intros older newer received. subst older newer.
  assert (Holder : animationSteps
                     (AppEarlier.handleSendMessage_resume tlTo aiResponse s)
                   = touched tlTo <$> received).
  { rewrite earlier_animationSteps. unfold received.
    destruct (animation_steps aiResponse) as [steps|]; [|reflexivity].
    now destruct (String.eqb (response_type aiResponse) "animation"). }
  split; [exact Holder|]. rewrite Holder.
  split; [now rewrite <- list_fmap_compose|].
  split; [now rewrite <- list_fmap_compose|].
  split; [|split; [|split]].
  - rewrite AppProps.resume_animationSteps. unfold received.
    destruct (animation_steps aiResponse) as [steps|]; [|now rewrite app_nil_r].
    destruct (String.eqb (response_type aiResponse) "animation");
      [|now rewrite app_nil_r].
    destruct steps; [now rewrite app_nil_r|reflexivity].
  - now rewrite earlier_chatHistory, ReplyProps.resume_chatHistory.
  - intros Htype. apply String.eqb_neq in Htype.
    rewrite earlier_elements, ReplyProps.resume_elements, Htype. reflexivity.
  - intros mods Hmods Hdistinct Hentries Hprops.
    rewrite earlier_elements, ReplyProps.resume_elements, Hmods.
    destruct (String.eqb (response_type aiResponse) "element_modification");
      [|reflexivity].
    now apply modifyElements_applyModifications.
Qed.

End Gsap.

Lemma earlier_handleSendMessage_replaces_steps_witness :
  animationSteps
    (AppEarlier.handleSendMessage_resume Samples.sampleTlTo Samples.animationReply
       Samples.stateWithStep)
  = [touched Samples.sampleTlTo Samples.fadeStep] /\
  animationSteps
    (App.handleSendMessage_resume Samples.animationReply Samples.stateWithStep)
  = [Samples.spinStep; Samples.fadeStep] /\
  animationSteps
    (AppEarlier.handleSendMessage_resume Samples.sampleTlTo
       Samples.clarificationReply Samples.stateWithStep)
  = [] /\
  elements
    (AppEarlier.handleSendMessage_resume Samples.sampleTlTo
       Samples.modificationReply Samples.stateWithTwo)
  = elements
      (App.handleSendMessage_resume Samples.modificationReply Samples.stateWithTwo).
Proof.
  destruct (earlier_handleSendMessage_replaces_steps Samples.sampleTlTo
              Samples.animationReply Samples.stateWithStep)
    as (Holder & _ & _ & Hnewer & _ & _ & _).
  destruct (earlier_handleSendMessage_replaces_steps Samples.sampleTlTo
              Samples.clarificationReply Samples.stateWithStep)
    as (Hcleared & _).
  destruct (earlier_handleSendMessage_replaces_steps Samples.sampleTlTo
              Samples.modificationReply Samples.stateWithTwo)
    as (_ & _ & _ & _ & _ & _ & Hsame).
  split; [exact Holder|]. split; [exact Hnewer|].
  split; [exact Hcleared|].
  apply (Hsame [Samples.moveBox; Samples.hideGhost] eq_refl).
  - apply (bool_decide_unpack _). now vm_compute.
  - apply (bool_decide_unpack _). now vm_compute.
  - repeat constructor.
Defined.

End EarlierAppProps.

(** * Properties of the chat *)

Module ChatProps.
Import JS Json Types App AppProps.
Local Open Scope list_scope.

Lemma handleSend_chatHistory (s : AppState) :
  handleSend s = s \/
  (JS.truthy (trim (input s)) = true /\ isLoading s = false /\
   chatHistory (handleSend s) = chatHistory s ++ [mkMessage User (input s)] /\
   input (handleSend s) = "" /\
   elements (handleSend s) = elements s /\
   animationSteps (handleSend s) = animationSteps s).
Proof.
  unfold handleSend.
  destruct (JS.truthy (trim (input s))) eqn:Hinput; [|now left].
  destruct (isLoading s) eqn:Hloading; [now left|]. right.
  unfold handleSendMessage_begin. rewrite Hinput. cbn [negb].
  destruct (forallb serializableStep (animationSteps s)); now repeat split.
Qed.

Lemma settle_chatHistory (awaited : option AIResponse) (s : AppState) :
  chatHistory (handleSendMessage_settle awaited s) =
  chatHistory s ++
  match awaited with
  | Some aiResponse =>
      if JS.truthy (explanation aiResponse)
      then [mkMessage Model (explanation aiResponse)] else []
  | None => [mkMessage Model applyFailedMessage]
  end.
Proof.
  destruct awaited as [aiResponse|]; [|reflexivity].
  apply ReplyProps.resume_chatHistory.
Qed.

Lemma dispatch_chatHistory (ev : Event) (s s' : AppState) :
  dispatch ev s = Some s' ->
  chatHistory s' = chatHistory s \/
  (ev = Send /\ JS.truthy (trim (input s)) = true /\
   chatHistory s' = chatHistory s ++ [mkMessage User (input s)]) \/
  (exists aiResponse,
     ev = Reply (Some aiResponse) /\ explanation aiResponse <> "" /\
     chatHistory s' = chatHistory s ++ [mkMessage Model (explanation aiResponse)]) \/
  (ev = Reply None /\
   chatHistory s' = chatHistory s ++ [mkMessage Model applyFailedMessage]).
Proof.
  intros Hd. destruct ev.
  all: try (left; dispatched Hd; handlers; branches; reflexivity).
  - (* Send *)
    dispatched Hd.
    destruct (handleSend_chatHistory s) as [-> | (Hinput & _ & Hchat & _)].
    + now left.
    + right. left. now repeat split.
  - (* Reply *)
    cbv beta iota delta [dispatch] in Hd.
    destruct (pendingRequests s) as [|request rest] eqn:Hpending; [discriminate|].
    injection Hd as <-. rewrite settle_chatHistory.
    cbn [chatHistory setPendingRequests].
    destruct aiResponse as [aiResponse|].
    + destruct (JS.truthy (explanation aiResponse)) eqn:Hexplanation.
      * right. right. left. exists aiResponse.
        split; [reflexivity|]. split; [|reflexivity].
        intros Hempty. rewrite Hempty in Hexplanation. discriminate.
      * left. apply app_nil_r.
    + right. right. right. now split.
Qed.

(** X11. The chat history only grows.  One event leaves it alone or adds
    one line at the end: the user's line (the input as typed) on a
    [handleSend] that passes its guard, the model's explanation on a
    response with a non-empty explanation, the fixed apology of the
    [catch] clause on a [null] response.  So after any run the old history
    is a prefix of the new one, and in every state the application can
    reach the first line is the greeting. *)
Theorem chat_history_only_grows :
  (forall ev s s',
     dispatch ev s = Some s' ->
     chatHistory s' = chatHistory s \/
     (ev = Send /\ JS.truthy (trim (input s)) = true /\
      chatHistory s' = chatHistory s ++ [mkMessage User (input s)]) \/
     (exists aiResponse,
        ev = Reply (Some aiResponse) /\ explanation aiResponse <> "" /\
        chatHistory s' =
        chatHistory s ++ [mkMessage Model (explanation aiResponse)]) \/
     (ev = Reply None /\
      chatHistory s' = chatHistory s ++ [mkMessage Model applyFailedMessage])) /\
  (forall events s s',
     run events s = Some s' -> exists more, chatHistory s' = chatHistory s ++ more) /\
  (forall storage s,
     reachable storage s ->
     exists more, chatHistory s = mkMessage Model greeting :: more).
Proof.
  assert (Hstep : forall ev s s',
            dispatch ev s = Some s' ->
            exists more, chatHistory s' = chatHistory s ++ more).
  { intros ev s s' Hd.
    destruct (dispatch_chatHistory ev s s' Hd)
      as [-> | [(_ & _ & ->) | [(r & _ & _ & ->) | (_ & ->)]]].
    - exists []. now rewrite app_nil_r.
    - now eexists.
    - now eexists.
    - now eexists. }
  split; [exact dispatch_chatHistory|]. split.
  - induction events as [|ev events IH]; intros s s'; cbn [run].
    + intros [= <-]. exists []. now rewrite app_nil_r.
    + destruct (dispatch ev s) as [s1|] eqn:Hd; [|discriminate].
      intros Hrun. destruct (Hstep ev s s1 Hd) as [first Hfirst].
      destruct (IH s1 s' Hrun) as [more Hmore].
      exists (first ++ more). now rewrite Hmore, Hfirst, app_assoc.
  - intros storage s Hs. induction Hs as [|s s' ev Hs [more IH] Hd].
    + now exists [].
    + destruct (Hstep ev s s' Hd) as [added ->]. rewrite IH.
      now exists (more ++ added).
Qed.

(** X12. One chat turn.  With a non-blank input, the flag down, nothing
    pending and steps on which [JSON.stringify] does not throw, sending
    raises the flag, clears the input and leaves exactly one pending
    request, which carries the message, the elements, the selection and
    the steps of that moment; sending again while it is pending does
    nothing.  When the response has been processed the flag is down,
    nothing is pending, and the history has gained the user's line and
    then the model's line: the explanation if it is not empty, the fixed
    apology if the response is [null]; a second response cannot arrive. *)
Theorem chat_turn (s : AppState) (awaited : option AIResponse) :
  JS.truthy (trim (input s)) = true -> isLoading s = false ->
  pendingRequests s = [] ->
  forallb serializableStep (animationSteps s) = true ->
  exists sent s',
    dispatch Send s = Some sent /\
    isLoading sent = true /\
    pendingRequests sent =
      [mkRequest (input s) (elements s) (selectedElementId s) (animationSteps s)] /\
    dispatch Send sent = Some sent /\
    run [Send; Reply awaited] s = Some s' /\
    isLoading s' = false /\ pendingRequests s' = [] /\ input s' = "" /\
    chatHistory s' =
      chatHistory s ++ mkMessage User (input s) ::
      match awaited with
      | Some aiResponse =>
          if JS.truthy (explanation aiResponse)
          then [mkMessage Model (explanation aiResponse)] else []
      | None => [mkMessage Model applyFailedMessage]
      end /\
    dispatch (Reply awaited) s' = None.
Proof.
  intros Hinput Hidle Hpending Hsteps.
  assert (Hsent : handleSend s =
                  setInput (fun _ => "") (handleSendMessage_begin (input s) s)).
  { unfold handleSend. now rewrite Hinput, Hidle. }
  assert (Hrequests : pendingRequests (handleSend s) =
            [mkRequest (input s) (elements s) (selectedElementId s)
               (animationSteps s)]).
  { rewrite Hsent. unfold handleSendMessage_begin. rewrite Hinput, Hsteps.
    cbn. now rewrite Hpending. }
  assert (Hloading : isLoading (handleSend s) = true).
  { rewrite Hsent. unfold handleSendMessage_begin. now rewrite Hinput, Hsteps. }
  assert (Hcleared : input (handleSend s) = "").
  { now rewrite Hsent. }
  assert (Hchat : chatHistory (handleSend s) =
                  chatHistory s ++ [mkMessage User (input s)]).
  { rewrite Hsent. unfold handleSendMessage_begin. now rewrite Hinput, Hsteps. }
  set (s' := handleSendMessage_settle awaited
               (setPendingRequests (fun _ => []) (handleSend s))).
  destruct (ReplyProps.reply_frame awaited
              (setPendingRequests (fun _ => []) (handleSend s)))
    as (Hloading' & Hinput' & Hpending').
  exists (handleSend s), s'.
  split; [reflexivity|]. split; [exact Hloading|]. split; [exact Hrequests|].
  split; [|split; [|split; [|split; [|split; [|split]]]]].
  - cbn [dispatch]. unfold handleSend at 1.
    now rewrite Hloading, andb_false_r.
  - cbn [run dispatch]. now rewrite Hrequests.
  - exact Hloading'.
  - exact Hpending'.
  - unfold s'. rewrite Hinput'. exact Hcleared.
  - unfold s'. rewrite settle_chatHistory.
    cbn [chatHistory setPendingRequests]. rewrite Hchat.
    now rewrite <- app_assoc.
  - cbn [dispatch].
    now replace (pendingRequests s') with (@nil Request)
      by (symmetry; exact Hpending').
Qed.



Lemma chat_history_only_grows_witness :
  run Samples.sendEvents (initialState ∅) = Some Samples.stateAfterSend /\
  chatHistory Samples.stateAfterSend
  = chatHistory (initialState ∅) ++ [mkMessage User "make the box spin"] /\
  (exists more,
     chatHistory Samples.stateAfterSend = mkMessage Model greeting :: more).
Proof.
  assert (Hrun : run Samples.sendEvents (initialState ∅) = Some Samples.stateAfterSend)
    by (vm_compute; reflexivity).
  destruct chat_history_only_grows as (_ & Hgrows & Hgreeting).
  split; [exact Hrun|]. split; [reflexivity|].
  apply (Hgreeting ∅).
  apply (run_reachable ∅ Samples.sendEvents (initialState ∅));
    [constructor|exact Hrun].
Defined.

Lemma chat_turn_witness :
  let s := setInput (fun _ => "make the box spin") Samples.stateWithBox in
  JS.truthy (trim (input s)) = true /\ isLoading s = false /\
  pendingRequests s = [] /\ forallb serializableStep (animationSteps s) = true /\
  (exists s',
     run [Send; Reply (Some Samples.animationReply)] s = Some s' /\
     isLoading s' = false /\
     chatHistory s' =
       [ mkMessage Model greeting; mkMessage User "make the box spin";
         mkMessage Model "Fading the box out." ]) /\
  (exists s',
     run [Send; Reply None] s = Some s' /\
     isLoading s' = false /\
     chatHistory s' =
       [ mkMessage Model greeting; mkMessage User "make the box spin";
         mkMessage Model applyFailedMessage ]).
Proof.
  intros s.
  destruct (chat_turn s (Some Samples.animationReply) eq_refl eq_refl eq_refl eq_refl)
    as (sent & s' & _ & _ & _ & _ & Hrun & Hloading & _ & _ & Hchat & _).
  destruct (chat_turn s None eq_refl eq_refl eq_refl eq_refl)
    as (sent0 & s0 & _ & _ & _ & _ & Hrun0 & Hloading0 & _ & _ & Hchat0 & _).
  split; [reflexivity|]. split; [reflexivity|]. split; [reflexivity|].
  split; [reflexivity|]. split.
  - exists s'. split; [exact Hrun|]. split; [exact Hloading|].
    rewrite Hchat. reflexivity.
  - exists s0. split; [exact Hrun0|]. split; [exact Hloading0|].
    rewrite Hchat0. reflexivity.
Defined.


End ChatProps.

(** * handleSort, there and back *)

Module SortProps.
Import JS Json Types App AppProps.
Local Open Scope list_scope.

Lemma handleSort_moved (l : list StageElement) (i j : nat) (dragged : StageElement) :
  l !! i = Some dragged ->
  handleSort (Some i) (Some j) l =
  (None, None,
   Some <$> (take j (delete i l) ++ dragged :: drop j (delete i l))).
Proof.
  intros Hdragged. unfold handleSort. rewrite splice_remove_one.
  rewrite lookup_take. destruct (decide (0 < 1)%nat); [|lia].
  rewrite lookup_drop, Nat.add_0_r, list_lookup_fmap, Hdragged.
  rewrite splice_insert_one. simpl.
  rewrite <- list_fmap_delete.
  now rewrite fmap_app, fmap_cons, fmap_take, fmap_drop.
Qed.

Lemma reinsert_deleted {A : Type} (l : list A) (i : nat) (a : A) :
  l !! i = Some a -> take i (delete i l) ++ a :: drop i (delete i l) = l.
Proof.
  intros Ha. assert (Hi : (i < length l)%nat) by (apply lookup_lt_is_Some; eauto).
  rewrite delete_take_drop.
  rewrite take_app_length' by (rewrite length_take; lia).
  rewrite drop_app_length' by (rewrite length_take; lia).
  now apply take_drop_middle.
Qed.

(** X13. Dragging row [i] onto row [j] and then row [j] back onto row
    [i] restores the list; dropping a row on itself changes nothing; the
    length never changes. *)
Theorem handleSort_round_trip (elements : list StageElement) (i j : nat) :
  (i < length elements)%nat -> (j < length elements)%nat ->
  exists sorted,
    handleSort (Some i) (Some j) elements = (None, None, Some <$> sorted) /\
    length sorted = length elements /\
    handleSort (Some j) (Some i) sorted = (None, None, Some <$> elements) /\
    (i = j -> sorted = elements).
Proof.
  intros Hi Hj.
  destruct (lookup_lt_is_Some_2 elements i Hi) as [dragged Hdragged].
  set (others := delete i elements).
  assert (Hothers : length others = (length elements - 1)%nat).
  { unfold others. rewrite length_delete by eauto. reflexivity. }
  assert (Hlen : length (take j others) = j) by (rewrite length_take; lia).
  set (sorted := take j others ++ dragged :: drop j others).
  assert (Hat : sorted !! j = Some dragged).
  { unfold sorted. rewrite lookup_app_r by lia. now rewrite Hlen, Nat.sub_diag. }
  assert (Hrest : delete j sorted = others).
  { unfold sorted. rewrite <- Hlen at 1. rewrite delete_middle. apply take_drop. }
  exists sorted. split; [now apply handleSort_moved|]. split; [|split].
  - unfold sorted. rewrite length_app, length_cons, length_take, length_drop. lia.
  - rewrite (handleSort_moved sorted j i dragged Hat), Hrest.
    unfold others. now rewrite reinsert_deleted.
  - intros <-. unfold sorted, others. now apply reinsert_deleted.
Qed.

Lemma handleSort_round_trip_witness :
  let rows := [newElementOf Box "1"; newElementOf Circle "2"; newElementOf Text "3"] in
  (0 < length rows)%nat /\ (2 < length rows)%nat /\
  exists sorted,
    handleSort (Some 0%nat) (Some 2%nat) rows = (None, None, Some <$> sorted) /\
    handleSort (Some 2%nat) (Some 0%nat) sorted = (None, None, Some <$> rows).
Proof.
  intros rows.
  assert (H0 : (0 < length rows)%nat) by (cbn; lia).
  assert (H2 : (2 < length rows)%nat) by (cbn; lia).
  destruct (handleSort_round_trip rows 0 2 H0 H2) as (sorted & Hthere & _ & Hback & _).
  split; [exact H0|]. split; [exact H2|].
  exists sorted. split; [exact Hthere|exact Hback].
Defined.

End SortProps.

(** * The theme *)

Module ThemeProps.
Import JS Json Types App AppProps.
Local Open Scope list_scope.




End ThemeProps.

(** * Properties of the panels *)

Module PanelProps.
Import JS Json Types App AppProps Panels.
Local Open Scope list_scope.

Lemma selectedElementOf_Some (s : AppState) (el : StageElement) :
  selectedElementOf s = Some el ->
  el ∈ elements s /\ selectedElementId s = Some (id el).
Proof.
  unfold selectedElementOf. destruct (selectedElementId s) as [selected|]; [|discriminate].
  intros Hfind. apply find_some in Hfind as [Hin Hid].
  apply String.eqb_eq in Hid. subst selected.
  split; [now apply list_elem_of_In|reflexivity].
Qed.

(** X15. Every preset that [PresetsPanel] offers animates the selected
    element: the selection names an element on the stage, the step targets
    it, and a scroll preset is triggered by it as well.  The text presets
    are offered only for a text element, and only the Typewriter preset
    needs the TextPlugin.  Applying the preset appends the step and leaves
    the elements alone. *)
Theorem offered_presets_animate_the_selection
    (s : AppState) (name : string) (step : AnimationStep) :
  (name, step) ∈ offeredPresets (selectedElementOf s) ->
  exists el,
    el ∈ elements s /\ selectedElementId s = Some (id el) /\
    target step = selector (id el) /\
    (usesScrollTrigger step = true -> triggerOf step = Some (selector (id el))) /\
    (usesScrollTrigger step = false -> type el = Text) /\
    (usesText step = true -> type el = Text /\ name = "Typewriter") /\
    animationSteps (handleApplyPreset step s) = animationSteps s ++ [step] /\
    elements (handleApplyPreset step s) = elements s.
Proof.
  intros Hoffered.
  destruct (selectedElementOf s) as [el|] eqn:Hselected;
    [|now apply elem_of_nil in Hoffered].
  destruct (selectedElementOf_Some s el Hselected) as [Hel Hid].
  exists el. split; [exact Hel|]. split; [exact Hid|].
  assert (Hscroll : (name, step) ∈ scrollPresets el ->
            target step = selector (id el) /\
            usesScrollTrigger step = true /\ usesText step = false /\
            triggerOf step = Some (selector (id el))).
  { unfold scrollPresets. intros Hin.
    apply elem_of_cons in Hin as [[= -> ->]|Hin]; [now repeat split|].
    apply elem_of_cons in Hin as [[= -> ->]|Hin]; [now repeat split|].
    now apply elem_of_nil in Hin. }
  assert (Htext : (name, step) ∈ textPresets el ->
            target step = selector (id el) /\
            usesScrollTrigger step = false /\
            (usesText step = true -> name = "Typewriter")).
  { unfold textPresets. intros Hin.
    apply elem_of_cons in Hin as [[= -> ->]|Hin]; [now repeat split|].
    apply elem_of_cons in Hin as [[= -> ->]|Hin]; [now repeat split|].
    now apply elem_of_nil in Hin. }
  unfold offeredPresets in Hoffered. apply elem_of_app in Hoffered as [Hin|Hin].
  - destruct (type el) eqn:Htype; try now apply elem_of_nil in Hin.
    destruct (Htext Hin) as (Htarget & Hnoscroll & Htypewriter).
    split; [exact Htarget|]. rewrite Hnoscroll.
    split; [discriminate|]. split; [reflexivity|]. split; [|now split].
    intros Huses. split; [reflexivity|now apply Htypewriter].
  - destruct (Hscroll Hin) as (Htarget & Huses & Hnotext & Htrigger).
    split; [exact Htarget|]. rewrite Huses, Hnotext.
    split; [now intros _|]. split; [discriminate|]. split; [discriminate|].
    now split.
Qed.

Lemma offered_presets_animate_the_selection_witness :
  let s := addElement Text "1" (initialState ∅) in
  ("Fade In on Scroll", fadeInOnScroll Samples.text1)
    ∈ offeredPresets (selectedElementOf s) /\
  exists el,
    el ∈ elements s /\
    target (fadeInOnScroll Samples.text1) = selector (id el) /\
    triggerOf (fadeInOnScroll Samples.text1) = Some (selector (id el)).
Proof.
  intros s.
  assert (Hoffered : ("Fade In on Scroll", fadeInOnScroll Samples.text1)
                       ∈ offeredPresets (selectedElementOf s)).
  { vm_compute. do 2 apply list_elem_of_further. apply list_elem_of_here. }
  destruct (offered_presets_animate_the_selection s _ _ Hoffered)
    as (el & Hel & _ & Htarget & Htrigger & _).
  split; [exact Hoffered|]. exists el. split; [exact Hel|].
  split; [exact Htarget|]. now apply Htrigger.
Defined.

(** X16. The exported page loads what the exported code registers: the
    [gsap.registerPlugin] line of [formatGSAPCode] and the script tags of
    [generateExportCode] are built from the same list of plugins, after
    the core script and from the same release. *)
Theorem export_loads_the_registered_plugins (steps : list AnimationStep) :
  registerPluginHeader steps =
    match pluginsOf steps with
    | [] => ""
    | plugins => "gsap.registerPlugin(" ++ join ", " plugins ++ ");" ++ LF ++ LF
    end%string /\
  scripts steps = join (LF ++ "  ") (gsapScript :: (scriptOf <$> pluginsOf steps)).
Proof.
  unfold registerPluginHeader, scripts, pluginsOf.
  destruct (existsb usesScrollTrigger steps), (existsb usesText steps);
    split; reflexivity.
Qed.

End PanelProps.

(** * The stage invariant *)

Module StageInvariant.
Import JS Json Types App AppProps Invariants.
Local Open Scope list_scope.

Lemma newElementOf_id (t : ElementType) (now : string) :
  id (newElementOf t now) = (typeName t ++ "-" ++ now)%string.
Proof. now destruct t. Qed.

Lemma cells_all_defined (cells : list (option StageElement))
    (sorted : list StageElement) :
  mapM (fun cell => cell) cells = Some sorted -> cells = Some <$> sorted.
Proof.
  intros Hcells. symmetry.
  apply (mapM_fmap_Some_inv (fun cell => cell) Some cells sorted Hcells).
  now intros cell el ->.
Qed.

Lemma handleSort_permutation (item over : option nat) (l : list StageElement)
    (item' over' : option nat) (sorted : list StageElement) :
  handleSort item over l = (item', over', Some <$> sorted) -> sorted ≡ₚ l.
Proof.
  destruct item as [i|], over as [j|];
    try (unfold handleSort; intros Heq;
         assert (Hsame : Some <$> l = Some <$> sorted) by congruence;
         now apply (inj (fmap Some)) in Hsame as ->).
  destruct (l !! i) as [dragged|] eqn:Hdragged.
  - rewrite (SortProps.handleSort_moved l i j dragged Hdragged).
    intros Heq.
    assert (Hsame : Some <$> (take j (delete i l) ++ dragged :: drop j (delete i l))
                    = Some <$> sorted) by congruence.
    apply (inj (fmap Some)) in Hsame as <-.
    rewrite <- Permutation_middle, take_drop.
    symmetry. now apply delete_Permutation.
  - unfold handleSort. rewrite splice_remove_one.
    rewrite lookup_take. destruct (decide (0 < 1)%nat); [|lia].
    rewrite lookup_drop, Nat.add_0_r, list_lookup_fmap, Hdragged.
    rewrite splice_insert_one. cbn [fmap option_fmap option_map mjoin option_join].
    intros Heq.
    assert (Hsame : take j (delete i (Some <$> l)) ++
                    None :: drop j (delete i (Some <$> l)) = Some <$> sorted)
      by congruence.
    exfalso.
    assert (Hcell : (Some <$> sorted)
                      !! length (take j (delete i (Some <$> l))) = Some None).
    { rewrite <- Hsame. rewrite lookup_app_r by lia.
      now rewrite Nat.sub_diag. }
    rewrite list_lookup_fmap in Hcell.
    now destruct (sorted !! length (take j (delete i (Some <$> l)))).
Qed.

Lemma handleIdChange_stage (oldId newId : string) (s : AppState) :
  handleIdChange oldId newId s = s \/
  ((newId ∉ id <$> elements s) /\
   id <$> elements (handleIdChange oldId newId s) =
     renamed oldId newId <$> (id <$> elements s) /\
   selectedElementId (handleIdChange oldId newId s) =
     renamed oldId newId <$> selectedElementId s).
Proof.
  destruct (handleIdChange_ids oldId newId s) as [Hsame | [Hfresh Hids]];
    [now left|].
  destruct (String.eqb oldId newId || negb (JS.truthy newId)) eqn:Hguard1.
  { left. unfold handleIdChange. now rewrite Hguard1. }
  destruct (existsb (fun el => String.eqb (id el) newId) (elements s)) eqn:Hguard2.
  { left. unfold handleIdChange. now rewrite Hguard1, Hguard2. }
  right. split; [exact Hfresh|]. split; [exact Hids|].
  unfold handleIdChange. rewrite Hguard1, Hguard2.
  destruct (selectedElementId s) as [selected|] eqn:Hs; [|exact Hs].
  cbn [fmap option_fmap option_map]. unfold renamed.
  destruct (String.eqb selected oldId); [reflexivity|exact Hs].
Qed.

Lemma dispatch_stage (ev : Event) (s s' : AppState) :
  dispatch ev s = Some s' -> wellFormed s ev -> stageOk s -> stageOk s'.
Proof.
  intros Hd Hev [Hdistinct Hselected]. destruct ev.
  all: try (dispatched Hd; handlers; branches; now split).
  - (* AddElement *)
    dispatched Hd. cbn [wellFormed] in Hev. unfold stageOk, addElement.
    cbn [elements selectedElementId setElements setSelectedElementId].
    rewrite fmap_app. cbn [fmap list_fmap]. rewrite newElementOf_id. split.
    + apply NoDup_app. split; [assumption|]. split; [|apply NoDup_singleton].
      intros i Hi Hnew. apply list_elem_of_singleton in Hnew as ->. contradiction.
    + intros i [= <-]. apply elem_of_app. right. apply list_elem_of_here.
  - (* RemoveElement *)
    dispatched Hd. unfold stageOk.
    rewrite ElementProps.removeElement_elements, ElementProps.removeElement_selection.
    split.
    + apply (sublist_NoDup _ (id <$> elements s)); [assumption|].
      apply ElementProps.filter_ids_sublist.
    + intros i Hi. destruct (selectedElementId s) as [selected|]; [|discriminate].
      destruct (String.eqb selected elementId) eqn:Hsame; [discriminate|].
      injection Hi as <-. apply ElementProps.elem_of_filter_ids.
      split; [now apply Hselected|now apply String.eqb_neq].
  - (* UpdateElement *)
    dispatched Hd. cbn [wellFormed] in Hev. unfold stageOk.
    rewrite ElementProps.updateElement_elements, ElementProps.map_update_ids
      by assumption.
    now split.
  - (* SelectElement *)
    dispatched Hd. split; [exact Hdistinct|].
    intros i Hi. cbn in Hi. subst selection. exact Hev.
  - (* DragEnd *)
    cbv beta iota delta [dispatch] in Hd.
    destruct (handleSort (dragItem s) (dragOverItem s) (elements s))
      as [[item over] cells] eqn:Hsort.
    destruct (mapM (fun cell => cell) cells) as [sorted|] eqn:Hcells; [|discriminate].
    injection Hd as <-. apply cells_all_defined in Hcells as ->.
    apply handleSort_permutation in Hsort.
    unfold stageOk. cbn [elements selectedElementId setElements setDragItem
                         setDragOverItem].
    split; [now rewrite Hsort|].
    intros i Hi. rewrite Hsort. now apply Hselected.
  - (* IdChange *)
    dispatched Hd.
    destruct (handleIdChange_stage oldId newId s) as [-> | (Hfresh & Hids & Hsel)];
      [now split|].
    unfold stageOk. rewrite Hids, Hsel. split.
    + now apply NoDup_renamed.
    + intros i Hi. destruct (selectedElementId s) as [selected|]; [|discriminate].
      injection Hi as <-. apply list_elem_of_fmap_2. now apply Hselected.
  - (* Reply *)
    cbv beta iota delta [dispatch] in Hd.
    destruct (pendingRequests s) as [|request rest]; [discriminate|].
    injection Hd as <-. destruct aiResponse as [aiResponse|]; [|now split].
    cbn [wellFormed] in Hev. destruct Hev as [Hcreated Hmodified].
    cbn [handleSendMessage_settle].
    destruct (ReplyProps.resume_untouched aiResponse
                (setPendingRequests (fun _ => rest) s)) as (Hsel & _).
    unfold stageOk. rewrite Hsel, ReplyProps.resume_elements.
    cbn [elements selectedElementId setPendingRequests].
    assert (Hcreation :
      NoDup (id <$> match new_elements aiResponse with
                    | Some newElements =>
                        if String.eqb (response_type aiResponse) "element_creation"
                        then elements s ++ newElements else elements s
                    | None => elements s
                    end) /\
      forall i, selectedElementId s = Some i ->
        i ∈ id <$> match new_elements aiResponse with
                   | Some newElements =>
                       if String.eqb (response_type aiResponse) "element_creation"
                       then elements s ++ newElements else elements s
                   | None => elements s
                   end).
    { destruct (new_elements aiResponse) as [newElements|]; [|now split].
      destruct (String.eqb (response_type aiResponse) "element_creation") eqn:Htype;
        [|now split].
      apply String.eqb_eq in Htype. split; [now apply Hcreated|].
      intros i Hi. rewrite fmap_app. apply elem_of_app. left. now apply Hselected. }
    destruct (modified_elements aiResponse) as [modifications|]; [|exact Hcreation].
    destruct (String.eqb (response_type aiResponse) "element_modification") eqn:Htype;
      [|exact Hcreation].
    apply String.eqb_eq in Htype.
    rewrite applyModifications_ids by now apply Hmodified.
    now split.
Qed.

Lemma run_stage (events : list Event) (s s' : AppState) :
  stageOk s -> wellFormedRun events s -> run events s = Some s' -> stageOk s'.
Proof.
  revert s. induction events as [|ev events IH]; intros s Hok Hevents; cbn [run].
  - now intros [= <-].
  - cbn [wellFormedRun] in Hevents. destruct Hevents as [Hev Hrest].
    destruct (dispatch ev s) as [s1|] eqn:Hd; [|discriminate].
    apply IH; [|exact Hrest]. now apply (dispatch_stage ev s s1).
Qed.

(** X17. Ids stay pairwise distinct and the selection stays on the
    stage: the initial state is such a state, and an event keeps it so
    provided a new element gets an id that is not taken, property edits
    and modification entries list no id, created elements bring ids that
    are not taken, and a click selects an element that is there.  Then,
    after any run of such events, the selected element is found by
    [PresetsPanel].  The first proviso is needed: adding two elements of
    one type within the same millisecond gives two elements with one
    id. *)
Theorem stage_stays_well_formed (storage : gmap string string) :
  stageOk (initialState storage) /\
  (forall ev s s',
     stageOk s -> wellFormed s ev -> dispatch ev s = Some s' -> stageOk s') /\
  (forall events s,
     wellFormedRun events (initialState storage) ->
     run events (initialState storage) = Some s ->
     NoDup (id <$> elements s) /\
     forall i, selectedElementId s = Some i ->
       exists el, Panels.selectedElementOf s = Some el /\ id el = i) /\
  (forall t now s,
     ~ NoDup (id <$> elements (addElement t now (addElement t now s)))).
Proof.
  assert (Hinitial : stageOk (initialState storage)).
  { split; [apply NoDup_nil_2|]. intros i Hi. discriminate Hi. }
  split; [exact Hinitial|]. split; [|split].
  - intros ev s s' Hok Hev Hd. now apply (dispatch_stage ev s s').
  - intros events s Hevents Hrun.
    destruct (run_stage events (initialState storage) s Hinitial Hevents Hrun)
      as [Hdistinct Hselected].
    split; [exact Hdistinct|]. intros i Hi.
    unfold Panels.selectedElementOf. rewrite Hi.
    destruct (List.find (fun e => String.eqb (id e) i) (elements s)) as [el|] eqn:Hfind.
    + exists el. split; [reflexivity|].
      apply find_some in Hfind as [_ Hid]. now apply String.eqb_eq.
    + exfalso. apply Hselected in Hi.
      apply list_elem_of_fmap in Hi as (el & -> & Hel).
      apply list_elem_of_In in Hel.
      apply (find_none _ _ Hfind) in Hel. now rewrite String.eqb_refl in Hel.
  - intros t now s Hdistinct. unfold addElement in Hdistinct.
    cbn [elements setElements setSelectedElementId] in Hdistinct.
    rewrite !fmap_app in Hdistinct. cbn [fmap list_fmap] in Hdistinct.
    rewrite <- app_assoc in Hdistinct.
    apply NoDup_app in Hdistinct as (_ & _ & Htwice).
    cbn [app] in Htwice. apply NoDup_cons in Htwice as [Hnew _].
    apply Hnew, list_elem_of_here.
Qed.

Lemma stage_stays_well_formed_witness :
  let events :=
    [ AddElement Box "1"; AddElement Circle "2"; IdChange "box-1" "hero";
      SelectElement (Some "hero"); RemoveElement "circle-2" ] in
  let s :=
    removeElement "circle-2"
      (setSelectedElementId (fun _ => Some "hero")
         (handleIdChange "box-1" "hero" Samples.stateWithTwo)) in
  wellFormedRun events (initialState ∅) /\
  run events (initialState ∅) = Some s /\
  id <$> elements s = ["hero"] /\
  NoDup (id <$> elements s) /\
  exists el, Panels.selectedElementOf s = Some el /\ id el = "hero".
Proof.
  intros events s.
  assert (Hrun : run events (initialState ∅) = Some s) by (vm_compute; reflexivity).
  assert (Hevents : wellFormedRun events (initialState ∅)).
  { vm_compute. split; [apply not_elem_of_nil|].
    split; [|split; [exact I|split; [apply list_elem_of_here|split; exact I]]].
    intros Hin. apply elem_of_cons in Hin as [Hin|Hin]; [discriminate Hin|].
    now apply elem_of_nil in Hin. }
  destruct (stage_stays_well_formed ∅) as (_ & _ & Hruns & _).
  destruct (Hruns events s Hevents Hrun) as [Hdistinct Hselected].
  split; [exact Hevents|]. split; [exact Hrun|]. split; [reflexivity|].
  split; [exact Hdistinct|]. now apply Hselected.
Defined.

End StageInvariant.

(** * Properties of the Draggable instances *)

Module StageProps.
Import JS Json Types Stage.
Local Open Scope list_scope.

Lemma find_by_id (key : string) (elements : list StageElement) :
  match List.find (fun el => String.eqb (id el) key) elements with
  | Some _ => key ∈ id <$> elements
  | None => key ∉ id <$> elements
  end.
Proof.
  induction elements as [|el elements IH]; cbn [List.find fmap list_fmap].
  - apply not_elem_of_nil.
  - destruct (String.eqb (id el) key) eqn:Hid.
    + apply String.eqb_eq in Hid as <-. apply list_elem_of_here.
    + apply String.eqb_neq in Hid.
      destruct (List.find (fun el => String.eqb (id el) key) elements).
      * now apply list_elem_of_further.
      * apply not_elem_of_cons. split; [congruence|assumption].
Qed.

Section Effect.

Variable inDocument : string -> bool.

Lemma createMissing_lookup (elements : list StageElement)
    (instances : gmap string Draggable) (key : string) :
  createMissing inDocument elements instances !! key =
  match instances !! key with
  | Some instance => Some instance
  | None =>
      if bool_decide (key ∈ id <$> elements) && inDocument key
         && negb (inherited key)
      then Some (mkDraggable key) else None
  end.
Proof.
  revert instances. induction elements as [|el elements IH]; intros instances.
  - cbn. now destruct (instances !! key).
  - change (createMissing inDocument (el :: elements) instances)
      with (createMissing inDocument elements
              (if inDocument (id el) && negb (readsTruthy instances (id el))
               then <[id el := mkDraggable (id el)]> instances
               else instances)).
    rewrite IH. cbn [fmap list_fmap]. unfold readsTruthy.
    destruct (decide (key = id el)) as [->|Hkey].
    + rewrite (bool_decide_eq_true_2 (id el ∈ id el :: (id <$> elements)))
        by apply list_elem_of_here.
      destruct (instances !! id el) as [instance|] eqn:Hinstance.
      * rewrite andb_false_r. now rewrite Hinstance.
      * destruct (inDocument (id el)), (inherited (id el)); cbn [andb negb].
        -- rewrite Hinstance. now rewrite !andb_false_r.
        -- now rewrite lookup_insert_eq.
        -- rewrite Hinstance. now rewrite !andb_false_r.
        -- rewrite Hinstance. now rewrite !andb_false_r.
    + assert (Hmember : bool_decide (key ∈ id el :: (id <$> elements)) =
                        bool_decide (key ∈ id <$> elements)).
      { apply bool_decide_ext. rewrite elem_of_cons. tauto. }
      rewrite Hmember.
      destruct (inDocument (id el) &&
                negb match instances !! id el with
                     | Some _ => true
                     | None => inherited (id el)
                     end); [|reflexivity].
      now rewrite lookup_insert_ne by congruence.
Qed.

(** The second loop, for any list of keys. *)
Lemma kill_lookup (elements : list StageElement) (keys : list string)
    (instances : gmap string Draggable) (key : string) :
  fold_left
    (fun acc k =>
       match List.find (fun el => String.eqb (id el) k) elements with
       | Some _ => acc
       | None => delete k acc
       end) keys instances !! key =
  if bool_decide (key ∈ keys) && negb (bool_decide (key ∈ id <$> elements))
  then None else instances !! key.
Proof.
  revert instances. induction keys as [|k keys IH]; intros instances.
  - reflexivity.
  - cbn [fold_left]. rewrite IH.
    pose proof (find_by_id k elements) as Hfind.
    destruct (decide (key = k)) as [->|Hkey].
    + rewrite (bool_decide_eq_true_2 (k ∈ k :: keys)) by apply list_elem_of_here.
      destruct (List.find (fun el => String.eqb (id el) k) elements).
      * rewrite (bool_decide_eq_true_2 _ Hfind). now rewrite andb_false_r.
      * rewrite (bool_decide_eq_false_2 _ Hfind). cbn [negb andb].
        rewrite andb_true_r. rewrite lookup_delete_eq.
        now destruct (bool_decide (k ∈ keys)).
    + assert (Hmember : bool_decide (key ∈ k :: keys) = bool_decide (key ∈ keys)).
      { apply bool_decide_ext. rewrite elem_of_cons. tauto. }
      rewrite Hmember.
      destruct (List.find (fun el => String.eqb (id el) k) elements); [reflexivity|].
      now rewrite lookup_delete_ne by congruence.
Qed.

Lemma killRemoved_lookup (elements : list StageElement)
    (instances : gmap string Draggable) (key : string) :
  killRemoved elements instances !! key =
  if bool_decide (key ∈ id <$> elements) then instances !! key else None.
Proof.
  unfold killRemoved. rewrite kill_lookup.
  destruct (bool_decide (key ∈ id <$> elements)); [now rewrite andb_false_r|].
  rewrite andb_true_r.
  destruct (bool_decide (key ∈ (map_to_list instances).*1)) eqn:Hkey; [reflexivity|].
  apply bool_decide_eq_false in Hkey.
  destruct (instances !! key) as [instance|] eqn:Hinstance; [|reflexivity].
  contradiction Hkey. apply list_elem_of_fmap. exists (key, instance).
  split; [reflexivity|]. now apply elem_of_map_to_list.
Qed.

Lemma draggableEffect_lookup (elements : list StageElement)
    (instances : gmap string Draggable) (key : string) :
  draggableEffect inDocument elements instances !! key =
  if bool_decide (key ∈ id <$> elements) then
    match instances !! key with
    | Some instance => Some instance
    | None =>
        if inDocument key && negb (inherited key)
        then Some (mkDraggable key) else None
    end
  else None.
Proof.
  unfold draggableEffect. rewrite killRemoved_lookup, createMissing_lookup.
  now destruct (bool_decide (key ∈ id <$> elements)).
Qed.

(** X18. After the effect of [Stage] has run, the Draggable instances are
    those of the elements: an instance whose element is gone is deleted,
    an instance of a remaining element is kept as it is (not made anew),
    a missing one is made if the element has a node and its id is not a
    name that [{}] inherits from [Object.prototype].  If all elements have
    nodes and no id is such a name, the keys are the ids; an element whose
    id is such a name (one renamed to [constructor], say) never gets an
    instance.  Running the effect again changes nothing, and the order in
    which [Object.keys] lists the keys does not matter. *)
Theorem draggableEffect_follows_the_elements
    (elements : list StageElement) (instances : gmap string Draggable) :
  let after := draggableEffect inDocument elements instances in
  (forall key,
     after !! key =
     if bool_decide (key ∈ id <$> elements) then
       match instances !! key with
       | Some instance => Some instance
       | None =>
           if inDocument key && negb (inherited key)
           then Some (mkDraggable key) else None
       end
     else None) /\
  (forall key instance, after !! key = Some instance -> key ∈ id <$> elements) /\
  (forall key instance,
     instances !! key = Some instance -> key ∈ id <$> elements ->
     after !! key = Some instance) /\
  ((forall el, el ∈ elements ->
      inDocument (id el) = true /\ inherited (id el) = false) ->
   forall key, is_Some (after !! key) <-> key ∈ id <$> elements) /\
  (forall key,
     inherited key = true -> instances !! key = None -> after !! key = None) /\
  draggableEffect inDocument elements after = after /\
  (forall keys,
     keys ≡ₚ (map_to_list (createMissing inDocument elements instances)).*1 ->
     fold_left
       (fun acc k =>
          match List.find (fun el => String.eqb (id el) k) elements with
          | Some _ => acc
          | None => delete k acc
          end) keys (createMissing inDocument elements instances) = after).
Proof.
  intros after. subst after.
  split; [apply draggableEffect_lookup|].
  split; [|split; [|split; [|split; [|split]]]].
  - intros key instance. rewrite draggableEffect_lookup.
    case_bool_decide; [now intros _|discriminate].
  - intros key instance Hinstance Hkey. rewrite draggableEffect_lookup.
    rewrite (bool_decide_eq_true_2 _ Hkey). now rewrite Hinstance.
  - intros Hnodes key. rewrite draggableEffect_lookup.
    case_bool_decide as Hkey.
    + split; [now intros _|]. intros _.
      destruct (instances !! key); [now eexists|].
      apply list_elem_of_fmap in Hkey as (el & -> & Hel).
      destruct (Hnodes el Hel) as [-> ->]. now eexists.
    + split; [intros [instance Hnone]; discriminate|contradiction].
  - intros key Hinherited Hnone. rewrite draggableEffect_lookup, Hnone, Hinherited.
    rewrite andb_false_r. now destruct (bool_decide (key ∈ id <$> elements)).
  - apply map_eq. intros key. rewrite !draggableEffect_lookup.
    case_bool_decide; [|reflexivity].
    destruct (instances !! key); [reflexivity|].
    now destruct (inDocument key && negb (inherited key)).
  - intros keys Hkeys. apply map_eq. intros key.
    rewrite kill_lookup. unfold draggableEffect. rewrite killRemoved_lookup.
    destruct (bool_decide (key ∈ id <$> elements)); [now rewrite andb_false_r|].
    rewrite andb_true_r.
    destruct (bool_decide (key ∈ keys)) eqn:Hkey; [reflexivity|].
    apply bool_decide_eq_false in Hkey.
    destruct (createMissing inDocument elements instances !! key)
      as [instance|] eqn:Hinstance; [|reflexivity].
    contradiction Hkey. rewrite Hkeys. apply list_elem_of_fmap.
    exists (key, instance). split; [reflexivity|]. now apply elem_of_map_to_list.
Qed.

End Effect.

Lemma draggableEffect_follows_the_elements_witness :
  let stale : gmap string Draggable := {[ "box-0" := mkDraggable "box-0" ]} in
  let after := draggableEffect (fun _ => true) [Samples.box1] stale in
  let renamed := spread Samples.box1 (App.idOnly "constructor") in
  after !! "box-1" = Some (mkDraggable "box-1") /\
  after !! "box-0" = None /\
  is_Some (after !! "box-1") /\
  draggableEffect (fun _ => true) [renamed] ∅ !! "constructor" = None.
Proof.
  intros stale after renamed.
  destruct (draggableEffect_follows_the_elements (fun _ => true) [Samples.box1] stale)
    as (Hlookup & _ & _ & Hall & _).
  destruct (draggableEffect_follows_the_elements (fun _ => true) [renamed] ∅)
    as (_ & _ & _ & _ & Hinherited & _).
  split; [|split; [|split]].
  - unfold after. rewrite Hlookup. reflexivity.
  - unfold after. rewrite Hlookup. reflexivity.
  - apply Hall; [|apply list_elem_of_here].
    intros el Hel. apply list_elem_of_singleton in Hel as ->. now split.
  - apply Hinherited; reflexivity.
Defined.

End StageProps.

(** * Uploaded media and the prompt *)

Module UploadProps.
Import JS Json Types GeminiService App Upload.
Local Open Scope list_scope.

Lemma sanitize_uploaded (el : StageElement) (base64 : string) :
  startsWith base64 "data:" = true ->
  sanitize (spread el (srcOnly base64)) = spread el (srcOnly "data:...").
Proof.
  intros Hdata. unfold sanitize.
  change (src (spread el (srcOnly base64))) with (Some base64).
  cbv beta iota. rewrite FenceProps.startsWith_truthy, Hdata by discriminate.
  reflexivity.
Qed.

Lemma sanitize_onload (selected base64 : string) (s : AppState) :
  startsWith base64 "data:" = true ->
  sanitize <$> elements (onload selected base64 s) =
  (fun el => if String.eqb (id el) selected
             then spread el (srcOnly "data:...") else sanitize el)
  <$> elements s.
Proof.
  intros Hdata. unfold onload. rewrite ElementProps.updateElement_elements.
  rewrite <- list_fmap_compose. apply list_fmap_ext.
  intros i el _. cbn. destruct (String.eqb (id el) selected); [|reflexivity].
  now apply sanitize_uploaded.
Qed.

Section Service.

Variable stringifyElements : list StageElement -> string.
Variable stringifySteps : list AnimationStep -> string.

(** X19. What a user uploads does not reach the model.  The [onload]
    callback of [handleFileUpload] stores the data URL as the [src] of the
    elements that have the captured id and changes nothing else; such an
    element is sanitized to [data:...], and the prompt built from the stage
    afterwards is the same whatever data URL was stored: it does not depend
    on the content of the file. *)
Theorem uploaded_content_stays_out_of_the_prompt
    (s : AppState) (selected base64 other : string)
    (message : string) (selection : option string) (steps : list AnimationStep) :
  startsWith base64 "data:" = true -> startsWith other "data:" = true ->
  let s' := onload selected base64 s in
  id <$> elements s' = id <$> elements s /\
  (forall i el, elements s !! i = Some el ->
     elements s' !! i =
     Some (if String.eqb (id el) selected then spread el (srcOnly base64) else el)) /\
  (forall el, el ∈ elements s' -> id el = selected ->
     src el = Some base64 /\ src (sanitize el) = Some "data:...") /\
  buildPrompt stringifyElements stringifySteps message (elements s') selection steps
  = buildPrompt stringifyElements stringifySteps message
      (elements (onload selected other s)) selection steps.
Proof.
  intros Hdata Hother s'. subst s'.
  split; [|split; [|split]].
  - unfold onload. rewrite ElementProps.updateElement_elements.
    now apply ElementProps.map_update_ids.
  - intros i el Hel. unfold onload.
    now rewrite ElementProps.updateElement_elements, list_lookup_fmap, Hel.
  - intros el Hel Hid. unfold onload in Hel.
    rewrite ElementProps.updateElement_elements in Hel.
    apply list_elem_of_fmap in Hel as (before & -> & _).
    destruct (String.eqb (id before) selected) eqn:Hbefore.
    + split; [reflexivity|]. now rewrite sanitize_uploaded.
    + apply String.eqb_neq in Hbefore. contradiction.
  - unfold buildPrompt. cbv zeta.
    change (List.map sanitize ?l) with (sanitize <$> l).
    now rewrite !sanitize_onload.
Qed.

End Service.

Lemma uploaded_content_stays_out_of_the_prompt_witness :
  let s := addElement Image "7" (initialState ∅) in
  let photo := "data:image/png;base64,iVBORw0KGgo=" in
  let clip := "data:video/mp4;base64,AAAAIGZ0eXA=" in
  handleFileUpload true s = Some "image-7" /\
  startsWith photo "data:" = true /\ startsWith clip "data:" = true /\
  src <$> elements (onload "image-7" photo s) = [Some photo] /\
  src <$> (sanitize <$> elements (onload "image-7" photo s)) = [Some "data:..."] /\
  buildPrompt Samples.sampleStringifyElements Samples.sampleStringifySteps
    "make it spin" (elements (onload "image-7" photo s)) (Some "image-7") []
  = buildPrompt Samples.sampleStringifyElements Samples.sampleStringifySteps
      "make it spin" (elements (onload "image-7" clip s)) (Some "image-7") [].
Proof.
  intros s photo clip.
  destruct (uploaded_content_stays_out_of_the_prompt
              Samples.sampleStringifyElements Samples.sampleStringifySteps
              s "image-7" photo clip "make it spin" (Some "image-7") []
              eq_refl eq_refl) as (_ & _ & _ & Hprompt).
  split; [reflexivity|]. split; [reflexivity|]. split; [reflexivity|].
  split; [reflexivity|]. split; [reflexivity|]. exact Hprompt.
Defined.

End UploadProps.
